(** * NV2A PGRAPH: primitive index rewrite and Vulkan buffer set

    A shallow embedding of two pieces of the renderer:

    - the primitive index rewrite ([prim_rewrite.h] and its
      implementation): the CPU-side rewrite of NV2A primitive types to
      point, line and triangle lists (module [Prim]);
    - [hw/xbox/nv2a/pgraph/vk/buffer.c]: creation and teardown of the
      buffer set, and the bump allocator on top of it (module [Buffer]).

    C [unsigned int] and [uint32_t] values are integers of [Z] kept in
    [0, 2^32) by [wrap32]; [VkDeviceSize] and [size_t] values are kept in
    [0, 2^64) by [wrap64].  A C array is a list, read with [!!] and
    updated with [<[ _ := _ ]>]; a read or a write out of range, a failed
    [assert] and a dereferenced null pointer are the error [None]. *)

From Stdlib Require Import ZArith Lia.
From Stdlib.Strings Require Import Byte.
From stdpp Require Import base tactics option numbers list gmap.

Local Open Scope Z_scope.

(** ** Machine integers *)

Definition wrap32 (x : Z) : Z := x mod 2 ^ 32.
Definition wrap64 (x : Z) : Z := x mod 2 ^ 64.

(** [for (unsigned int i = i0; cond(i); i += step) body(i)], threading the
    state [s] through the iterations.  [fuel] bounds the number of
    iterations; running out of it is an error, so a result [Some _] is
    always the result of a loop that left through its condition. *)
Fixpoint for_loop {St : Type} (fuel : nat) (cond : Z → bool) (step : Z)
    (body : Z → St → option St) (i : Z) (s : St) : option St :=
  if cond i then
    match fuel with
    | O => None
    | S fuel' =>
        s' ← body i s;
        for_loop fuel' cond step body (wrap32 (i + step)) s'
    end
  else Some s.

Module Prim.

(** Modelled from the spec: [enum ShaderPrimitiveMode] is declared in a
    header that is not part of the sources at hand; the ten topologies
    are the ones the data model lists and the [switch] statements name. *)
Inductive ShaderPrimitiveMode :=
  | PRIM_TYPE_POINTS
  | PRIM_TYPE_LINES
  | PRIM_TYPE_LINE_STRIP
  | PRIM_TYPE_LINE_LOOP
  | PRIM_TYPE_TRIANGLES
  | PRIM_TYPE_TRIANGLE_STRIP
  | PRIM_TYPE_TRIANGLE_FAN
  | PRIM_TYPE_QUADS
  | PRIM_TYPE_QUAD_STRIP
  | PRIM_TYPE_POLYGON.

(** Modelled from the spec: [enum ShaderPolygonMode], from the same
    header; the fill modes of the data model. *)
Inductive ShaderPolygonMode :=
  | POLY_MODE_POINT
  | POLY_MODE_LINE
  | POLY_MODE_FILL.

#[global] Instance ShaderPrimitiveMode_eq_dec : EqDecision ShaderPrimitiveMode.
Proof. solve_decision. Defined.
#[global] Instance ShaderPolygonMode_eq_dec : EqDecision ShaderPolygonMode.
Proof. solve_decision. Defined.

Record PrimAssemblyState := {
  primitive_mode : ShaderPrimitiveMode;
  polygon_mode : ShaderPolygonMode;
  last_provoking : bool;
  flat_shading : bool;
}.

(** The scratch buffer: [data] is [None] for a null pointer and the
    array of [capacity] elements otherwise. *)
Record PrimRewriteBuf := {
  data : option (list Z);
  capacity : Z;
}.

(** The result of a rewrite.  [indices] points into the scratch buffer:
    the pointer is modelled by the array it points to, and the entry
    points store that array back into the buffer they return. *)
Record PrimRewrite := {
  indices : option (list Z);
  num_indices : Z;
}.

Definition pgraph_prim_rewrite_init (buf : PrimRewriteBuf) : PrimRewriteBuf :=
  {| data := None; capacity := 0 |}.

Definition pgraph_prim_rewrite_finalize (buf : PrimRewriteBuf) : PrimRewriteBuf :=
  {| data := None; capacity := 0 |}.

(** [g_realloc] keeps the old contents and leaves the new tail
    uninitialised; the model fills it with zeroes. *)
Definition ensure_capacity (buf : PrimRewriteBuf) (needed : Z) : PrimRewriteBuf :=
  if needed <=? capacity buf then buf
  else
    let capacity' := Z.max needed (wrap32 (capacity buf * 2)) in
    {| data := Some (resize (Z.to_nat capacity') 0 (default [] (data buf)));
       capacity := capacity' |}.

Definition pgraph_prim_rewrite_get_output_mode
    (primitive_mode : ShaderPrimitiveMode) (polygon_mode : ShaderPolygonMode)
    : ShaderPrimitiveMode :=
  match primitive_mode with
  | PRIM_TYPE_POINTS => PRIM_TYPE_POINTS
  | PRIM_TYPE_LINES | PRIM_TYPE_LINE_STRIP | PRIM_TYPE_LINE_LOOP =>
      PRIM_TYPE_LINES
  | PRIM_TYPE_TRIANGLES | PRIM_TYPE_TRIANGLE_STRIP | PRIM_TYPE_TRIANGLE_FAN =>
      PRIM_TYPE_TRIANGLES
  | PRIM_TYPE_QUADS | PRIM_TYPE_QUAD_STRIP | PRIM_TYPE_POLYGON =>
      if decide (polygon_mode = POLY_MODE_LINE) then PRIM_TYPE_LINES
      else PRIM_TYPE_TRIANGLES
  end.

Definition needs_rewrite (mode : PrimAssemblyState) : bool :=
  match primitive_mode mode with
  | PRIM_TYPE_POINTS => false
  | PRIM_TYPE_LINES | PRIM_TYPE_TRIANGLES =>
      last_provoking mode && flat_shading mode
  | _ => true
  end.

Definition max_output_indices (mode : ShaderPrimitiveMode)
    (polygon_mode : ShaderPolygonMode) (input_count : Z) : Z :=
  match mode with
  | PRIM_TYPE_LINES => input_count
  | PRIM_TYPE_LINE_STRIP =>
      if 2 <=? input_count then wrap32 (wrap32 (input_count - 1) * 2) else 0
  | PRIM_TYPE_LINE_LOOP =>
      if 2 <=? input_count then wrap32 (input_count * 2) else 0
  | PRIM_TYPE_TRIANGLES => input_count
  | PRIM_TYPE_TRIANGLE_STRIP | PRIM_TYPE_TRIANGLE_FAN =>
      if 3 <=? input_count then wrap32 (wrap32 (input_count - 2) * 3) else 0
  | PRIM_TYPE_POLYGON =>
      if decide (polygon_mode = POLY_MODE_LINE) then
        if 2 <=? input_count then wrap32 (input_count * 2) else 0
      else
        if 3 <=? input_count then wrap32 (wrap32 (input_count - 2) * 3) else 0
  | PRIM_TYPE_QUADS =>
      if decide (polygon_mode = POLY_MODE_LINE) then
        wrap32 ((input_count / 4) * 8)
      else wrap32 ((input_count / 4) * 6)
  | PRIM_TYPE_QUAD_STRIP =>
      if decide (polygon_mode = POLY_MODE_LINE) then
        if 4 <=? input_count then wrap32 ((wrap32 (input_count - 2) / 2) * 8)
        else 0
      else
        if 4 <=? input_count then wrap32 ((wrap32 (input_count - 2) / 2) * 6)
        else 0
  | PRIM_TYPE_POINTS => 0
  end.

(** [idx ? idx[i] : base + i] *)
Definition idx_at (idx : option (list Z)) (i : Z) (base : Z) : option Z :=
  match idx with
  | Some a => a !! Z.to_nat i
  | None => Some (wrap32 (base + i))
  end.

(** [r->indices[r->num_indices++] = v] *)
Definition emit_vertex (r : PrimRewrite) (v : Z) : option PrimRewrite :=
  a ← indices r;
  if bool_decide (0 ≤ num_indices r < Z.of_nat (length a)) then
    Some {| indices := Some (<[Z.to_nat (num_indices r) := v]> a);
            num_indices := wrap32 (num_indices r + 1) |}
  else None.

Definition emit_line (r : PrimRewrite) (a b : Z) : option PrimRewrite :=
  r ← emit_vertex r a;
  emit_vertex r b.

Definition emit_line_pv (r : PrimRewrite) (a b p : Z) : option PrimRewrite :=
  if p =? a then emit_line r a b else emit_line r b a.

Definition emit_tri (r : PrimRewrite) (a b c : Z) : option PrimRewrite :=
  r ← emit_vertex r a;
  r ← emit_vertex r b;
  emit_vertex r c.

Definition emit_tri_pv (r : PrimRewrite) (a b c p : Z) : option PrimRewrite :=
  if p =? a then emit_tri r a b c
  else if p =? b then emit_tri r b c a
  else emit_tri r c a b.

Definition rewrite_lines (r : PrimRewrite) (idx : option (list Z))
    (base count : Z) (last_provoking : bool) : option PrimRewrite :=
  for_loop (Z.to_nat count) (λ i, wrap32 (i + 1) <? count) 2
    (λ i r,
       v0 ← idx_at idx i base;
       v1 ← idx_at idx (wrap32 (i + 1)) base;
       let pv := if last_provoking then v1 else v0 in
       emit_line_pv r v0 v1 pv)
    0 r.

Definition rewrite_line_strip (r : PrimRewrite) (idx : option (list Z))
    (base count : Z) (last_provoking : bool) : option PrimRewrite :=
  for_loop (Z.to_nat count) (λ i, wrap32 (i + 1) <? count) 1
    (λ i r,
       v0 ← idx_at idx i base;
       v1 ← idx_at idx (wrap32 (i + 1)) base;
       let pv := if last_provoking then v1 else v0 in
       emit_line_pv r v0 v1 pv)
    0 r.

Definition rewrite_line_loop (r : PrimRewrite) (idx : option (list Z))
    (base count : Z) (last_provoking : bool) : option PrimRewrite :=
  if count <? 2 then Some r
  else
    r ← for_loop (Z.to_nat count) (λ i, wrap32 (i + 1) <? count) 1
           (λ i r,
              v0 ← idx_at idx i base;
              v1 ← idx_at idx (wrap32 (i + 1)) base;
              let pv := if last_provoking then v1 else v0 in
              emit_line_pv r v0 v1 pv)
           0 r;
    v_last ← idx_at idx (wrap32 (count - 1)) base;
    v_first ← idx_at idx 0 base;
    let pv := if last_provoking then v_first else v_last in
    emit_line_pv r v_last v_first pv.

Definition rewrite_triangles (r : PrimRewrite) (idx : option (list Z))
    (base count : Z) (last_provoking : bool) : option PrimRewrite :=
  for_loop (Z.to_nat count) (λ i, wrap32 (i + 2) <? count) 3
    (λ i r,
       v0 ← idx_at idx i base;
       v1 ← idx_at idx (wrap32 (i + 1)) base;
       v2 ← idx_at idx (wrap32 (i + 2)) base;
       let pv := if last_provoking then v2 else v0 in
       emit_tri_pv r v0 v1 v2 pv)
    0 r.

Definition rewrite_triangle_strip (r : PrimRewrite) (idx : option (list Z))
    (base count : Z) (last_provoking : bool) : option PrimRewrite :=
  for_loop (Z.to_nat count) (λ i, wrap32 (i + 2) <? count) 1
    (λ i r,
       v0 ← idx_at idx i base;
       v1 ← idx_at idx (wrap32 (i + 1)) base;
       v2 ← idx_at idx (wrap32 (i + 2)) base;
       let pv := if last_provoking then v2 else v0 in
       if negb (Z.land i 1 =? 0) then emit_tri_pv r v1 v0 v2 pv
       else emit_tri_pv r v0 v1 v2 pv)
    0 r.

Definition rewrite_triangle_fan (r : PrimRewrite) (idx : option (list Z))
    (base count : Z) (last_provoking : bool) : option PrimRewrite :=
  if count <? 3 then Some r
  else
    hub ← idx_at idx 0 base;
    for_loop (Z.to_nat count) (λ i, wrap32 (i + 2) <? count) 1
      (λ i r,
         v1 ← idx_at idx (wrap32 (i + 1)) base;
         v2 ← idx_at idx (wrap32 (i + 2)) base;
         let pv := if last_provoking then v2 else v1 in
         emit_tri_pv r hub v1 v2 pv)
      0 r.

Definition rewrite_quads (r : PrimRewrite) (idx : option (list Z))
    (base count : Z) (flat_shading : bool) : option PrimRewrite :=
  for_loop (Z.to_nat count) (λ i, wrap32 (i + 3) <? count) 4
    (λ i r,
       v0 ← idx_at idx i base;
       v1 ← idx_at idx (wrap32 (i + 1)) base;
       v2 ← idx_at idx (wrap32 (i + 2)) base;
       v3 ← idx_at idx (wrap32 (i + 3)) base;
       if flat_shading then
         r ← emit_tri r v3 v0 v1;
         emit_tri r v3 v1 v2
       else
         r ← emit_tri r v0 v1 v2;
         emit_tri r v0 v2 v3)
    0 r.

Definition rewrite_quads_line (r : PrimRewrite) (idx : option (list Z))
    (base count : Z) : option PrimRewrite :=
  for_loop (Z.to_nat count) (λ i, wrap32 (i + 3) <? count) 4
    (λ i r,
       v0 ← idx_at idx i base;
       v1 ← idx_at idx (wrap32 (i + 1)) base;
       v2 ← idx_at idx (wrap32 (i + 2)) base;
       v3 ← idx_at idx (wrap32 (i + 3)) base;
       r ← emit_line r v0 v1;
       r ← emit_line r v1 v2;
       r ← emit_line r v2 v3;
       emit_line r v3 v0)
    0 r.

Definition rewrite_quad_strip (r : PrimRewrite) (idx : option (list Z))
    (base count : Z) (flat_shading : bool) : option PrimRewrite :=
  if count <? 4 then Some r
  else
    for_loop (Z.to_nat count) (λ i, wrap32 (i + 3) <? count) 2
      (λ i r,
         v0 ← idx_at idx i base;
         v1 ← idx_at idx (wrap32 (i + 1)) base;
         v2 ← idx_at idx (wrap32 (i + 2)) base;
         v3 ← idx_at idx (wrap32 (i + 3)) base;
         if flat_shading then
           r ← emit_tri r v3 v2 v0;
           emit_tri r v3 v0 v1
         else
           r ← emit_tri r v0 v1 v2;
           emit_tri r v2 v1 v3)
      0 r.

Definition rewrite_quad_strip_line (r : PrimRewrite) (idx : option (list Z))
    (base count : Z) : option PrimRewrite :=
  if count <? 4 then Some r
  else
    for_loop (Z.to_nat count) (λ i, wrap32 (i + 3) <? count) 2
      (λ i r,
         v0 ← idx_at idx i base;
         v1 ← idx_at idx (wrap32 (i + 1)) base;
         v2 ← idx_at idx (wrap32 (i + 2)) base;
         v3 ← idx_at idx (wrap32 (i + 3)) base;
         r ← emit_line r v0 v1;
         r ← emit_line r v1 v3;
         r ← emit_line r v3 v2;
         emit_line r v2 v0)
      0 r.

Definition rewrite_polygon (r : PrimRewrite) (idx : option (list Z))
    (base count : Z) : option PrimRewrite :=
  if count <? 3 then Some r
  else
    hub ← idx_at idx 0 base;
    for_loop (Z.to_nat count) (λ i, wrap32 (i + 2) <? count) 1
      (λ i r,
         v1 ← idx_at idx (wrap32 (i + 1)) base;
         v2 ← idx_at idx (wrap32 (i + 2)) base;
         emit_tri r hub v1 v2)
      0 r.

Definition rewrite_polygon_line (r : PrimRewrite) (idx : option (list Z))
    (base count : Z) : option PrimRewrite :=
  if count <? 2 then Some r
  else
    r ← for_loop (Z.to_nat count) (λ i, wrap32 (i + 1) <? count) 1
           (λ i r,
              a ← idx_at idx i base;
              b ← idx_at idx (wrap32 (i + 1)) base;
              emit_line r a b)
           0 r;
    a ← idx_at idx (wrap32 (count - 1)) base;
    b ← idx_at idx 0 base;
    emit_line r a b.

(** The [default:] branch, reached by [PRIM_TYPE_POINTS] only, is
    [assert(!"Unexpected primitive mode")]. *)
Definition rewrite_indices (r : PrimRewrite) (mode : PrimAssemblyState)
    (idx : option (list Z)) (base num_indices : Z) : option PrimRewrite :=
  match primitive_mode mode with
  | PRIM_TYPE_LINES =>
      rewrite_lines r idx base num_indices (last_provoking mode)
  | PRIM_TYPE_LINE_STRIP =>
      rewrite_line_strip r idx base num_indices (last_provoking mode)
  | PRIM_TYPE_LINE_LOOP =>
      rewrite_line_loop r idx base num_indices (last_provoking mode)
  | PRIM_TYPE_TRIANGLES =>
      rewrite_triangles r idx base num_indices (last_provoking mode)
  | PRIM_TYPE_TRIANGLE_STRIP =>
      rewrite_triangle_strip r idx base num_indices (last_provoking mode)
  | PRIM_TYPE_TRIANGLE_FAN =>
      rewrite_triangle_fan r idx base num_indices (last_provoking mode)
  | PRIM_TYPE_QUADS =>
      if decide (polygon_mode mode = POLY_MODE_LINE) then
        rewrite_quads_line r idx base num_indices
      else rewrite_quads r idx base num_indices (flat_shading mode)
  | PRIM_TYPE_QUAD_STRIP =>
      if decide (polygon_mode mode = POLY_MODE_LINE) then
        rewrite_quad_strip_line r idx base num_indices
      else rewrite_quad_strip r idx base num_indices (flat_shading mode)
  | PRIM_TYPE_POLYGON =>
      if decide (polygon_mode mode = POLY_MODE_LINE) then
        rewrite_polygon_line r idx base num_indices
      else rewrite_polygon r idx base num_indices
  | PRIM_TYPE_POINTS => None
  end.

(** [assert(mode.polygon_mode != POLY_MODE_POINT ||
            mode.primitive_mode != PRIM_TYPE_POLYGON)] *)
Definition mode_assertion (mode : PrimAssemblyState) : bool :=
  bool_decide (polygon_mode mode ≠ POLY_MODE_POINT)
  || bool_decide (primitive_mode mode ≠ PRIM_TYPE_POLYGON).

(** The ranges are the two [int32_t] arrays [starts] and [counts], each
    of [num_ranges] elements; an element is converted to [unsigned int]
    where it is passed on. *)
Definition pgraph_prim_rewrite_ranges (buf : PrimRewriteBuf)
    (mode : PrimAssemblyState) (starts counts : list Z) (num_ranges : Z)
    : option (PrimRewriteBuf * PrimRewrite) :=
  let result := {| indices := None; num_indices := 0 |} in
  if negb (mode_assertion mode) then None
  else if negb (needs_rewrite mode) then Some (buf, result)
  else
    total_max_output ←
      for_loop (Z.to_nat num_ranges) (λ r, r <? num_ranges) 1
        (λ r total,
           c ← counts !! Z.to_nat r;
           Some (wrap32 (total + max_output_indices (primitive_mode mode)
                                   (polygon_mode mode) (wrap32 c))))
        0 0;
    if total_max_output =? 0 then Some (buf, result)
    else
      let buf := ensure_capacity buf total_max_output in
      let result := {| indices := data buf; num_indices := 0 |} in
      result ←
        for_loop (Z.to_nat num_ranges) (λ r, r <? num_ranges) 1
          (λ r result,
             c ← counts !! Z.to_nat r;
             if c =? 0 then Some result
             else
               s ← starts !! Z.to_nat r;
               rewrite_indices result mode None (wrap32 s) (wrap32 c))
          0 result;
      Some ({| data := indices result; capacity := capacity buf |}, result).

Definition pgraph_prim_rewrite_indexed (buf : PrimRewriteBuf)
    (mode : PrimAssemblyState) (input_indices : option (list Z))
    (num_input_indices : Z) : option (PrimRewriteBuf * PrimRewrite) :=
  let result := {| indices := None; num_indices := 0 |} in
  if negb (mode_assertion mode) then None
  else if negb (needs_rewrite mode) then Some (buf, result)
  else
    let max_output :=
      max_output_indices (primitive_mode mode) (polygon_mode mode)
        num_input_indices in
    if max_output =? 0 then Some (buf, result)
    else
      let buf := ensure_capacity buf max_output in
      let result := {| indices := data buf; num_indices := 0 |} in
      result ← rewrite_indices result mode input_indices 0 num_input_indices;
      Some ({| data := indices result; capacity := capacity buf |}, result).

Definition pgraph_prim_rewrite_sequential (buf : PrimRewriteBuf)
    (mode : PrimAssemblyState) (start count : Z)
    : option (PrimRewriteBuf * PrimRewrite) :=
  pgraph_prim_rewrite_ranges buf mode [start] [count] 1.

(** The indices a result denotes: the first [num_indices] elements of
    the array it points to. *)
Definition view (r : PrimRewrite) : list Z :=
  match indices r with
  | Some a => take (Z.to_nat (num_indices r)) a
  | None => []
  end.

(** The indices [start .. start + count - 1] of a range, as [uint32_t]. *)
Definition expand (start count : Z) : list Z :=
  (λ i : nat, wrap32 (start + Z.of_nat i)) <$> seq 0 (Z.to_nat count).

End Prim.

(** ** The buffer set ([vk/buffer.c]) *)

Module Buffer.

Import Prim.

(** Modelled from the spec: the macro [ROUND_UP] comes from a header that
    is not part of the sources at hand; it rounds [n] up to the next
    multiple of [d], in the 64-bit arithmetic of its operands. *)
Definition ROUND_UP (n d : Z) : Z := wrap64 ((n + d - 1) / d * d).

(** The roles, in the order of [buffer_names]. *)
Definition BUFFER_STAGING_DST : nat := 0.
Definition BUFFER_STAGING_SRC : nat := 1.
Definition BUFFER_COMPUTE_DST : nat := 2.
Definition BUFFER_COMPUTE_SRC : nat := 3.
Definition BUFFER_INDEX : nat := 4.
Definition BUFFER_INDEX_STAGING : nat := 5.
Definition BUFFER_VERTEX_RAM : nat := 6.
Definition BUFFER_VERTEX_INLINE : nat := 7.
Definition BUFFER_VERTEX_INLINE_STAGING : nat := 8.
Definition BUFFER_UNIFORM : nat := 9.
Definition BUFFER_UNIFORM_STAGING : nat := 10.
Definition BUFFER_COUNT : nat := 11.

(** [host_alloc_create_info] and [device_alloc_create_info]. *)
Inductive AllocInfo :=
  | host_alloc_create_info
  | device_alloc_create_info.

(** The [VkBufferUsageFlagBits] of the Vulkan headers. *)
Definition VK_BUFFER_USAGE_TRANSFER_SRC_BIT : Z := 0x1.
Definition VK_BUFFER_USAGE_TRANSFER_DST_BIT : Z := 0x2.
Definition VK_BUFFER_USAGE_UNIFORM_BUFFER_BIT : Z := 0x10.
Definition VK_BUFFER_USAGE_STORAGE_BUFFER_BIT : Z := 0x20.
Definition VK_BUFFER_USAGE_INDEX_BUFFER_BIT : Z := 0x40.
Definition VK_BUFFER_USAGE_VERTEX_BUFFER_BIT : Z := 0x80.

(** Modelled from the spec: [struct StorageBuffer] is declared in a
    header that is not part of the sources at hand; the fields are the
    ones [buffer.c] reads and writes.  A handle or a pointer is [None]
    when it is [VK_NULL_HANDLE] or [NULL]. *)
Record StorageBuffer := {
  buffer : option nat;
  allocation : option nat;
  alloc_info : AllocInfo;
  usage : Z;
  buffer_offset : Z;
  buffer_size : Z;
  mapped : option nat;
}.

(** A compound literal [(StorageBuffer){ .alloc_info, .usage,
    .buffer_size }]: the other members are zero. *)
Definition new_buffer (info : AllocInfo) (flags size : Z) : StorageBuffer :=
  {| buffer := None; allocation := None; alloc_info := info; usage := flags;
     buffer_offset := 0; buffer_size := size; mapped := None |}.

(** The part of the renderer state [buffer.c] works on. *)
Record PGRAPHVkState := {
  storage_buffers : list StorageBuffer;
  uploaded_bitmap : option nat;
  bitmap_size : Z;
  prim_rewrite_buf : PrimRewriteBuf;
}.

(** What the allocator and the heap hold: the buffers created and not
    yet destroyed, the allocations mapped and not yet unmapped, and the
    bitmaps allocated and not yet freed, with their bits. *)
Record World := {
  live_buffers : gset nat;
  mapped_allocations : gset nat;
  heap : gmap nat (list bool);
  next_handle : nat;
}.

(** Which of the calls that can fail do fail: [vmaCreateBuffer] and
    [vmaMapMemory] for the buffer of a given index, and [bitmap_new]. *)
Record Faults := {
  fail_create : nat → bool;
  fail_map : nat → bool;
  fail_bitmap : bool;
}.

(** The constants of the emulator and the platform the sizes depend on. *)
Record Config := {
  android : bool;
  sizeof_inline_elements : Z;
  NV2A_VERTEXSHADER_ATTRIBUTES : Z;
  NV2A_MAX_BATCH_LENGTH : Z;
}.

(** The calls into the allocator and the heap, at their boundary.  A
    buffer or a bitmap that is created gets a fresh handle; a call that
    fails changes nothing and leaves the handles it was given as they
    were. *)
Definition vmaCreateBuffer (f : Faults) (i : nat) (w : World)
    : option nat * World :=
  if fail_create f i then (None, w)
  else
    let h := next_handle w in
    (Some h,
     {| live_buffers := {[h]} ∪ live_buffers w;
        mapped_allocations := mapped_allocations w;
        heap := heap w; next_handle := S h |}).

Definition vmaDestroyBuffer (buf alloc : option nat) (w : World) : World :=
  match buf with
  | Some h =>
      {| live_buffers := live_buffers w ∖ {[h]};
         mapped_allocations := mapped_allocations w;
         heap := heap w; next_handle := next_handle w |}
  | None => w
  end.

(** The pointer to the mapped region is modelled by the handle of the
    allocation.  Creation maps buffers it has created; a null allocation
    is treated as a failure. *)
Definition vmaMapMemory (f : Faults) (i : nat) (alloc : option nat) (w : World)
    : option nat * World :=
  match alloc with
  | Some h =>
      if fail_map f i then (None, w)
      else
        (Some h,
         {| live_buffers := live_buffers w;
            mapped_allocations := {[h]} ∪ mapped_allocations w;
            heap := heap w; next_handle := next_handle w |})
  | None => (None, w)
  end.

Definition vmaUnmapMemory (alloc : option nat) (w : World) : World :=
  match alloc with
  | Some h =>
      {| live_buffers := live_buffers w;
         mapped_allocations := mapped_allocations w ∖ {[h]};
         heap := heap w; next_handle := next_handle w |}
  | None => w
  end.

(** [bitmap_new] hands out a zeroed bitmap of [nbits] bits, or [NULL]. *)
Definition bitmap_new (f : Faults) (nbits : Z) (w : World) : option nat * World :=
  if fail_bitmap f then (None, w)
  else
    let h := next_handle w in
    (Some h,
     {| live_buffers := live_buffers w;
        mapped_allocations := mapped_allocations w;
        heap := <[h := replicate (Z.to_nat nbits) false]> (heap w);
        next_handle := S h |}).

Definition bitmap_clear (p : option nat) (start nbits : Z) (w : World) : World :=
  match p with
  | Some h =>
      {| live_buffers := live_buffers w;
         mapped_allocations := mapped_allocations w;
         heap :=
           alter (λ bits,
                    take (Z.to_nat start) bits
                    ++ replicate (Z.to_nat nbits) false
                    ++ drop (Z.to_nat (start + nbits)) bits) h (heap w);
         next_handle := next_handle w |}
  | None => w
  end.

Definition g_free (p : option nat) (w : World) : World :=
  match p with
  | Some h =>
      {| live_buffers := live_buffers w;
         mapped_allocations := mapped_allocations w;
         heap := delete h (heap w); next_handle := next_handle w |}
  | None => w
  end.

Definition create_buffer (f : Faults) (i : nat) (b : StorageBuffer) (w : World)
    : bool * StorageBuffer * World :=
  let '(h, w) := vmaCreateBuffer f i w in
  match h with
  | Some h =>
      (true,
       {| buffer := Some h; allocation := Some h; alloc_info := alloc_info b;
          usage := usage b; buffer_offset := buffer_offset b;
          buffer_size := buffer_size b; mapped := mapped b |}, w)
  | None => (false, b, w)
  end.

Definition destroy_buffer (b : StorageBuffer) (w : World) : StorageBuffer * World :=
  match buffer b, allocation b with
  | None, None => (b, w)
  | _, _ =>
      ({| buffer := None; allocation := None; alloc_info := alloc_info b;
          usage := usage b; buffer_offset := buffer_offset b;
          buffer_size := buffer_size b; mapped := mapped b |},
       vmaDestroyBuffer (buffer b) (allocation b) w)
  end.

Definition set_mapped (b : StorageBuffer) (p : option nat) : StorageBuffer :=
  {| buffer := buffer b; allocation := allocation b; alloc_info := alloc_info b;
     usage := usage b; buffer_offset := buffer_offset b;
     buffer_size := buffer_size b; mapped := p |}.

Definition size_at (bufs : list StorageBuffer) (i : nat) : Z :=
  default 0 (buffer_size <$> bufs !! i).

(** [for (i = 0; i < BUFFER_COUNT; i++) if (!create_buffer(...)) goto fail;]
    over the indices [ixs]; the boolean tells whether the loop ran to its
    end.  An index outside the roster does not occur; it would end the
    loop. *)
Fixpoint create_buffers (f : Faults) (ixs : list nat)
    (bufs : list StorageBuffer) (w : World) : bool * list StorageBuffer * World :=
  match ixs with
  | [] => (true, bufs, w)
  | i :: ixs =>
      match bufs !! i with
      | Some b =>
          let '(ok, b, w) := create_buffer f i b w in
          if ok then create_buffers f ixs (<[i := b]> bufs) w
          else (false, <[i := b]> bufs, w)
      | None => (false, bufs, w)
      end
  end.

(** The loop over [buffers_to_map]. *)
Fixpoint map_buffers (f : Faults) (ixs : list nat)
    (bufs : list StorageBuffer) (w : World) : bool * list StorageBuffer * World :=
  match ixs with
  | [] => (true, bufs, w)
  | idx :: ixs =>
      match bufs !! idx with
      | Some b =>
          let '(p, w) := vmaMapMemory f idx (allocation b) w in
          match p with
          | Some p => map_buffers f ixs (<[idx := set_mapped b (Some p)]> bufs) w
          | None => (false, bufs, w)
          end
      | None => (false, bufs, w)
      end
  end.

(** The loop of the [fail:] label and of [pgraph_vk_finalize_buffers]:
    unmap what is mapped, then destroy.  [clear] tells whether [mapped]
    is reset to [NULL], which only the [fail:] path does. *)
Fixpoint release_buffers (clear : bool) (ixs : list nat)
    (bufs : list StorageBuffer) (w : World) : list StorageBuffer * World :=
  match ixs with
  | [] => (bufs, w)
  | i :: ixs =>
      match bufs !! i with
      | Some b =>
          let '(b, w) :=
            match mapped b with
            | Some _ =>
                (if clear then set_mapped b None else b,
                 vmaUnmapMemory (allocation b) w)
            | None => (b, w)
            end in
          let '(b, w) := destroy_buffer b w in
          release_buffers clear ixs (<[i := b]> bufs) w
      | None => (bufs, w)
      end
  end.

Definition buffers_to_map : list nat :=
  [BUFFER_VERTEX_RAM; BUFFER_INDEX_STAGING; BUFFER_VERTEX_INLINE_STAGING;
   BUFFER_UNIFORM_STAGING].

Definition pgraph_vk_init_buffers (cfg : Config) (f : Faults) (vram : Z)
    (r : PGRAPHVkState) (w : World) : bool * PGRAPHVkState * World :=
  let mib := 1024 * 1024 in
  let vram_size := vram in
  let staging_size := vram_size in
  let staging_size := if staging_size <? 16 * mib then 16 * mib else staging_size in
  let compute_size := wrap64 (vram_size * 2) in
  let compute_size := if compute_size <? 64 * mib then 64 * mib else compute_size in
  let compute_size :=
    if android cfg then
      if 64 * mib <? compute_size then 64 * mib else compute_size
    else
      if 256 * mib <? compute_size then 256 * mib else compute_size in
  let bufs := storage_buffers r in
  let bufs :=
    <[BUFFER_STAGING_DST :=
        new_buffer host_alloc_create_info VK_BUFFER_USAGE_TRANSFER_DST_BIT
          staging_size]> bufs in
  let bufs :=
    <[BUFFER_STAGING_SRC :=
        new_buffer host_alloc_create_info VK_BUFFER_USAGE_TRANSFER_SRC_BIT
          (size_at bufs BUFFER_STAGING_DST)]> bufs in
  let bufs :=
    <[BUFFER_COMPUTE_DST :=
        new_buffer device_alloc_create_info
          (Z.lor VK_BUFFER_USAGE_TRANSFER_DST_BIT
             VK_BUFFER_USAGE_STORAGE_BUFFER_BIT)
          compute_size]> bufs in
  let bufs :=
    <[BUFFER_COMPUTE_SRC :=
        new_buffer device_alloc_create_info
          (Z.lor VK_BUFFER_USAGE_TRANSFER_SRC_BIT
             VK_BUFFER_USAGE_STORAGE_BUFFER_BIT)
          (size_at bufs BUFFER_COMPUTE_DST)]> bufs in
  let bufs :=
    <[BUFFER_INDEX :=
        new_buffer device_alloc_create_info
          (Z.lor VK_BUFFER_USAGE_TRANSFER_DST_BIT
             VK_BUFFER_USAGE_INDEX_BUFFER_BIT)
          (wrap64 (sizeof_inline_elements cfg * 100))]> bufs in
  let bufs :=
    <[BUFFER_INDEX_STAGING :=
        new_buffer host_alloc_create_info VK_BUFFER_USAGE_TRANSFER_SRC_BIT
          (size_at bufs BUFFER_INDEX)]> bufs in
  let bufs :=
    <[BUFFER_VERTEX_RAM :=
        new_buffer host_alloc_create_info VK_BUFFER_USAGE_VERTEX_BUFFER_BIT
          vram]> bufs in
  let bitmap_size' := vram / 4096 in
  let '(bitmap, w) := bitmap_new f bitmap_size' w in
  match bitmap with
  | None =>
      (false,
       {| storage_buffers := bufs; uploaded_bitmap := None;
          bitmap_size := bitmap_size';
          prim_rewrite_buf := prim_rewrite_buf r |}, w)
  | Some _ =>
      let w := bitmap_clear bitmap 0 bitmap_size' w in
      let bufs :=
        <[BUFFER_VERTEX_INLINE :=
            new_buffer device_alloc_create_info
              (Z.lor VK_BUFFER_USAGE_TRANSFER_DST_BIT
                 VK_BUFFER_USAGE_VERTEX_BUFFER_BIT)
              (wrap64 (NV2A_VERTEXSHADER_ATTRIBUTES cfg
                       * NV2A_MAX_BATCH_LENGTH cfg * 4 * 4 * 10))]> bufs in
      let bufs :=
        <[BUFFER_VERTEX_INLINE_STAGING :=
            new_buffer host_alloc_create_info VK_BUFFER_USAGE_TRANSFER_SRC_BIT
              (size_at bufs BUFFER_VERTEX_INLINE)]> bufs in
      let bufs :=
        <[BUFFER_UNIFORM :=
            new_buffer device_alloc_create_info
              (Z.lor VK_BUFFER_USAGE_TRANSFER_DST_BIT
                 VK_BUFFER_USAGE_UNIFORM_BUFFER_BIT)
              (8 * 1024 * 1024)]> bufs in
      let bufs :=
        <[BUFFER_UNIFORM_STAGING :=
            new_buffer host_alloc_create_info VK_BUFFER_USAGE_TRANSFER_SRC_BIT
              (size_at bufs BUFFER_UNIFORM)]> bufs in
      let '(ok, bufs, w) := create_buffers f (seq 0 BUFFER_COUNT) bufs w in
      let '(ok, bufs, w) :=
        if ok then map_buffers f buffers_to_map bufs w else (false, bufs, w) in
      if ok then
        (true,
         {| storage_buffers := bufs; uploaded_bitmap := bitmap;
            bitmap_size := bitmap_size';
            prim_rewrite_buf := pgraph_prim_rewrite_init (prim_rewrite_buf r) |},
         w)
      else
        let '(bufs, w) := release_buffers true (seq 0 BUFFER_COUNT) bufs w in
        let w := g_free bitmap w in
        (false,
         {| storage_buffers := bufs; uploaded_bitmap := None; bitmap_size := 0;
            prim_rewrite_buf := prim_rewrite_buf r |}, w)
  end.

Definition pgraph_vk_finalize_buffers (r : PGRAPHVkState) (w : World)
    : PGRAPHVkState * World :=
  let '(bufs, w) :=
    release_buffers false (seq 0 BUFFER_COUNT) (storage_buffers r) w in
  let w := g_free (uploaded_bitmap r) w in
  ({| storage_buffers := bufs; uploaded_bitmap := None;
      bitmap_size := bitmap_size r;
      prim_rewrite_buf := pgraph_prim_rewrite_finalize (prim_rewrite_buf r) |}, w).

(** [ROUND_UP(b->buffer_offset, alignment) + size <= b->buffer_size] *)
Definition buffer_has_space_for (b : StorageBuffer) (size alignment : Z) : bool :=
  wrap64 (ROUND_UP (buffer_offset b) alignment + size) <=? buffer_size b.

Definition pgraph_vk_buffer_has_space_for (r : PGRAPHVkState) (index : nat)
    (size alignment : Z) : option bool :=
  b ← storage_buffers r !! index;
  Some (buffer_has_space_for b size alignment).

(** [memcpy(b->mapped + off, src, n)]: the bytes stored, each with its
    offset from the start of the mapped region. *)
Definition memcpy (off : Z) (src : list byte) : list (Z * byte) :=
  imap (λ k x, (off + Z.of_nat k, x)) src.

Definition set_offset (b : StorageBuffer) (off : Z) : StorageBuffer :=
  {| buffer := buffer b; allocation := allocation b; alloc_info := alloc_info b;
     usage := usage b; buffer_offset := off; buffer_size := buffer_size b;
     mapped := mapped b |}.

(** The copy loop of [pgraph_vk_append_to_buffer]: the buffer and the
    bytes stored so far are threaded through the chunks. *)
Fixpoint append_chunks (b : StorageBuffer) (stored : list (Z * byte))
    (data : list (list byte)) (alignment : Z)
    : StorageBuffer * list (Z * byte) :=
  match data with
  | [] => (b, stored)
  | d :: data =>
      let b := set_offset b (ROUND_UP (buffer_offset b) alignment) in
      let stored := stored ++ memcpy (buffer_offset b) d in
      let b := set_offset b (wrap64 (buffer_offset b + Z.of_nat (length d))) in
      append_chunks b stored data alignment
  end.

(** A chunk is the list of the [sizes[i]] bytes at [data[i]]; [count] is
    the number of chunks.  The result is the starting offset, the buffer
    with its new bump offset, and the bytes stored into the mapped
    region. *)
Definition append_to_buffer (b : StorageBuffer) (data : list (list byte))
    (alignment : Z) : option (Z * StorageBuffer * list (Z * byte)) :=
  let total_size :=
    foldl (λ total d, wrap64 (total + Z.of_nat (length d))) 0 data in
  if negb (buffer_has_space_for b total_size alignment) then None
  else
    let starting_offset := ROUND_UP (buffer_offset b) alignment in
    match mapped b with
    | None => None
    | Some _ =>
        let '(b, stored) := append_chunks b [] data alignment in
        Some (starting_offset, b, stored)
    end.

Definition pgraph_vk_append_to_buffer (r : PGRAPHVkState) (index : nat)
    (data : list (list byte)) (alignment : Z)
    : option (Z * PGRAPHVkState * list (Z * byte)) :=
  b ← storage_buffers r !! index;
  '(starting_offset, b, stored) ← append_to_buffer b data alignment;
  Some (starting_offset,
        {| storage_buffers := <[index := b]> (storage_buffers r);
           uploaded_bitmap := uploaded_bitmap r;
           bitmap_size := bitmap_size r;
           prim_rewrite_buf := prim_rewrite_buf r |},
        stored).

End Buffer.

Import Prim.
Import Buffer.

(** * Definitions the statements are written with *)

(** [splice a n E]: the array [a] with the elements of [E] stored from
    position [n] on. *)
Definition splice (a : list Z) (n : nat) (E : list Z) : list Z :=
  take n a ++ E ++ drop (n + length E) a.

(** [writes c E]: run on an array with room for [E] after the current
    position, the command [c] stores exactly [E] there, advances
    [num_indices] by its length and touches nothing else. *)
Definition writes (c : PrimRewrite → option PrimRewrite) (E : list Z) : Prop :=
  ∀ (a : list Z) (n : nat),
    (n + length E ≤ length a)%nat → Z.of_nat (length a) < 2 ^ 32 →
    c {| indices := Some a; num_indices := Z.of_nat n |} =
    Some {| indices := Some (splice a n E);
            num_indices := Z.of_nat (n + length E) |}.

(** [writes_n c k]: [c] stores exactly [k] indices. *)
Definition writes_n (c : PrimRewrite → option PrimRewrite) (k : nat) : Prop :=
  ∃ E, length E = k ∧ writes c E.

(** The number of iterations of
    [for (i = i0; i + a < count; i += s)] that are left at [i]. *)
Definition iters (count a s i : Z) : Z :=
  if i + a <? count then (count - a - i - 1) / s + 1 else 0.

(** The input array, when there is one, holds at least [count] indices. *)
Definition idx_ok (idx : option (list Z)) (count : Z) : Prop :=
  match idx with
  | Some l => count ≤ Z.of_nat (length l)
  | None => True
  end.

(** The number of indices each decomposition emits for [count] input
    indices, without any wrap-around. *)
Definition emitted_count (mode : ShaderPrimitiveMode)
    (polygon_mode : ShaderPolygonMode) (count : Z) : Z :=
  match mode with
  | PRIM_TYPE_POINTS => 0
  | PRIM_TYPE_LINES => 2 * (count / 2)
  | PRIM_TYPE_LINE_STRIP => if 2 <=? count then 2 * (count - 1) else 0
  | PRIM_TYPE_LINE_LOOP => if 2 <=? count then 2 * count else 0
  | PRIM_TYPE_TRIANGLES => 3 * (count / 3)
  | PRIM_TYPE_TRIANGLE_STRIP | PRIM_TYPE_TRIANGLE_FAN =>
      if 3 <=? count then 3 * (count - 2) else 0
  | PRIM_TYPE_POLYGON =>
      if decide (polygon_mode = POLY_MODE_LINE) then
        if 2 <=? count then 2 * count else 0
      else if 3 <=? count then 3 * (count - 2) else 0
  | PRIM_TYPE_QUADS =>
      if decide (polygon_mode = POLY_MODE_LINE) then 8 * (count / 4)
      else 6 * (count / 4)
  | PRIM_TYPE_QUAD_STRIP =>
      if decide (polygon_mode = POLY_MODE_LINE) then
        if 4 <=? count then 8 * ((count - 2) / 2) else 0
      else if 4 <=? count then 6 * ((count - 2) / 2) else 0
  end.

(** The indices a decomposition emits, obtained by running it on a
    fresh array of exactly the size it needs. *)
Definition emitted (mode : PrimAssemblyState) (idx : option (list Z))
    (base count : Z) : list Z :=
  default []
    (view <$>
       rewrite_indices
         {| indices :=
              Some (replicate
                      (Z.to_nat (emitted_count (primitive_mode mode)
                                   (polygon_mode mode) count)) 0);
            num_indices := 0 |}
         mode idx base count).

(** The scratch buffer is well formed: a capacity in range, and an array
    of that many elements unless the capacity is zero. *)
Definition buf_wf (buf : PrimRewriteBuf) : Prop :=
  0 ≤ capacity buf < 2 ^ 32 ∧
  match data buf with
  | Some a => Z.of_nat (length a) = capacity buf
  | None => capacity buf = 0
  end.

(** The index sequence an entry point hands back, if it returns. *)
Definition output (res : option (PrimRewriteBuf * PrimRewrite)) : option (list Z) :=
  (λ p, view p.2) <$> res.

Definition range_emitted (mode : PrimAssemblyState) (rg : Z * Z) : list Z :=
  emitted mode None (wrap32 rg.1) (wrap32 rg.2).

Definition ranges_emitted (mode : PrimAssemblyState) (ranges : list (Z * Z))
    : list Z :=
  concat (map (range_emitted mode) ranges).

Definition total_max (mode : PrimAssemblyState) (ranges : list (Z * Z)) : Z :=
  foldr (λ rg acc,
           max_output_indices (primitive_mode mode) (polygon_mode mode)
             (wrap32 rg.2) + acc) 0 ranges.

Definition total_count (ranges : list (Z * Z)) : Z :=
  foldr (λ rg acc, rg.2 + acc) 0 ranges.

(** Ranges the decoder can pass: no negative count, fewer than [2^30]
    indices in all, and a number of ranges that fits [unsigned int]. *)
Definition ranges_ok (ranges : list (Z * Z)) : Prop :=
  Forall (λ rg, 0 ≤ rg.2) ranges ∧ total_count ranges < 2 ^ 30 ∧
  Z.of_nat (length ranges) < 2 ^ 32.

(** The empty result: a null pointer and no index. *)
Definition empty_result : PrimRewrite := {| indices := None; num_indices := 0 |}.

(** A state with the given topology, fill mode and flags. *)
Definition state (t : ShaderPrimitiveMode) (pm : ShaderPolygonMode)
    (lp fs : bool) : PrimAssemblyState :=
  {| primitive_mode := t; polygon_mode := pm;
     last_provoking := lp; flat_shading := fs |}.

(** The scratch buffer as [pgraph_prim_rewrite_init] leaves it. *)
Definition fresh_buf : PrimRewriteBuf := {| data := None; capacity := 0 |}.

(** Nothing is held: no buffer, no mapping, no bitmap. *)
Definition world_clean (w : World) : Prop :=
  live_buffers w = ∅ ∧ mapped_allocations w = ∅ ∧ heap w = ∅.

(** Whether one of the calls creation makes is set to fail. *)
Definition creation_fails (f : Faults) : bool :=
  fail_bitmap f || existsb (fail_create f) (seq 0 BUFFER_COUNT)
  || existsb (fail_map f) buffers_to_map.

(** Every buffer and every mapping the allocator holds is recorded in
    the roster. *)
Definition covered (bufs : list StorageBuffer) (w : World) : Prop :=
  (∀ h, h ∈ live_buffers w → ∃ j b, bufs !! j = Some b ∧ buffer b = Some h) ∧
  (∀ h, h ∈ mapped_allocations w →
        ∃ j b, bufs !! j = Some b ∧ mapped b ≠ None ∧ allocation b = Some h).

(** The two handles of a buffer are set together. *)
Definition paired (b : StorageBuffer) : Prop := buffer b = allocation b.

(** A roster entry without handles. *)
Definition unset (b : StorageBuffer) : Prop :=
  buffer b = None ∧ allocation b = None.

(** The sum of the chunk sizes, without wrap-around. *)
Definition total_size (data : list (list byte)) : Z :=
  foldr (λ d acc, Z.of_nat (length d) + acc) 0 data.

(** Every chunk but the last has a size that is a multiple of the
    alignment. *)
Definition inner_sizes_aligned (data : list (list byte)) (a : Z) : Prop :=
  Forall (λ d, Z.of_nat (length d) mod a = 0) (removelast data).

(** A buffer of the given size and bump offset, created and mapped. *)
Definition mapped_buffer (size offset : Z) : StorageBuffer :=
  {| buffer := Some 0%nat; allocation := Some 0%nat;
     alloc_info := host_alloc_create_info;
     usage := VK_BUFFER_USAGE_TRANSFER_SRC_BIT;
     buffer_offset := offset; buffer_size := size; mapped := Some 0%nat |}.

(** The state [r] with the buffer [b] at [index]. *)
Definition with_buffer (r : PGRAPHVkState) (index : nat) (b : StorageBuffer)
    : PGRAPHVkState :=
  {| storage_buffers := <[index := b]> (storage_buffers r);
     uploaded_bitmap := uploaded_bitmap r; bitmap_size := bitmap_size r;
     prim_rewrite_buf := prim_rewrite_buf r |}.

(** A roster of unset buffers, a state before creation, and a world that
    holds nothing. *)
Definition blank_state : PGRAPHVkState :=
  {| storage_buffers :=
       replicate BUFFER_COUNT (new_buffer host_alloc_create_info 0 0);
     uploaded_bitmap := None; bitmap_size := 0;
     prim_rewrite_buf := {| Prim.data := None; Prim.capacity := 0 |} |}.

Definition empty_world : World :=
  {| live_buffers := ∅; mapped_allocations := ∅; heap := ∅; next_handle := 0 |}.

(** ** Definitions for the further properties of the buffer set *)

(** Two states of a roster entry with the same creation parameters and
    the same bump offset. *)
Definition same_layout (b b' : StorageBuffer) : Prop :=
  alloc_info b' = alloc_info b ∧ usage b' = usage b ∧
  buffer_offset b' = buffer_offset b ∧ buffer_size b' = buffer_size b.

(** No call that creation makes fails. *)
Definition no_faults : Faults :=
  {| fail_create := λ _, false; fail_map := λ _, false; fail_bitmap := false |}.

(** The sizes creation gives the buffers: the two staging buffers hold
    the video memory and at least 16 MiB, the two compute buffers twice
    the video memory within 64 MiB and the platform's limit, and every
    staging buffer has the size of the buffer it feeds. *)
Definition size_policy (cfg : Config) (vram : Z) (bufs : list StorageBuffer)
    : Prop :=
  let mib := 1024 * 1024 in
  let limit := if android cfg then 64 * mib else 256 * mib in
  size_at bufs BUFFER_STAGING_DST = Z.max vram (16 * mib) ∧
  size_at bufs BUFFER_STAGING_SRC = size_at bufs BUFFER_STAGING_DST ∧
  64 * mib ≤ size_at bufs BUFFER_COMPUTE_DST ≤ limit ∧
  (0 ≤ vram < 2 ^ 63 →
   size_at bufs BUFFER_COMPUTE_DST = Z.min limit (Z.max (2 * vram) (64 * mib))) ∧
  size_at bufs BUFFER_COMPUTE_SRC = size_at bufs BUFFER_COMPUTE_DST ∧
  size_at bufs BUFFER_INDEX_STAGING = size_at bufs BUFFER_INDEX ∧
  size_at bufs BUFFER_VERTEX_RAM = vram ∧
  size_at bufs BUFFER_VERTEX_INLINE_STAGING = size_at bufs BUFFER_VERTEX_INLINE ∧
  size_at bufs BUFFER_UNIFORM = 8 * mib ∧
  size_at bufs BUFFER_UNIFORM_STAGING = size_at bufs BUFFER_UNIFORM.

(** ** Definitions for the structure of the output *)

(** [writes_sat c k P]: the command [c] stores exactly [k] indices, and
    the indices stored satisfy [P]. *)
Definition writes_sat (c : PrimRewrite → option PrimRewrite) (k : nat)
    (P : list Z → Prop) : Prop :=
  ∃ E, length E = k ∧ P E ∧ writes c E.

(** The values of [i] at which the body of
    [for (i = i0; i + a < count; i += s)] runs. *)
Definition loop_positions (count a s i0 : Z) : list Z :=
  (λ k : nat, i0 + s * Z.of_nat k) <$> seq 0 (Z.to_nat (iters count a s i0)).

(** [grouped k P js E]: the indices [E] are one group of [k] indices for
    each position of [js], in order, and the group of position [j]
    satisfies [P j]. *)
Definition grouped (k : nat) (P : Z → list Z → Prop) (js : list Z)
    (E : list Z) : Prop :=
  ∃ Gs, E = concat Gs ∧ Forall2 (λ j g, length g = k ∧ P j g) js Gs.

(** [v] is one of the first [count] input indices. *)
Definition input_value (idx : option (list Z)) (base count : Z) (v : Z) : Prop :=
  ∃ j, 0 ≤ j < count ∧ idx_at idx j base = Some v.

(** The input index at position [k]; 0 stands in behind the end. *)
Definition corner (input : list Z) (k : nat) : Z := default 0 (input !! k).

(** The number of vertices of a primitive of an output topology. *)
Definition vertices_per_primitive (t : ShaderPrimitiveMode) : Z :=
  match t with
  | PRIM_TYPE_LINES => 2
  | PRIM_TYPE_TRIANGLES => 3
  | _ => 1
  end.

(** The line topologies, their number of segments for [n] input indices
    and the end points of segment [k]. *)
Definition line_topology (t : ShaderPrimitiveMode) : bool :=
  match t with
  | PRIM_TYPE_LINES | PRIM_TYPE_LINE_STRIP | PRIM_TYPE_LINE_LOOP => true
  | _ => false
  end.

Definition segment_count (t : ShaderPrimitiveMode) (n : nat) : nat :=
  match t with
  | PRIM_TYPE_LINES => (n / 2)%nat
  | PRIM_TYPE_LINE_STRIP => (n - 1)%nat
  | PRIM_TYPE_LINE_LOOP => if decide (2 ≤ n)%nat then n else 0%nat
  | _ => 0%nat
  end.

Definition input_segment (t : ShaderPrimitiveMode) (input : list Z) (k : nat)
    : Z * Z :=
  match t with
  | PRIM_TYPE_LINES => (corner input (2 * k)%nat, corner input (2 * k + 1)%nat)
  | PRIM_TYPE_LINE_LOOP =>
      (corner input k, corner input ((k + 1) mod length input)%nat)
  | _ => (corner input k, corner input (k + 1)%nat)
  end.

(** The triangle topologies, their number of triangles for [n] input
    indices and the corners of triangle [k], in the winding order of the
    topology: every second triangle of a strip has its first two corners
    exchanged. *)
Definition triangle_topology (t : ShaderPrimitiveMode) : bool :=
  match t with
  | PRIM_TYPE_TRIANGLES | PRIM_TYPE_TRIANGLE_STRIP | PRIM_TYPE_TRIANGLE_FAN =>
      true
  | _ => false
  end.

Definition triangle_count (t : ShaderPrimitiveMode) (n : nat) : nat :=
  match t with
  | PRIM_TYPE_TRIANGLES => (n / 3)%nat
  | PRIM_TYPE_TRIANGLE_STRIP | PRIM_TYPE_TRIANGLE_FAN => (n - 2)%nat
  | _ => 0%nat
  end.

Definition input_triangle (t : ShaderPrimitiveMode) (input : list Z) (k : nat)
    : Z * Z * Z :=
  match t with
  | PRIM_TYPE_TRIANGLES =>
      (corner input (3 * k)%nat, corner input (3 * k + 1)%nat,
       corner input (3 * k + 2)%nat)
  | PRIM_TYPE_TRIANGLE_FAN =>
      (corner input 0%nat, corner input (k + 1)%nat, corner input (k + 2)%nat)
  | _ =>
      if Nat.even k then
        (corner input k, corner input (k + 1)%nat, corner input (k + 2)%nat)
      else (corner input (k + 1)%nat, corner input k, corner input (k + 2)%nat)
  end.

(** The provoking vertex of triangle [k]: its last input index with
    [last_provoking], and otherwise its first one, which for a fan is
    the index after the hub. *)
Definition provoking_vertex (t : ShaderPrimitiveMode) (last_provoking : bool)
    (input : list Z) (k : nat) : Z :=
  match t with
  | PRIM_TYPE_TRIANGLES =>
      corner input (if last_provoking then 3 * k + 2 else 3 * k)%nat
  | PRIM_TYPE_TRIANGLE_FAN =>
      corner input (if last_provoking then k + 2 else k + 1)%nat
  | _ => corner input (if last_provoking then k + 2 else k)%nat
  end.

(** The quad topologies, their number of quads for [n] input indices and
    the four input indices of quad [k], in input order: a quad of a strip
    shares its last two indices with the next one. *)
Definition quad_topology (t : ShaderPrimitiveMode) : bool :=
  match t with
  | PRIM_TYPE_QUADS | PRIM_TYPE_QUAD_STRIP => true
  | _ => false
  end.

Definition quad_count (t : ShaderPrimitiveMode) (n : nat) : nat :=
  match t with
  | PRIM_TYPE_QUADS => (n / 4)%nat
  | PRIM_TYPE_QUAD_STRIP => ((n - 2) / 2)%nat
  | _ => 0%nat
  end.

Definition quad_corners (t : ShaderPrimitiveMode) (input : list Z) (k : nat)
    : Z * Z * Z * Z :=
  let i := match t with PRIM_TYPE_QUADS => (4 * k)%nat | _ => (2 * k)%nat end in
  (corner input i, corner input (i + 1)%nat, corner input (i + 2)%nat,
   corner input (i + 3)%nat).

(** The two triangles of a quad: with flat shading both start with the
    last index of the quad. *)
Definition quad_triangles (t : ShaderPrimitiveMode) (flat_shading : bool)
    (q : Z * Z * Z * Z) : list Z :=
  let '(v0, v1, v2, v3) := q in
  match t, flat_shading with
  | PRIM_TYPE_QUADS, false => [v0; v1; v2; v0; v2; v3]
  | PRIM_TYPE_QUADS, true => [v3; v0; v1; v3; v1; v2]
  | _, false => [v0; v1; v2; v2; v1; v3]
  | _, true => [v3; v2; v0; v3; v0; v1]
  end.

(** The four segments of the outline of a quad, a closed path. *)
Definition quad_outline (t : ShaderPrimitiveMode) (q : Z * Z * Z * Z) : list Z :=
  let '(v0, v1, v2, v3) := q in
  match t with
  | PRIM_TYPE_QUADS => [v0; v1; v1; v2; v2; v3; v3; v0]
  | _ => [v0; v1; v1; v3; v3; v2; v2; v0]
  end.

(** A segment as it is emitted: its provoking end point first. *)
Definition emitted_segment (last_provoking : bool) (ab : Z * Z) : list Z :=
  if last_provoking then [ab.2; ab.1] else [ab.1; ab.2].

(** [g] is the triangle [tr] from one of its corners on, in the same
    winding order. *)
Definition rotation_of (g : list Z) (tr : Z * Z * Z) : Prop :=
  g = [tr.1.1; tr.1.2; tr.2] ∨ g = [tr.1.2; tr.2; tr.1.1] ∨
  g = [tr.2; tr.1.1; tr.1.2].

(** ** Reasoning about the emitters *)

Section emitters.

Lemma splice_app (A B C E : list Z) :
  length B = length E → splice (A ++ B ++ C) (length A) E = A ++ E ++ C.
Proof.
  intros HB. unfold splice.
  rewrite take_app_length. do 2 f_equal.
  rewrite <- drop_drop, drop_app_length.
  by rewrite <- HB, drop_app_length.
Qed.

Lemma splice_length a n E :
  (n + length E ≤ length a)%nat → length (splice a n E) = length a.
Proof.
  intros H. unfold splice.
  rewrite !length_app, length_take, length_drop. lia.
Qed.

Lemma splice_nil a n : splice a n [] = a.
Proof. unfold splice. simpl. rewrite Nat.add_0_r. apply take_drop. Qed.

Lemma splice_splice a n E1 E2 :
  (n + length E1 + length E2 ≤ length a)%nat →
  splice (splice a n E1) (n + length E1) E2 = splice a n (E1 ++ E2).
Proof.
  intros H.
  pose (A := take n a). pose (B1 := take (length E1) (drop n a)).
  pose (B2 := take (length E2) (drop (length E1) (drop n a))).
  pose (C := drop (length E2) (drop (length E1) (drop n a))).
  assert (HA : length A = n) by (subst A; rewrite length_take; lia).
  assert (HB1 : length B1 = length E1)
    by (subst B1; rewrite length_take, length_drop; lia).
  assert (HB2 : length B2 = length E2)
    by (subst B2; rewrite length_take, !length_drop; lia).
  assert (Ha : a = A ++ B1 ++ B2 ++ C)
    by (subst A B1 B2 C; by rewrite !take_drop).
  clearbody A B1 B2 C. subst a n.
  rewrite (splice_app A B1 (B2 ++ C) E1) by done.
  rewrite (app_assoc B1 B2 C).
  rewrite (splice_app A (B1 ++ B2) C (E1 ++ E2))
    by (rewrite !length_app; lia).
  replace (length A + length E1)%nat with (length (A ++ E1))
    by (rewrite length_app; lia).
  rewrite (app_assoc A E1 (B2 ++ C)).
  rewrite (splice_app (A ++ E1) B2 C E2) by done.
  by rewrite <- !app_assoc.
Qed.

Lemma take_splice a n E :
  (n + length E ≤ length a)%nat →
  take (n + length E) (splice a n E) = take n a ++ E.
Proof.
  intros H. unfold splice. rewrite app_assoc.
  rewrite take_app_length'; [done|].
  rewrite length_app, length_take. lia.
Qed.

Lemma drop_splice a n E :
  (n + length E ≤ length a)%nat →
  drop (n + length E) (splice a n E) = drop (n + length E) a.
Proof.
  intros H. unfold splice. rewrite app_assoc.
  rewrite drop_app_length'; [done|].
  rewrite length_app, length_take. lia.
Qed.

Lemma wrap32_small x : 0 ≤ x < 2 ^ 32 → wrap32 x = x.
Proof. intros H. unfold wrap32. by apply Z.mod_small. Qed.

Lemma writes_emit_vertex v : writes (λ r, emit_vertex r v) [v].
Proof.
  intros a n Hn Ha. unfold emit_vertex. simpl in *.
  rewrite bool_decide_eq_true_2 by lia.
  rewrite Nat2Z.id, wrap32_small by lia.
  f_equal. f_equal; [|f_equal; lia].
  f_equal. unfold splice. simpl.
  rewrite insert_take_drop by lia. do 3 f_equal. lia.
Qed.

Lemma writes_ret : writes Some [].
Proof.
  intros a n Hn Ha. simpl. rewrite splice_nil. do 2 f_equal. lia.
Qed.

Lemma writes_bind c1 c2 E1 E2 :
  writes c1 E1 → writes c2 E2 → writes (λ r, r' ← c1 r; c2 r') (E1 ++ E2).
Proof.
  intros H1 H2 a n Hn Ha. rewrite length_app in Hn.
  rewrite H1 by lia. simpl.
  rewrite H2 by (rewrite ?splice_length; lia).
  rewrite splice_splice by lia.
  do 2 f_equal. rewrite length_app. lia.
Qed.

Lemma writes_ext c1 c2 E : (∀ r, c1 r = c2 r) → writes c1 E → writes c2 E.
Proof. intros Heq H a n Hn Ha. rewrite <- Heq. by apply H. Qed.

Lemma wn_emit_vertex v : writes_n (λ r, emit_vertex r v) 1.
Proof. exists [v]. split; [done|apply writes_emit_vertex]. Qed.

Lemma wn_ret : writes_n Some 0.
Proof. exists []. split; [done|apply writes_ret]. Qed.

Lemma wn_bind c1 c2 k1 k2 :
  writes_n c1 k1 → writes_n c2 k2 → writes_n (λ r, r' ← c1 r; c2 r') (k1 + k2).
Proof.
  intros (E1 & <- & H1) (E2 & <- & H2). exists (E1 ++ E2).
  split; [by rewrite length_app|by apply writes_bind].
Qed.

Lemma wn_emit_line a b : writes_n (λ r, emit_line r a b) 2.
Proof. apply (wn_bind _ _ 1 1); apply wn_emit_vertex. Qed.

Lemma wn_emit_line_pv a b p : writes_n (λ r, emit_line_pv r a b p) 2.
Proof. unfold emit_line_pv. destruct (p =? a); apply wn_emit_line. Qed.

Lemma wn_emit_tri a b c : writes_n (λ r, emit_tri r a b c) 3.
Proof.
  apply (wn_bind _ _ 1 2); [apply wn_emit_vertex|].
  apply (wn_bind _ _ 1 1); apply wn_emit_vertex.
Qed.

Lemma wn_emit_tri_pv a b c p : writes_n (λ r, emit_tri_pv r a b c p) 3.
Proof.
  unfold emit_tri_pv. destruct (p =? a); [|destruct (p =? b)]; apply wn_emit_tri.
Qed.

Lemma writes_n_ext c1 c2 k : (∀ r, c1 r = c2 r) → writes_n c1 k → writes_n c2 k.
Proof. intros Heq (E & HE & H). exists E. split; [done|by eapply writes_ext]. Qed.

Lemma iters_step count a s i :
  0 < s → i + a < count → iters count a s i = 1 + iters count a s (i + s).
Proof.
  intros Hs Hi. unfold iters.
  rewrite (proj2 (Z.ltb_lt _ _) Hi).
  destruct (Z.ltb_spec (i + s + a) count) as [Hlt|Hge].
  - replace (count - a - i - 1) with ((count - a - (i + s) - 1) + 1 * s) by lia.
    rewrite Z.div_add by lia. lia.
  - rewrite Z.div_small by lia. lia.
Qed.

Lemma iters_nonneg count a s i : 0 < s → 0 ≤ iters count a s i.
Proof.
  intros Hs. unfold iters. destruct (Z.ltb_spec (i + a) count); [|lia].
  assert (0 ≤ (count - a - i - 1) / s) by (apply Z.div_pos; lia). lia.
Qed.

Lemma wn_for_loop (count a s : Z) (k : nat) body :
  0 ≤ a → 0 < s → count + a + s ≤ 2 ^ 32 →
  (∀ i, 0 ≤ i → i + a < count → writes_n (body i) k) →
  ∀ fuel i, 0 ≤ i < count + s → count - i ≤ Z.of_nat fuel →
    writes_n (for_loop fuel (λ i, wrap32 (i + a) <? count) s body i)
             (k * Z.to_nat (iters count a s i)).
Proof.
  intros Ha Hs Hc Hbody fuel.
  induction fuel as [|fuel IH]; intros i Hi Hfuel.
  - assert (Hcond : (wrap32 (i + a) <? count) = false).
    { rewrite wrap32_small by lia. apply Z.ltb_ge. lia. }
    apply (writes_n_ext Some); [intros r; simpl; by rewrite Hcond|].
    unfold iters. rewrite wrap32_small in Hcond by lia. rewrite Hcond.
    rewrite Nat.mul_0_r. apply wn_ret.
  - destruct (Z.ltb_spec (i + a) count) as [Hlt|Hge].
    + apply (writes_n_ext
               (λ r, r' ← body i r;
                     for_loop fuel (λ i, wrap32 (i + a) <? count) s body (i + s) r')).
      { intros r. simpl. rewrite (wrap32_small (i + a)) by lia.
        rewrite (proj2 (Z.ltb_lt _ _) Hlt).
        by rewrite (wrap32_small (i + s)) by lia. }
      rewrite iters_step by lia.
      pose proof (iters_nonneg count a s (i + s) Hs).
      replace (k * Z.to_nat (1 + iters count a s (i + s)))%nat
        with (k + k * Z.to_nat (iters count a s (i + s)))%nat by lia.
      apply wn_bind; [by apply Hbody; lia|].
      apply IH; lia.
    + apply (writes_n_ext Some).
      { intros r. simpl. rewrite wrap32_small by lia.
        by rewrite (proj2 (Z.ltb_ge _ _) Hge). }
      unfold iters. rewrite (proj2 (Z.ltb_ge _ _) Hge).
      rewrite Nat.mul_0_r. apply wn_ret.
Qed.

Lemma idx_at_ok idx base count j :
  idx_ok idx count → 0 ≤ j < count → is_Some (idx_at idx j base).
Proof.
  intros Hok Hj. destruct idx as [l|]; simpl in *; [|done].
  apply lookup_lt_is_Some. lia.
Qed.

(** Discharges the reads of a loop body: each [idx_at] in range yields a
    value. *)
Ltac reads :=
  rewrite ?wrap32_small by lia;
  repeat match goal with
  | Hok : idx_ok ?idx ?count |- context [idx_at ?idx ?j ?base] =>
      let v := fresh "v" in
      let Hv := fresh "Hv" in
      destruct (idx_at_ok idx base count j Hok) as [v Hv];
      [lia | rewrite Hv; clear Hv; simpl]
  end.

Lemma wn_bind_sub c1 c2 k1 k :
  writes_n c1 k1 → (k1 ≤ k)%nat → writes_n c2 (k - k1) →
  writes_n (λ r, r' ← c1 r; c2 r') k.
Proof.
  intros H1 Hle H2. replace k with (k1 + (k - k1))%nat by lia.
  by apply wn_bind.
Qed.

Ltac emit_leaf :=
  first [ apply wn_emit_line_pv | apply wn_emit_tri_pv
        | apply wn_emit_line | apply wn_emit_tri | apply wn_emit_vertex ].

(** Counts the indices a straight-line sequence of emitters stores. *)
Ltac emits :=
  first
    [ emit_leaf
    | eapply wn_bind_sub; [emit_leaf | simpl; lia | simpl; emits]
    | match goal with
      | |- writes_n (λ r, if ?b then _ else _) _ => destruct b; emits
      end ].

Lemma iters_div count a s :
  0 ≤ count → 0 < s → a = s - 1 → iters count a s 0 = count / s.
Proof.
  intros Hc Hs ->. unfold iters.
  destruct (Z.ltb_spec (0 + (s - 1)) count).
  - replace (count - (s - 1) - 0 - 1) with (count + (-1) * s) by lia.
    rewrite Z.div_add by lia. lia.
  - rewrite Z.div_small; lia.
Qed.

Lemma iters_unit count a :
  0 ≤ a → iters count a 1 0 = Z.max 0 (count - a).
Proof.
  intros Ha. unfold iters. rewrite Z.div_1_r.
  destruct (Z.ltb_spec (0 + a) count); lia.
Qed.

Lemma iters_window count :
  4 ≤ count → iters count 3 2 0 = (count - 2) / 2.
Proof.
  intros Hc. unfold iters. rewrite (proj2 (Z.ltb_lt _ _)) by lia.
  replace (count - 3 - 0 - 1) with ((count - 2) + (-1) * 2) by lia.
  rewrite Z.div_add by lia. lia.
Qed.

Lemma writes_n_eq c k k' : k = k' → writes_n c k → writes_n c k'.
Proof. by intros ->. Qed.

Section decompositions.
Context (idx : option (list Z)) (base count : Z).
Hypothesis Hcount : 0 ≤ count < 2 ^ 30.
Hypothesis Hidx : idx_ok idx count.

Lemma wn_rewrite_lines lp :
  writes_n (λ r, rewrite_lines r idx base count lp)
           (Z.to_nat (emitted_count PRIM_TYPE_LINES POLY_MODE_FILL count)).
Proof.
  unfold rewrite_lines.
  eapply writes_n_eq; [|apply (wn_for_loop count 1 2 2); try lia].
  - rewrite iters_div by lia. simpl. lia.
  - intros i Hi Hlt. reads. emits.
Qed.

Lemma wn_rewrite_line_strip lp :
  writes_n (λ r, rewrite_line_strip r idx base count lp)
           (Z.to_nat (emitted_count PRIM_TYPE_LINE_STRIP POLY_MODE_FILL count)).
Proof.
  unfold rewrite_line_strip.
  eapply writes_n_eq; [|apply (wn_for_loop count 1 1 2); try lia].
  - rewrite iters_unit by lia. simpl. destruct (Z.leb_spec 2 count); lia.
  - intros i Hi Hlt. reads. emits.
Qed.

Lemma wn_rewrite_line_loop lp :
  writes_n (λ r, rewrite_line_loop r idx base count lp)
           (Z.to_nat (emitted_count PRIM_TYPE_LINE_LOOP POLY_MODE_FILL count)).
Proof.
  unfold rewrite_line_loop. simpl.
  destruct (Z.ltb_spec count 2) as [Hlt|Hge].
  - rewrite (proj2 (Z.leb_gt _ _)) by lia. apply wn_ret.
  - rewrite (proj2 (Z.leb_le _ _)) by lia.
    eapply writes_n_eq; [|apply wn_bind; [apply (wn_for_loop count 1 1 2); try lia|]].
    + rewrite iters_unit by lia.
      instantiate (1 := 2%nat). lia.
    + intros i Hi Hlt. reads. emits.
    + reads. emits.
Qed.

Lemma wn_rewrite_triangles lp :
  writes_n (λ r, rewrite_triangles r idx base count lp)
           (Z.to_nat (emitted_count PRIM_TYPE_TRIANGLES POLY_MODE_FILL count)).
Proof.
  unfold rewrite_triangles.
  eapply writes_n_eq; [|apply (wn_for_loop count 2 3 3); try lia].
  - rewrite iters_div by lia. simpl. lia.
  - intros i Hi Hlt. reads. emits.
Qed.

Lemma wn_rewrite_triangle_strip lp :
  writes_n (λ r, rewrite_triangle_strip r idx base count lp)
           (Z.to_nat (emitted_count PRIM_TYPE_TRIANGLE_STRIP POLY_MODE_FILL count)).
Proof.
  unfold rewrite_triangle_strip.
  eapply writes_n_eq; [|apply (wn_for_loop count 2 1 3); try lia].
  - rewrite iters_unit by lia. simpl. destruct (Z.leb_spec 3 count); lia.
  - intros i Hi Hlt. reads. emits.
Qed.

Lemma wn_rewrite_triangle_fan lp :
  writes_n (λ r, rewrite_triangle_fan r idx base count lp)
           (Z.to_nat (emitted_count PRIM_TYPE_TRIANGLE_FAN POLY_MODE_FILL count)).
Proof.
  unfold rewrite_triangle_fan. simpl.
  destruct (Z.ltb_spec count 3) as [Hlt|Hge].
  - rewrite (proj2 (Z.leb_gt _ _)) by lia. apply wn_ret.
  - rewrite (proj2 (Z.leb_le _ _)) by lia. reads.
    eapply writes_n_eq; [|apply (wn_for_loop count 2 1 3); try lia].
    + rewrite iters_unit by lia. lia.
    + intros i Hi Hlt. reads. emits.
Qed.

Lemma wn_rewrite_quads fs :
  writes_n (λ r, rewrite_quads r idx base count fs)
           (Z.to_nat (emitted_count PRIM_TYPE_QUADS POLY_MODE_FILL count)).
Proof.
  unfold rewrite_quads.
  eapply writes_n_eq; [|apply (wn_for_loop count 3 4 6); try lia].
  - rewrite iters_div by lia. simpl. lia.
  - intros i Hi Hlt. reads. emits.
Qed.

Lemma wn_rewrite_quads_line :
  writes_n (λ r, rewrite_quads_line r idx base count)
           (Z.to_nat (emitted_count PRIM_TYPE_QUADS POLY_MODE_LINE count)).
Proof.
  unfold rewrite_quads_line.
  eapply writes_n_eq; [|apply (wn_for_loop count 3 4 8); try lia].
  - rewrite iters_div by lia. simpl. lia.
  - intros i Hi Hlt. reads. emits.
Qed.

Lemma wn_rewrite_quad_strip fs :
  writes_n (λ r, rewrite_quad_strip r idx base count fs)
           (Z.to_nat (emitted_count PRIM_TYPE_QUAD_STRIP POLY_MODE_FILL count)).
Proof.
  unfold rewrite_quad_strip. simpl.
  destruct (Z.ltb_spec count 4) as [Hlt|Hge].
  - rewrite (proj2 (Z.leb_gt _ _)) by lia. apply wn_ret.
  - rewrite (proj2 (Z.leb_le _ _)) by lia.
    eapply writes_n_eq; [|apply (wn_for_loop count 3 2 6); try lia].
    + rewrite iters_window by lia.
      pose proof (Z.div_pos (count - 2) 2). lia.
    + intros i Hi Hlt. reads. emits.
Qed.

Lemma wn_rewrite_quad_strip_line :
  writes_n (λ r, rewrite_quad_strip_line r idx base count)
           (Z.to_nat (emitted_count PRIM_TYPE_QUAD_STRIP POLY_MODE_LINE count)).
Proof.
  unfold rewrite_quad_strip_line. simpl.
  destruct (Z.ltb_spec count 4) as [Hlt|Hge].
  - rewrite (proj2 (Z.leb_gt _ _)) by lia. apply wn_ret.
  - rewrite (proj2 (Z.leb_le _ _)) by lia.
    eapply writes_n_eq; [|apply (wn_for_loop count 3 2 8); try lia].
    + rewrite iters_window by lia.
      pose proof (Z.div_pos (count - 2) 2). lia.
    + intros i Hi Hlt. reads. emits.
Qed.

Lemma wn_rewrite_polygon :
  writes_n (λ r, rewrite_polygon r idx base count)
           (Z.to_nat (emitted_count PRIM_TYPE_POLYGON POLY_MODE_FILL count)).
Proof.
  unfold rewrite_polygon. simpl.
  destruct (Z.ltb_spec count 3) as [Hlt|Hge].
  - rewrite (proj2 (Z.leb_gt _ _)) by lia. apply wn_ret.
  - rewrite (proj2 (Z.leb_le _ _)) by lia. reads.
    eapply writes_n_eq; [|apply (wn_for_loop count 2 1 3); try lia].
    + rewrite iters_unit by lia. lia.
    + intros i Hi Hlt. reads. emits.
Qed.

Lemma wn_rewrite_polygon_line :
  writes_n (λ r, rewrite_polygon_line r idx base count)
           (Z.to_nat (emitted_count PRIM_TYPE_POLYGON POLY_MODE_LINE count)).
Proof.
  unfold rewrite_polygon_line. simpl.
  destruct (Z.ltb_spec count 2) as [Hlt|Hge].
  - rewrite (proj2 (Z.leb_gt _ _)) by lia. apply wn_ret.
  - rewrite (proj2 (Z.leb_le _ _)) by lia.
    eapply writes_n_eq; [|apply wn_bind; [apply (wn_for_loop count 1 1 2); try lia|]].
    + rewrite iters_unit by lia.
      instantiate (1 := 2%nat). lia.
    + intros i Hi Hlt. reads. emits.
    + reads. emits.
Qed.

Lemma wn_rewrite_indices mode :
  primitive_mode mode ≠ PRIM_TYPE_POINTS →
  writes_n (λ r, rewrite_indices r mode idx base count)
    (Z.to_nat (emitted_count (primitive_mode mode) (polygon_mode mode) count)).
Proof.
  intros Hpt. unfold rewrite_indices.
  destruct (primitive_mode mode); try done;
    first [ apply wn_rewrite_lines | apply wn_rewrite_line_strip
          | apply wn_rewrite_line_loop | apply wn_rewrite_triangles
          | apply wn_rewrite_triangle_strip | apply wn_rewrite_triangle_fan
          | idtac ];
    destruct (polygon_mode mode); simpl;
    first [ apply wn_rewrite_quads | apply wn_rewrite_quads_line
          | apply wn_rewrite_quad_strip | apply wn_rewrite_quad_strip_line
          | apply wn_rewrite_polygon | apply wn_rewrite_polygon_line ].
Qed.

Lemma emitted_count_range t pm :
  0 ≤ emitted_count t pm count ≤ 4 * count.
Proof.
  pose proof (Z.div_pos count 2). pose proof (Z.div_pos count 3).
  pose proof (Z.div_pos count 4). pose proof (Z.div_pos (count - 2) 2).
  pose proof (Z.mul_div_le count 2). pose proof (Z.mul_div_le count 3).
  pose proof (Z.mul_div_le count 4). pose proof (Z.mul_div_le (count - 2) 2).
  unfold emitted_count.
  destruct t; repeat case_decide; repeat case_match; lia.
Qed.

(** Within the range, the bound is computed without wrap-around: it is
    the emitted count, except for the loose bounds of the two list
    topologies. *)
Lemma max_output_indices_exact t pm :
  max_output_indices t pm count =
  match t with
  | PRIM_TYPE_LINES | PRIM_TYPE_TRIANGLES => count
  | _ => emitted_count t pm count
  end.
Proof.
  pose proof (Z.div_pos count 4). pose proof (Z.div_pos (count - 2) 2).
  pose proof (Z.mul_div_le count 4). pose proof (Z.mul_div_le (count - 2) 2).
  unfold max_output_indices, emitted_count.
  destruct t; try done; repeat case_decide;
    repeat (case_match; try done);
    rewrite ?(wrap32_small (count - 1)), ?(wrap32_small (count - 2)) by lia;
    rewrite wrap32_small; lia.
Qed.

Lemma emitted_count_le_max t pm :
  emitted_count t pm count ≤ max_output_indices t pm count.
Proof.
  rewrite max_output_indices_exact.
  pose proof (Z.mul_div_le count 2). pose proof (Z.mul_div_le count 3).
  destruct t; simpl; lia.
Qed.

End decompositions.

Lemma view_splice a E :
  (length E ≤ length a)%nat →
  view {| indices := Some (splice a 0 E);
          num_indices := Z.of_nat (0 + length E) |} = E.
Proof.
  intros H. unfold view. simpl. rewrite Nat2Z.id.
  pose proof (take_splice a 0 E) as Ht. simpl in Ht. by rewrite Ht.
Qed.

Lemma emitted_writes mode idx base count :
  primitive_mode mode ≠ PRIM_TYPE_POINTS →
  0 ≤ count < 2 ^ 30 → idx_ok idx count →
  writes (λ r, rewrite_indices r mode idx base count)
         (emitted mode idx base count) ∧
  length (emitted mode idx base count) =
    Z.to_nat (emitted_count (primitive_mode mode) (polygon_mode mode) count).
Proof.
  intros Hpt Hc Hok.
  destruct (wn_rewrite_indices idx base count Hc Hok mode Hpt) as (E & HE & HW).
  pose proof (emitted_count_range count Hc (primitive_mode mode) (polygon_mode mode)).
  assert (emitted mode idx base count = E) as ->; [|done].
  unfold emitted. rewrite <- HE.
  pose proof (HW (replicate (length E) 0) 0%nat) as Hrun.
  rewrite length_replicate in Hrun. change (Z.of_nat 0) with 0 in Hrun.
  rewrite Hrun by lia.
  simpl. apply view_splice. by rewrite length_replicate.
Qed.

Lemma ensure_capacity_spec buf needed :
  buf_wf buf → 0 < needed < 2 ^ 32 →
  ∃ a, data (ensure_capacity buf needed) = Some a ∧
       Z.of_nat (length a) = capacity (ensure_capacity buf needed) ∧
       needed ≤ capacity (ensure_capacity buf needed) < 2 ^ 32.
Proof.
  intros [Hcap Hdata] Hn. unfold ensure_capacity.
  destruct (Z.leb_spec needed (capacity buf)) as [Hle|Hgt].
  - destruct (data buf) as [a|]; [|lia]. exists a. repeat split; lia.
  - simpl. eexists. split; [done|].
    assert (0 ≤ wrap32 (capacity buf * 2) < 2 ^ 32)
      by (unfold wrap32; apply Z.mod_pos_bound; lia).
    rewrite length_resize. lia.
Qed.

Lemma needs_rewrite_not_points mode :
  needs_rewrite mode = true → primitive_mode mode ≠ PRIM_TYPE_POINTS.
Proof. unfold needs_rewrite. by destruct (primitive_mode mode). Qed.

Lemma max_output_indices_range t pm count :
  0 ≤ count < 2 ^ 30 → 0 ≤ max_output_indices t pm count ≤ 4 * count.
Proof.
  intros Hc. rewrite max_output_indices_exact by done.
  pose proof (emitted_count_range count Hc t pm). destruct t; lia.
Qed.

Lemma indexed_run buf mode idx n :
  buf_wf buf → mode_assertion mode = true → needs_rewrite mode = true →
  0 ≤ n < 2 ^ 30 → idx_ok idx n →
  max_output_indices (primitive_mode mode) (polygon_mode mode) n ≠ 0 →
  let buf' := ensure_capacity buf
                (max_output_indices (primitive_mode mode) (polygon_mode mode) n) in
  let E := emitted mode idx 0 n in
  ∃ a, data buf' = Some a ∧
       Z.of_nat (length a) = capacity buf' ∧
       (length E ≤ length a)%nat ∧
       pgraph_prim_rewrite_indexed buf mode idx n =
       Some ({| data := Some (splice a 0 E); capacity := capacity buf' |},
             {| indices := Some (splice a 0 E);
                num_indices := Z.of_nat (length E) |}).
Proof.
  intros Hwf Hassert Hneeds Hn Hok Hmax buf' E.
  pose proof (max_output_indices_range (primitive_mode mode) (polygon_mode mode) n Hn).
  pose proof (emitted_count_le_max n Hn (primitive_mode mode) (polygon_mode mode)).
  pose proof (emitted_count_range n Hn (primitive_mode mode) (polygon_mode mode)).
  destruct (ensure_capacity_spec buf
              (max_output_indices (primitive_mode mode) (polygon_mode mode) n) Hwf)
    as (a & Ha & Hlen & Hcap); [lia|].
  destruct (emitted_writes mode idx 0 n) as [HW HE];
    [by apply needs_rewrite_not_points|done..|].
  fold E in HW, HE.
  exists a. subst buf'. repeat split; [done..|lia|].
  unfold pgraph_prim_rewrite_indexed. rewrite Hassert, Hneeds. simpl.
  rewrite (proj2 (Z.eqb_neq _ _) Hmax). rewrite Ha.
  pose proof (HW a 0%nat) as Hrun. change (Z.of_nat 0) with 0 in Hrun.
  rewrite Hrun by lia. done.
Qed.

Lemma emitted_nil mode idx base count :
  primitive_mode mode ≠ PRIM_TYPE_POINTS →
  0 ≤ count < 2 ^ 30 → idx_ok idx count →
  max_output_indices (primitive_mode mode) (polygon_mode mode) count = 0 →
  emitted mode idx base count = [].
Proof.
  intros Hpt Hc Hok Hmax.
  destruct (emitted_writes mode idx base count Hpt Hc Hok) as [_ HE].
  pose proof (emitted_count_le_max count Hc (primitive_mode mode) (polygon_mode mode)).
  pose proof (emitted_count_range count Hc (primitive_mode mode) (polygon_mode mode)).
  apply length_zero_iff_nil. lia.
Qed.

Lemma indexed_output buf mode idx n :
  buf_wf buf → mode_assertion mode = true →
  0 ≤ n < 2 ^ 30 → idx_ok idx n →
  output (pgraph_prim_rewrite_indexed buf mode idx n) =
  Some (if needs_rewrite mode then emitted mode idx 0 n else []).
Proof.
  intros Hwf Hassert Hn Hok.
  destruct (needs_rewrite mode) eqn:Hneeds.
  - destruct (decide (max_output_indices (primitive_mode mode)
                        (polygon_mode mode) n = 0)) as [Hmax|Hmax].
    + rewrite emitted_nil by (done || by apply needs_rewrite_not_points).
      unfold pgraph_prim_rewrite_indexed.
      rewrite Hassert, Hneeds, Hmax. done.
    + destruct (indexed_run buf mode idx n) as (a & _ & _ & Hle & ->); [done..|].
      unfold output. simpl. f_equal.
      apply (view_splice a (emitted mode idx 0 n) Hle).
  - unfold pgraph_prim_rewrite_indexed. by rewrite Hassert, Hneeds.
Qed.

(** *** The two index sources *)

Lemma for_loop_exit {St} fuel cond step (body : Z → St → option St) i s :
  cond i = false → for_loop fuel cond step body i s = Some s.
Proof. intros H. destruct fuel; simpl; by rewrite H. Qed.

Lemma for_loop_step {St} fuel cond step (body : Z → St → option St) i s :
  cond i = true →
  for_loop (S fuel) cond step body i s =
  s' ← body i s; for_loop fuel cond step body (wrap32 (i + step)) s'.
Proof. intros H. simpl. by rewrite H. Qed.

Lemma for_loop_ext {St} (count a s : Z) (body1 body2 : Z → St → option St) :
  0 ≤ a → 0 < s → count + a + s ≤ 2 ^ 32 →
  (∀ i x, 0 ≤ i → i + a < count → body1 i x = body2 i x) →
  ∀ fuel i x, 0 ≤ i < count + s →
    for_loop fuel (λ i, wrap32 (i + a) <? count) s body1 i x =
    for_loop fuel (λ i, wrap32 (i + a) <? count) s body2 i x.
Proof.
  intros Ha Hs Hc Hbody fuel.
  induction fuel as [|fuel IH]; intros i x Hi; simpl.
  - done.
  - rewrite (wrap32_small (i + a)) by lia.
    destruct (Z.ltb_spec (i + a) count) as [Hlt|Hge]; [|done].
    rewrite Hbody by lia. destruct (body2 i x) as [x'|]; simpl; [|done].
    apply IH. rewrite wrap32_small by lia. lia.
Qed.

Lemma lookup_expand start count j :
  0 ≤ j < count → expand start count !! Z.to_nat j = Some (wrap32 (start + j)).
Proof.
  intros Hj. unfold expand.
  rewrite list_lookup_fmap, lookup_seq_lt by lia.
  simpl. do 2 f_equal. lia.
Qed.

Lemma idx_at_expand start count j :
  0 ≤ j < count →
  idx_at (Some (expand start count)) j 0 = idx_at None j (wrap32 start).
Proof.
  intros Hj. unfold idx_at. rewrite lookup_expand by done.
  f_equal. unfold wrap32. by rewrite Zplus_mod_idemp_l.
Qed.

Ltac same_loop count :=
  apply for_loop_ext; [lia..| |lia];
  intros; rewrite ?wrap32_small by lia;
  rewrite ?(idx_at_expand _ count) by lia; done.

Lemma rewrite_indices_expand r mode start count :
  0 ≤ count < 2 ^ 31 →
  rewrite_indices r mode (Some (expand start count)) 0 count =
  rewrite_indices r mode None (wrap32 start) count.
Proof.
  intros Hc. unfold rewrite_indices.
  destruct (primitive_mode mode); try done; try case_decide;
    unfold rewrite_lines, rewrite_line_strip, rewrite_line_loop,
      rewrite_triangles, rewrite_triangle_strip, rewrite_triangle_fan,
      rewrite_quads, rewrite_quads_line, rewrite_quad_strip,
      rewrite_quad_strip_line, rewrite_polygon, rewrite_polygon_line;
    try (case_match; [done|]);
    repeat match goal with H : (_ <? _) = false |- _ => apply Z.ltb_ge in H end;
    rewrite ?wrap32_small by lia;
    rewrite ?(idx_at_expand _ count) by lia;
    try (destruct (idx_at None 0 (wrap32 start)) as [hub|];
         [cbn [mbind option_bind]|done]);
    try same_loop count;
    (f_equal; same_loop count).
Qed.

(** *** The ranges entry point *)

Lemma total_count_nonneg ranges :
  Forall (λ rg, 0 ≤ rg.2) ranges → 0 ≤ total_count ranges.
Proof. induction 1; simpl; lia. Qed.

Lemma total_max_range mode ranges :
  Forall (λ rg, 0 ≤ rg.2) ranges → total_count ranges < 2 ^ 30 →
  0 ≤ total_max mode ranges ≤ 4 * total_count ranges.
Proof.
  induction 1 as [|rg rest Hrg Hrest IH]; simpl; intros Ht; [lia|].
  pose proof (total_count_nonneg rest Hrest).
  pose proof (max_output_indices_range (primitive_mode mode) (polygon_mode mode) rg.2).
  rewrite wrap32_small by lia. lia.
Qed.

Lemma range_emitted_spec mode rg :
  primitive_mode mode ≠ PRIM_TYPE_POINTS → 0 ≤ rg.2 < 2 ^ 30 →
  writes (λ r, rewrite_indices r mode None (wrap32 rg.1) (wrap32 rg.2))
         (range_emitted mode rg) ∧
  Z.of_nat (length (range_emitted mode rg)) ≤
    max_output_indices (primitive_mode mode) (polygon_mode mode) (wrap32 rg.2).
Proof.
  intros Hpt Hc. unfold range_emitted. rewrite (wrap32_small rg.2) by lia.
  destruct (emitted_writes mode None (wrap32 rg.1) rg.2 Hpt Hc I) as [HW HE].
  split; [done|]. rewrite HE.
  pose proof (emitted_count_le_max rg.2 Hc (primitive_mode mode) (polygon_mode mode)).
  pose proof (emitted_count_range rg.2 Hc (primitive_mode mode) (polygon_mode mode)).
  lia.
Qed.

Lemma ranges_emitted_length mode ranges :
  primitive_mode mode ≠ PRIM_TYPE_POINTS →
  Forall (λ rg, 0 ≤ rg.2) ranges → total_count ranges < 2 ^ 30 →
  Z.of_nat (length (ranges_emitted mode ranges)) ≤ total_max mode ranges.
Proof.
  intros Hpt. induction 1 as [|rg rest Hrg Hrest IH]; simpl; intros Ht; [done|].
  pose proof (total_count_nonneg rest Hrest).
  destruct (range_emitted_spec mode rg Hpt) as [_ Hlen]; [lia|].
  unfold ranges_emitted in *. simpl. rewrite length_app. lia.
Qed.

Section ranges_loops.
Context (mode : PrimAssemblyState).
Hypothesis Hpt : primitive_mode mode ≠ PRIM_TYPE_POINTS.

Lemma total_loop rest : ∀ pre fuel T,
  Forall (λ rg, 0 ≤ rg.2) rest → total_count rest < 2 ^ 30 →
  Z.of_nat (length (pre ++ rest)) < 2 ^ 32 →
  (length rest ≤ fuel)%nat → 0 ≤ T → T + 4 * total_count rest < 2 ^ 32 →
  for_loop fuel (λ r, r <? Z.of_nat (length (pre ++ rest))) 1
    (λ r total,
       c ← (pre ++ rest).*2 !! Z.to_nat r;
       Some (wrap32 (total + max_output_indices (primitive_mode mode)
                               (polygon_mode mode) (wrap32 c))))
    (Z.of_nat (length pre)) T
  = Some (T + total_max mode rest).
Proof.
  induction rest as [|rg rest IH]; intros pre fuel T Hnn Ht Hlen Hfuel HT HTt.
  - rewrite for_loop_exit by (rewrite app_nil_r; apply Z.ltb_irrefl).
    unfold total_max. simpl. by rewrite Z.add_0_r.
  - apply Forall_cons in Hnn as [Hrg Hnn]. simpl in Ht, HTt, Hfuel.
    pose proof (total_count_nonneg rest Hnn).
    pose proof (max_output_indices_range (primitive_mode mode)
                  (polygon_mode mode) rg.2 ltac:(lia)).
    destruct fuel as [|fuel]; [lia|].
    rewrite for_loop_step by (apply Z.ltb_lt; rewrite length_app; simpl; lia).
    rewrite Nat2Z.id, list_lookup_fmap, list_lookup_middle by done. simpl.
    rewrite length_app in Hlen. simpl in Hlen.
    rewrite (wrap32_small rg.2) by lia.
    rewrite (wrap32_small (T + _)) by lia.
    replace (wrap32 (Z.of_nat (length pre) + 1))
      with (Z.of_nat (length (pre ++ [rg])))
      by (rewrite wrap32_small, length_app; simpl; lia).
    rewrite (cons_middle rg pre rest), app_assoc.
    rewrite IH; [f_equal; lia|try done; try lia..].
    rewrite <- app_assoc, length_app. simpl. lia.
Qed.

Lemma rewrite_loop rest : ∀ pre fuel,
  Forall (λ rg, 0 ≤ rg.2) rest → total_count rest < 2 ^ 30 →
  Z.of_nat (length (pre ++ rest)) < 2 ^ 32 →
  (length rest ≤ fuel)%nat →
  writes
    (for_loop fuel (λ r, r <? Z.of_nat (length (pre ++ rest))) 1
       (λ r result,
          c ← (pre ++ rest).*2 !! Z.to_nat r;
          if c =? 0 then Some result
          else
            s ← (pre ++ rest).*1 !! Z.to_nat r;
            rewrite_indices result mode None (wrap32 s) (wrap32 c))
       (Z.of_nat (length pre)))
    (ranges_emitted mode rest).
Proof.
  induction rest as [|rg rest IH]; intros pre fuel Hnn Ht Hlen Hfuel.
  - apply (writes_ext Some); [|apply writes_ret].
    intros r. rewrite for_loop_exit; [done|].
    rewrite app_nil_r. apply Z.ltb_irrefl.
  - apply Forall_cons in Hnn as [Hrg Hnn]. simpl in Ht, Hfuel.
    pose proof (total_count_nonneg rest Hnn).
    destruct fuel as [|fuel]; [lia|].
    rewrite length_app in Hlen. simpl in Hlen.
    eapply writes_ext.
    { intros r. symmetry. rewrite for_loop_step by (apply Z.ltb_lt; rewrite length_app; simpl; lia).
      rewrite Nat2Z.id, !list_lookup_fmap, list_lookup_middle by done. simpl.
      replace (wrap32 (Z.of_nat (length pre) + 1))
        with (Z.of_nat (length (pre ++ [rg])))
        by (rewrite wrap32_small, length_app; simpl; lia).
      rewrite (cons_middle rg pre rest), app_assoc. reflexivity. }
    change (ranges_emitted mode (rg :: rest))
      with (range_emitted mode rg ++ ranges_emitted mode rest).
    apply writes_bind.
    + destruct (range_emitted_spec mode rg Hpt) as [HW Hle]; [lia|].
      destruct (Z.eqb_spec rg.2 0) as [Hz|Hnz]; [|done].
      rewrite Hz in Hle. rewrite (wrap32_small 0) in Hle by lia.
      pose proof (emitted_count_range 0 ltac:(lia) (primitive_mode mode) (polygon_mode mode)).
      assert (range_emitted mode rg = []) as ->; [|apply writes_ret].
      apply length_zero_iff_nil.
      pose proof (max_output_indices_exact 0 ltac:(lia) (primitive_mode mode) (polygon_mode mode)) as Hm.
      pose proof (emitted_count_le_max 0 ltac:(lia) (primitive_mode mode) (polygon_mode mode)).
      pose proof (max_output_indices_range (primitive_mode mode) (polygon_mode mode) 0 ltac:(lia)).
      lia.
    + apply IH; [done|lia| |lia].
      rewrite <- app_assoc, length_app. simpl. lia.
Qed.

End ranges_loops.

Lemma ranges_total buf mode ranges :
  mode_assertion mode = true → needs_rewrite mode = true → ranges_ok ranges →
  pgraph_prim_rewrite_ranges buf mode ranges.*1 ranges.*2
    (Z.of_nat (length ranges)) =
  if total_max mode ranges =? 0 then Some (buf, empty_result)
  else
    let buf' := ensure_capacity buf (total_max mode ranges) in
    result ←
      for_loop (length ranges) (λ r, r <? Z.of_nat (length ranges)) 1
        (λ r result,
           c ← ranges.*2 !! Z.to_nat r;
           if c =? 0 then Some result
           else
             s ← ranges.*1 !! Z.to_nat r;
             rewrite_indices result mode None (wrap32 s) (wrap32 c))
        0 {| indices := data buf'; num_indices := 0 |};
    Some ({| data := indices result; capacity := capacity buf' |}, result).
Proof.
  intros Hassert Hneeds (Hnn & Ht & Hlen).
  pose proof (total_count_nonneg ranges Hnn).
  unfold pgraph_prim_rewrite_ranges. rewrite Hassert, Hneeds, Nat2Z.id.
  pose proof (total_loop mode ranges [] (length ranges) 0 Hnn Ht Hlen
                ltac:(lia) ltac:(lia) ltac:(lia)) as Htot.
  simpl in Htot. change (Z.of_nat 0) with 0 in Htot.
  cbn [negb]. by rewrite Htot.
Qed.

Lemma ranges_run buf mode ranges :
  buf_wf buf → mode_assertion mode = true → needs_rewrite mode = true →
  ranges_ok ranges → total_max mode ranges ≠ 0 →
  let buf' := ensure_capacity buf (total_max mode ranges) in
  let E := ranges_emitted mode ranges in
  ∃ a, data buf' = Some a ∧
       Z.of_nat (length a) = capacity buf' ∧
       (length E ≤ length a)%nat ∧
       pgraph_prim_rewrite_ranges buf mode ranges.*1 ranges.*2
         (Z.of_nat (length ranges)) =
       Some ({| data := Some (splice a 0 E); capacity := capacity buf' |},
             {| indices := Some (splice a 0 E);
                num_indices := Z.of_nat (length E) |}).
Proof.
  intros Hwf Hassert Hneeds Hok Hmax buf' E.
  pose proof Hok as (Hnn & Ht & Hlen).
  pose proof (needs_rewrite_not_points mode Hneeds) as Hpt.
  pose proof (total_max_range mode ranges Hnn Ht).
  pose proof (ranges_emitted_length mode ranges Hpt Hnn Ht).
  destruct (ensure_capacity_spec buf (total_max mode ranges) Hwf)
    as (a & Ha & Hla & Hcap); [lia|].
  exists a. subst buf' E. repeat split; [done..|lia|].
  rewrite ranges_total by done.
  rewrite (proj2 (Z.eqb_neq _ _) Hmax). cbn zeta. rewrite Ha.
  pose proof (rewrite_loop mode Hpt ranges [] (length ranges) Hnn Ht Hlen
                ltac:(lia) a 0%nat) as Hrun.
  simpl in Hrun. change (Z.of_nat 0) with 0 in Hrun.
  rewrite Hrun by lia. done.
Qed.

Lemma ranges_output buf mode ranges :
  buf_wf buf → mode_assertion mode = true → ranges_ok ranges →
  output (pgraph_prim_rewrite_ranges buf mode ranges.*1 ranges.*2
            (Z.of_nat (length ranges))) =
  Some (if needs_rewrite mode then ranges_emitted mode ranges else []).
Proof.
  intros Hwf Hassert Hok.
  destruct (needs_rewrite mode) eqn:Hneeds.
  - destruct (decide (total_max mode ranges = 0)) as [Hmax|Hmax].
    + rewrite ranges_total, Hmax by done. simpl.
      destruct Hok as (Hnn & Ht & Hlen).
      pose proof (ranges_emitted_length mode ranges
                    (needs_rewrite_not_points mode Hneeds) Hnn Ht) as Hle.
      f_equal. symmetry. apply length_zero_iff_nil. lia.
    + destruct (ranges_run buf mode ranges) as (a & _ & _ & Hle & ->); [done..|].
      unfold output. simpl. f_equal.
      apply (view_splice a (ranges_emitted mode ranges) Hle).
  - unfold pgraph_prim_rewrite_ranges. by rewrite Hassert, Hneeds.
Qed.

End emitters.

(** * The claims about the primitive rewrite *)

Section prim_claims.

Lemma fresh_buf_wf : buf_wf fresh_buf.
Proof. split; simpl; lia. Qed.

(** C4: [needs_rewrite] is false for points, is [last_provoking &&
    flat_shading] for lines and triangles, and is true for the seven
    other topologies, whatever the fill mode and the flags. *)
Theorem needs_rewrite_matrix (pm : ShaderPolygonMode) (lp fs : bool) :
  needs_rewrite (state PRIM_TYPE_POINTS pm lp fs) = false ∧
  needs_rewrite (state PRIM_TYPE_LINES pm lp fs) = lp && fs ∧
  needs_rewrite (state PRIM_TYPE_TRIANGLES pm lp fs) = lp && fs ∧
  needs_rewrite (state PRIM_TYPE_LINE_STRIP pm lp fs) = true ∧
  needs_rewrite (state PRIM_TYPE_LINE_LOOP pm lp fs) = true ∧
  needs_rewrite (state PRIM_TYPE_TRIANGLE_STRIP pm lp fs) = true ∧
  needs_rewrite (state PRIM_TYPE_TRIANGLE_FAN pm lp fs) = true ∧
  needs_rewrite (state PRIM_TYPE_QUADS pm lp fs) = true ∧
  needs_rewrite (state PRIM_TYPE_QUAD_STRIP pm lp fs) = true ∧
  needs_rewrite (state PRIM_TYPE_POLYGON pm lp fs) = true.
Proof. repeat split. Qed.

(** C6: quads in fill mode on the indices 0,1,2,3, given explicitly or
    as the range (0, 4), give the triangles (0,1,2),(0,2,3) without flat
    shading and (3,0,1),(3,1,2) with it. *)
Theorem quads_fill_0123 (buf : PrimRewriteBuf) (lp : bool) :
  buf_wf buf →
  output (pgraph_prim_rewrite_indexed buf
            (state PRIM_TYPE_QUADS POLY_MODE_FILL lp false)
            (Some [0; 1; 2; 3]) 4) = Some [0; 1; 2; 0; 2; 3] ∧
  output (pgraph_prim_rewrite_indexed buf
            (state PRIM_TYPE_QUADS POLY_MODE_FILL lp true)
            (Some [0; 1; 2; 3]) 4) = Some [3; 0; 1; 3; 1; 2] ∧
  output (pgraph_prim_rewrite_sequential buf
            (state PRIM_TYPE_QUADS POLY_MODE_FILL lp false) 0 4)
  = Some [0; 1; 2; 0; 2; 3] ∧
  output (pgraph_prim_rewrite_sequential buf
            (state PRIM_TYPE_QUADS POLY_MODE_FILL lp true) 0 4)
  = Some [3; 0; 1; 3; 1; 2].
Proof.
  intros Hwf.
  assert (Hok : ranges_ok [(0, 4)]).
  { split; [repeat constructor; simpl; lia|]. split; simpl; lia. }
  split_and!;
    first [ rewrite indexed_output; [by destruct lp|done|done|lia|simpl; lia]
          | etrans;
            [exact (ranges_output buf
                      (state PRIM_TYPE_QUADS POLY_MODE_FILL lp _)
                      [(0, 4)] Hwf eq_refl Hok)|];
            by destruct lp ].
Qed.

Lemma quads_fill_0123_witness :
  buf_wf fresh_buf ∧
  output (pgraph_prim_rewrite_indexed fresh_buf
            (state PRIM_TYPE_QUADS POLY_MODE_FILL true false)
            (Some [0; 1; 2; 3]) 4) = Some [0; 1; 2; 0; 2; 3] ∧
  output (pgraph_prim_rewrite_indexed fresh_buf
            (state PRIM_TYPE_QUADS POLY_MODE_FILL true true)
            (Some [0; 1; 2; 3]) 4) = Some [3; 0; 1; 3; 1; 2] ∧
  output (pgraph_prim_rewrite_sequential fresh_buf
            (state PRIM_TYPE_QUADS POLY_MODE_FILL true false) 0 4)
  = Some [0; 1; 2; 0; 2; 3] ∧
  output (pgraph_prim_rewrite_sequential fresh_buf
            (state PRIM_TYPE_QUADS POLY_MODE_FILL true true) 0 4)
  = Some [3; 0; 1; 3; 1; 2].
Proof.
  assert (Hwf : buf_wf fresh_buf) by (split; simpl; lia).
  split; [exact Hwf|].
  exact (quads_fill_0123 fresh_buf true Hwf).
Defined.

(** C7, as stated: a triangle fan on 10,20,30,40 without last-vertex
    provoking would emit 10,20,30,10,30,40.  It does not. *)
Lemma triangle_fan_not_hub_first :
  output (pgraph_prim_rewrite_indexed fresh_buf
            (state PRIM_TYPE_TRIANGLE_FAN POLY_MODE_FILL false false)
            (Some [10; 20; 30; 40]) 4) ≠ Some [10; 20; 30; 10; 30; 40].
Proof. vm_compute. discriminate. Qed.

(** C7, amended: without last-vertex provoking the two triangles of the
    fan on 10,20,30,40 are emitted rotated, the provoking vertex [i+1]
    first: the output is 20,30,10,30,40,10, whatever the flat-shading
    flag and the fill mode. *)
Theorem triangle_fan_10_20_30_40 (buf : PrimRewriteBuf)
    (pm : ShaderPolygonMode) (fs : bool) :
  buf_wf buf →
  output (pgraph_prim_rewrite_indexed buf
            (state PRIM_TYPE_TRIANGLE_FAN pm false fs)
            (Some [10; 20; 30; 40]) 4) = Some [20; 30; 10; 30; 40; 10].
Proof.
  intros Hwf.
  rewrite indexed_output; [by destruct pm, fs|done|by destruct pm|lia|simpl; lia].
Qed.

Lemma triangle_fan_10_20_30_40_witness :
  buf_wf fresh_buf ∧
  output (pgraph_prim_rewrite_indexed fresh_buf
            (state PRIM_TYPE_TRIANGLE_FAN POLY_MODE_FILL false true)
            (Some [10; 20; 30; 40]) 4) = Some [20; 30; 10; 30; 40; 10].
Proof.
  assert (Hwf : buf_wf fresh_buf) by (split; simpl; lia).
  split; [exact Hwf|].
  exact (triangle_fan_10_20_30_40 fresh_buf POLY_MODE_FILL true Hwf).
Defined.

(** C5, as stated: for lines the number of output indices would equal
    the bound.  Three input indices give one line, two indices, and a
    bound of three. *)
Lemma lines_output_below_bound :
  ∃ buf res,
    pgraph_prim_rewrite_indexed fresh_buf
      (state PRIM_TYPE_LINES POLY_MODE_FILL true true) (Some [0; 1; 2]) 3
    = Some (buf, res) ∧
    num_indices res ≠
      max_output_indices PRIM_TYPE_LINES POLY_MODE_FILL 3.
Proof. eexists _, _. split; [vm_compute; reflexivity|]. vm_compute. discriminate. Qed.

(** C5, amended: for fewer than [2^30] input indices, the number of
    output indices never exceeds the bound.
    When a rewrite takes place it equals the bound for every topology
    but lines and triangles (below the threshold of a strip, loop, fan
    or polygon both are zero); for lines it is [2 * (n / 2)] and for
    triangles [3 * (n / 3)], which is the bound only when no input index
    is left over. *)
Theorem output_count_bound (buf : PrimRewriteBuf) (mode : PrimAssemblyState)
    (input : list Z) :
  let n := Z.of_nat (length input) in
  let bound := max_output_indices (primitive_mode mode) (polygon_mode mode) n in
  buf_wf buf → mode_assertion mode = true → n < 2 ^ 30 →
  ∃ buf' res,
    pgraph_prim_rewrite_indexed buf mode (Some input) n = Some (buf', res) ∧
    0 ≤ num_indices res ≤ bound ∧
    (needs_rewrite mode = true →
     num_indices res =
     match primitive_mode mode with
     | PRIM_TYPE_LINES => 2 * (n / 2)
     | PRIM_TYPE_TRIANGLES => 3 * (n / 3)
     | _ => bound
     end).
Proof.
  intros n bound Hwf Hassert Hn.
  assert (Hrange : 0 ≤ n < 2 ^ 30) by lia.
  pose proof (max_output_indices_range (primitive_mode mode)
                (polygon_mode mode) n Hrange) as Hb.
  pose proof (max_output_indices_exact n Hrange (primitive_mode mode)
                (polygon_mode mode)) as Hexact.
  pose proof (emitted_count_le_max n Hrange (primitive_mode mode)
                (polygon_mode mode)) as Hle.
  pose proof (emitted_count_range n Hrange (primitive_mode mode)
                (polygon_mode mode)) as Hec.
  fold bound in Hb, Hexact, Hle.
  destruct (needs_rewrite mode) eqn:Hneeds.
  - destruct (decide (bound = 0)) as [Hz|Hnz].
    + exists buf, empty_result. split; [|split; [simpl; lia|]].
      * unfold pgraph_prim_rewrite_indexed. fold n bound.
        by rewrite Hassert, Hneeds, Hz.
      * intros _. simpl. rewrite Hz in *.
        destruct (primitive_mode mode); simpl in *; lia.
    + destruct (indexed_run buf mode (Some input) n)
        as (a & _ & _ & _ & Hrun); [done..|simpl; lia|done|].
      destruct (emitted_writes mode (Some input) 0 n) as [_ HE];
        [by apply needs_rewrite_not_points|done|simpl; lia|].
      eexists _, _. split; [exact Hrun|]. simpl. rewrite HE.
      split; [lia|]. intros _.
      destruct (primitive_mode mode); simpl in *; lia.
  - exists buf, empty_result. split; [|split; [simpl; lia|done]].
    unfold pgraph_prim_rewrite_indexed. by rewrite Hassert, Hneeds.
Qed.

Lemma output_count_bound_witness :
  buf_wf fresh_buf ∧
  ∃ buf' res,
    pgraph_prim_rewrite_indexed fresh_buf
      (state PRIM_TYPE_TRIANGLES POLY_MODE_FILL true true)
      (Some [0; 1; 2; 3]) 4 = Some (buf', res) ∧
    0 ≤ num_indices res ≤ 4 ∧
    (true = true → num_indices res = 3 * (4 / 3)).
Proof.
  assert (Hwf : buf_wf fresh_buf) by (split; simpl; lia).
  split; [exact Hwf|].
  apply (output_count_bound fresh_buf
           (state PRIM_TYPE_TRIANGLES POLY_MODE_FILL true true) [0; 1; 2; 3] Hwf);
    [reflexivity|simpl; lia].
Defined.

(** X17: for fewer than [2^30] input indices, where the 32-bit bound
    does not wrap around, both entry points return the empty result, a
    null pointer and a zero count, and leave the scratch buffer alone,
    when no rewrite is needed or the computed bound is zero.  Otherwise
    the result points to the scratch array, grown to the bound: the
    indices emitted were stored at its start, nothing behind them was
    touched, and [num_indices] is their number. *)
Theorem entry_points_result (buf : PrimRewriteBuf) (mode : PrimAssemblyState)
    (input : list Z) (ranges : list (Z * Z)) :
  let n := Z.of_nat (length input) in
  let bound := max_output_indices (primitive_mode mode) (polygon_mode mode) n in
  let total := total_max mode ranges in
  buf_wf buf → mode_assertion mode = true → n < 2 ^ 30 → ranges_ok ranges →
  (needs_rewrite mode = false ∨ bound = 0 →
   pgraph_prim_rewrite_indexed buf mode (Some input) n
   = Some (buf, {| indices := None; num_indices := 0 |})) ∧
  (needs_rewrite mode = false ∨ total = 0 →
   pgraph_prim_rewrite_ranges buf mode ranges.*1 ranges.*2
     (Z.of_nat (length ranges))
   = Some (buf, {| indices := None; num_indices := 0 |})) ∧
  (needs_rewrite mode = true → bound ≠ 0 →
   let E := emitted mode (Some input) 0 n in
   ∃ a, data (ensure_capacity buf bound) = Some a ∧
        bound ≤ Z.of_nat (length a) ∧
        pgraph_prim_rewrite_indexed buf mode (Some input) n
        = Some ({| data := Some (E ++ drop (length E) a);
                   capacity := capacity (ensure_capacity buf bound) |},
                {| indices := Some (E ++ drop (length E) a);
                   num_indices := Z.of_nat (length E) |})) ∧
  (needs_rewrite mode = true → total ≠ 0 →
   let E := ranges_emitted mode ranges in
   ∃ a, data (ensure_capacity buf total) = Some a ∧
        total ≤ Z.of_nat (length a) ∧
        pgraph_prim_rewrite_ranges buf mode ranges.*1 ranges.*2
          (Z.of_nat (length ranges))
        = Some ({| data := Some (E ++ drop (length E) a);
                   capacity := capacity (ensure_capacity buf total) |},
                {| indices := Some (E ++ drop (length E) a);
                   num_indices := Z.of_nat (length E) |})).
Proof.
  intros n bound total Hwf Hassert Hn Hok.
  assert (Hrange : 0 ≤ n < 2 ^ 30) by lia.
  pose proof (max_output_indices_range (primitive_mode mode)
                (polygon_mode mode) n Hrange) as Hb.
  pose proof Hok as (Hnn & Ht & Hlen).
  pose proof (total_max_range mode ranges Hnn Ht) as Htot.
  fold bound in Hb. fold total in Htot.
  repeat split.
  - intros [Hneeds|Hz]; unfold pgraph_prim_rewrite_indexed; fold n bound;
      rewrite Hassert.
    + by rewrite Hneeds.
    + destruct (needs_rewrite mode); [by rewrite Hz|done].
  - intros [Hneeds|Hz].
    + unfold pgraph_prim_rewrite_ranges. by rewrite Hassert, Hneeds.
    + destruct (needs_rewrite mode) eqn:Hneeds.
      * rewrite ranges_total by done. fold total. by rewrite Hz.
      * unfold pgraph_prim_rewrite_ranges. by rewrite Hassert, Hneeds.
  - intros Hneeds Hnz E.
    destruct (indexed_run buf mode (Some input) n)
      as (a & Ha & Hla & _ & Hrun); [done..|simpl; lia|done|].
    destruct (ensure_capacity_spec buf bound Hwf) as (a' & Ha' & Hla' & Hcap);
      [lia|].
    fold n bound in Ha. assert (a' = a) as -> by congruence.
    exists a. repeat split; [done|lia|]. exact Hrun.
  - intros Hneeds Hnz E.
    destruct (ranges_run buf mode ranges) as (a & Ha & Hla & _ & Hrun); [done..|].
    destruct (ensure_capacity_spec buf total Hwf) as (a' & Ha' & Hla' & Hcap);
      [lia|].
    fold total in Ha. assert (a' = a) as -> by congruence.
    exists a. repeat split; [done|lia|]. exact Hrun.
Qed.

(** C10: for quads and quad strips the result of either entry point
    is the same for both values of [last_provoking], in every fill mode
    and with or without flat shading.  On the flat-shaded fill path the
    last vertex [d] of a quad [a,b,c,d] comes first in both of its
    triangles. *)
Theorem quads_ignore_last_provoking (buf : PrimRewriteBuf)
    (pm : ShaderPolygonMode) (fs lp lp' : bool) (input : option (list Z))
    (n : Z) (starts counts : list Z) (num_ranges : Z) (a b c d : Z) :
  pgraph_prim_rewrite_indexed buf (state PRIM_TYPE_QUADS pm lp fs) input n
  = pgraph_prim_rewrite_indexed buf (state PRIM_TYPE_QUADS pm lp' fs) input n ∧
  pgraph_prim_rewrite_indexed buf (state PRIM_TYPE_QUAD_STRIP pm lp fs) input n
  = pgraph_prim_rewrite_indexed buf (state PRIM_TYPE_QUAD_STRIP pm lp' fs) input n ∧
  pgraph_prim_rewrite_ranges buf (state PRIM_TYPE_QUADS pm lp fs)
    starts counts num_ranges
  = pgraph_prim_rewrite_ranges buf (state PRIM_TYPE_QUADS pm lp' fs)
      starts counts num_ranges ∧
  pgraph_prim_rewrite_ranges buf (state PRIM_TYPE_QUAD_STRIP pm lp fs)
    starts counts num_ranges
  = pgraph_prim_rewrite_ranges buf (state PRIM_TYPE_QUAD_STRIP pm lp' fs)
      starts counts num_ranges ∧
  output (pgraph_prim_rewrite_indexed fresh_buf
            (state PRIM_TYPE_QUADS POLY_MODE_FILL lp true)
            (Some [a; b; c; d]) 4) = Some [d; a; b; d; b; c] ∧
  output (pgraph_prim_rewrite_indexed fresh_buf
            (state PRIM_TYPE_QUAD_STRIP POLY_MODE_FILL lp true)
            (Some [a; b; c; d]) 4) = Some [d; c; a; d; a; b].
Proof. repeat split. Qed.

(** C1, as stated: the output for several ranges would be the output
    for the concatenation of their indices.  For a line strip, the
    ranges (0,2) and (2,2) give the two lines (0,1),(2,3), and the
    indices 0,1,2,3 give three lines. *)
Lemma ranges_not_concatenation :
  output (pgraph_prim_rewrite_ranges fresh_buf
            (state PRIM_TYPE_LINE_STRIP POLY_MODE_FILL false false)
            [0; 2] [2; 2] 2)
  ≠ output (pgraph_prim_rewrite_indexed fresh_buf
              (state PRIM_TYPE_LINE_STRIP POLY_MODE_FILL false false)
              (Some (expand 0 2 ++ expand 2 2)) 4).
Proof. vm_compute. discriminate. Qed.

(** C1, amended: a single range [(start, count)] gives exactly the
    result of the explicit indices [start .. start + count - 1], so the
    range (0, N) and the indices 0 .. N-1 give identical outputs; several
    ranges are rewritten one by one, each as a primitive stream of its
    own, and the output is the concatenation, in order, of the outputs
    for the explicit indices of each range. *)
Theorem ranges_as_indexed (buf : PrimRewriteBuf) (mode : PrimAssemblyState)
    (ranges : list (Z * Z)) (start count : Z) :
  buf_wf buf → mode_assertion mode = true → ranges_ok ranges →
  0 ≤ count < 2 ^ 31 →
  pgraph_prim_rewrite_ranges buf mode [start] [count] 1
  = pgraph_prim_rewrite_indexed buf mode (Some (expand start count)) count ∧
  ∃ outs,
    Forall2
      (λ rg out,
         output (pgraph_prim_rewrite_indexed buf mode
                   (Some (expand rg.1 rg.2)) rg.2) = Some out)
      ranges outs ∧
    output (pgraph_prim_rewrite_ranges buf mode ranges.*1 ranges.*2
              (Z.of_nat (length ranges))) = Some (concat outs).
Proof.
  intros Hwf Hassert Hok Hcount. split.
  - unfold pgraph_prim_rewrite_ranges, pgraph_prim_rewrite_indexed.
    rewrite Hassert. cbn [negb].
    destruct (needs_rewrite mode); cbn [negb]; [|done].
    change (Z.to_nat 1) with 1%nat. cbn [for_loop].
    change (0 <? 1) with true. change (Z.to_nat 0) with 0%nat.
    change ([count] !! 0%nat) with (Some count).
    change ([start] !! 0%nat) with (Some start).
    change (wrap32 (0 + 1) <? 1) with false.
    cbn [mbind option_bind].
    rewrite (wrap32_small count) by lia.
    assert (Hm : 0 ≤ max_output_indices (primitive_mode mode)
                       (polygon_mode mode) count < 2 ^ 32).
    { unfold max_output_indices, wrap32.
      pose proof (Z.mod_pos_bound) as Hmod.
      destruct (primitive_mode mode); repeat case_decide;
        repeat case_match; try lia; apply Z.mod_pos_bound; lia. }
    rewrite wrap32_small by lia. rewrite !Z.add_0_l.
    destruct (Z.eqb_spec (max_output_indices (primitive_mode mode)
                            (polygon_mode mode) count) 0) as [Hz|Hnz]; [done|].
    destruct (Z.eqb_spec count 0) as [->|Hc0].
    { exfalso. apply Hnz.
      unfold max_output_indices.
      destruct (primitive_mode mode); repeat case_decide; done. }
    rewrite rewrite_indices_expand by lia.
    by destruct (rewrite_indices _ mode None (wrap32 start) count).
  - exists ((λ rg, if needs_rewrite mode then range_emitted mode rg else [])
              <$> ranges).
    destruct Hok as (Hnn & Ht & Hlen). split.
    + apply Forall2_fmap_r, Forall_Forall2_diag.
      clear Hlen. induction Hnn as [|rg rest Hrg Hrest IH]; [done|].
      simpl in Ht. pose proof (total_count_nonneg rest Hrest).
      constructor; [|apply IH; lia].
      rewrite indexed_output; [|done|done|lia|].
      * f_equal. destruct (needs_rewrite mode); [|done].
        unfold range_emitted, emitted.
        rewrite (wrap32_small rg.2) by lia.
        by rewrite rewrite_indices_expand by lia.
      * simpl. unfold expand. rewrite length_fmap, length_seq. lia.
    + rewrite ranges_output by done. f_equal.
      destruct (needs_rewrite mode); [done|].
      clear. induction ranges; [done|]. simpl. done.
Qed.

Lemma entry_points_result_witness :
  buf_wf fresh_buf ∧ ranges_ok [(0, 4)] ∧
  ∃ a, data (ensure_capacity fresh_buf 6) = Some a ∧
       6 ≤ Z.of_nat (length a) ∧
       pgraph_prim_rewrite_ranges fresh_buf
         (state PRIM_TYPE_QUADS POLY_MODE_FILL false false) [0] [4] 1
       = Some ({| data := Some ([0; 1; 2; 0; 2; 3] ++ drop 6 a);
                  capacity := capacity (ensure_capacity fresh_buf 6) |},
               {| indices := Some ([0; 1; 2; 0; 2; 3] ++ drop 6 a);
                  num_indices := 6 |}).
Proof.
  assert (Hwf : buf_wf fresh_buf) by (split; simpl; lia).
  assert (Hok : ranges_ok [(0, 4)]).
  { split; [repeat constructor; simpl; lia|]. split; simpl; lia. }
  split; [exact Hwf|]. split; [exact Hok|].
  apply (proj2 (proj2 (proj2
           (entry_points_result fresh_buf
              (state PRIM_TYPE_QUADS POLY_MODE_FILL false false)
              [0; 1; 2; 3] [(0, 4)] Hwf eq_refl ltac:(simpl; lia) Hok))));
    [reflexivity|discriminate].
Defined.

Lemma ranges_as_indexed_witness :
  buf_wf fresh_buf ∧ ranges_ok [(0, 3); (7, 2)] ∧
  pgraph_prim_rewrite_ranges fresh_buf
    (state PRIM_TYPE_LINE_LOOP POLY_MODE_FILL true true) [0] [5] 1
  = pgraph_prim_rewrite_indexed fresh_buf
      (state PRIM_TYPE_LINE_LOOP POLY_MODE_FILL true true)
      (Some (expand 0 5)) 5 ∧
  ∃ outs,
    Forall2
      (λ rg out,
         output (pgraph_prim_rewrite_indexed fresh_buf
                   (state PRIM_TYPE_LINE_LOOP POLY_MODE_FILL true true)
                   (Some (expand rg.1 rg.2)) rg.2) = Some out)
      [(0, 3); (7, 2)] outs ∧
    output (pgraph_prim_rewrite_ranges fresh_buf
              (state PRIM_TYPE_LINE_LOOP POLY_MODE_FILL true true)
              [0; 7] [3; 2] 2) = Some (concat outs).
Proof.
  assert (Hwf : buf_wf fresh_buf) by (split; simpl; lia).
  assert (Hok : ranges_ok [(0, 3); (7, 2)]).
  { split; [repeat constructor; simpl; lia|]. split; simpl; lia. }
  split; [exact Hwf|]. split; [exact Hok|].
  apply (ranges_as_indexed fresh_buf
           (state PRIM_TYPE_LINE_LOOP POLY_MODE_FILL true true)
           [(0, 3); (7, 2)] 0 5 Hwf eq_refl Hok).
  lia.
Defined.

End prim_claims.

(** * Reasoning about the buffer set *)

Section buffer_lemmas.

Lemma covered_clean bufs w :
  covered bufs w → Forall unset bufs →
  live_buffers w = ∅ ∧ mapped_allocations w = ∅.
Proof.
  intros [Hl Hm] Hun. rewrite Forall_lookup in Hun. split.
  - apply elem_of_equiv_empty_L. intros h Hh.
    destruct (Hl h Hh) as (j & b & Hj & Hb).
    destruct (Hun j b Hj) as [Hnone _]. congruence.
  - apply elem_of_equiv_empty_L. intros h Hh.
    destruct (Hm h Hh) as (j & b & Hj & _ & Hb).
    destruct (Hun j b Hj) as [_ Hnone]. congruence.
Qed.

Lemma create_buffers_spec f : ∀ m k bufs w,
  (k + m)%nat = length bufs →
  (∀ j b, bufs !! j = Some b → (k ≤ j)%nat → unset b) →
  (∀ j b, bufs !! j = Some b → (j < k)%nat → allocation b ≠ None) →
  Forall (λ b, mapped b = None) bufs →
  covered bufs w → Forall paired bufs →
  ∃ ok bufs' w',
    create_buffers f (seq k m) bufs w = (ok, bufs', w') ∧
    ok = forallb (λ i, negb (fail_create f i)) (seq k m) ∧
    covered bufs' w' ∧ Forall paired bufs' ∧ length bufs' = length bufs ∧
    heap w' = heap w ∧ Forall (λ b, mapped b = None) bufs' ∧
    (ok = true → Forall (λ b, allocation b ≠ None) bufs').
Proof.
  induction m as [|m IH]; intros k bufs w Hlen Hun Hdone Hmap Hcov Hp.
  - exists true, bufs, w. split_and!; try done.
    intros _. apply Forall_lookup. intros j b Hj.
    apply (Hdone j b Hj). apply lookup_lt_Some in Hj. lia.
  - destruct (lookup_lt_is_Some_2 bufs k) as [b Hb]; [lia|].
    destruct (Hun k b Hb) as [Hbuf Hal]; [lia|].
    cbn [seq create_buffers forallb]. rewrite Hb.
    unfold create_buffer, vmaCreateBuffer.
    destruct (fail_create f k) eqn:Hf; cbn [negb andb].
    + exists false, (<[k := b]> bufs), w.
      rewrite list_insert_id by done. split_and!; done.
    + set (b1 := {| buffer := Some (next_handle w);
                    allocation := Some (next_handle w);
                    alloc_info := alloc_info b; usage := usage b;
                    buffer_offset := buffer_offset b;
                    buffer_size := buffer_size b; mapped := mapped b |}).
      set (w1 := {| live_buffers := {[next_handle w]} ∪ live_buffers w;
                    mapped_allocations := mapped_allocations w;
                    heap := heap w; next_handle := S (next_handle w) |}).
      assert (Hmb : mapped b = None)
        by (by eapply (proj1 (Forall_lookup _ _) Hmap)).
      destruct (IH (S k) (<[k := b1]> bufs) w1) as
        (ok & bufs' & w' & Hrun & Hok & Hcov' & Hp' & Hlen' & Hheap & Hmap' & Hall).
      * rewrite length_insert. lia.
      * intros j bj Hj Hle.
        rewrite list_lookup_insert_ne in Hj by lia. apply (Hun j bj Hj). lia.
      * intros j bj Hj Hlt. destruct (decide (j = k)) as [->|Hne].
        -- rewrite list_lookup_insert_eq in Hj by lia.
           assert (bj = b1) as -> by congruence. done.
        -- rewrite list_lookup_insert_ne in Hj by done.
           apply (Hdone j bj Hj). lia.
      * apply Forall_insert; done.
      * destruct Hcov as [Hl Hmp]. split.
        -- intros h Hh. simpl in Hh. apply elem_of_union in Hh as [Hh|Hh].
           ++ apply elem_of_singleton in Hh as ->. exists k, b1.
              rewrite list_lookup_insert_eq by lia. done.
           ++ destruct (Hl h Hh) as (j & bj & Hj & Hbj). exists j, bj.
              split; [|done]. rewrite list_lookup_insert_ne; [done|].
              intros ->. congruence.
        -- intros h Hh. simpl in Hh.
           destruct (Hmp h Hh) as (j & bj & Hj & Hmj & Haj). exists j, bj.
           split; [|done]. rewrite list_lookup_insert_ne; [done|].
           intros ->. congruence.
      * apply Forall_insert; [done|]. by unfold paired.
      * exists ok, bufs', w'. rewrite Hrun. split_and!; try done.
        by rewrite Hlen', length_insert.
Qed.

Lemma map_buffers_spec f : ∀ ixs bufs w,
  Forall (λ b, allocation b ≠ None) bufs →
  Forall (λ i, (i < length bufs)%nat) ixs →
  covered bufs w → Forall paired bufs →
  ∃ ok bufs' w',
    map_buffers f ixs bufs w = (ok, bufs', w') ∧
    ok = forallb (λ i, negb (fail_map f i)) ixs ∧
    covered bufs' w' ∧ Forall paired bufs' ∧ length bufs' = length bufs ∧
    heap w' = heap w.
Proof.
  induction ixs as [|i ixs IH]; intros bufs w Hal Hin Hcov Hp.
  - exists true, bufs, w. split_and!; done.
  - apply Forall_cons in Hin as [Hi Hin].
    destruct (lookup_lt_is_Some_2 bufs i Hi) as [b Hb].
    pose proof (proj1 (Forall_lookup _ _) Hal i b Hb) as Hab.
    destruct (allocation b) as [h|] eqn:Ha; [clear Hab|done].
    cbn [map_buffers forallb]. rewrite Hb, Ha. unfold vmaMapMemory.
    destruct (fail_map f i) eqn:Hf; cbn [negb andb].
    + exists false, bufs, w. split_and!; done.
    + set (w1 := {| live_buffers := live_buffers w;
                    mapped_allocations := {[h]} ∪ mapped_allocations w;
                    heap := heap w; next_handle := next_handle w |}).
      destruct (IH (<[i := set_mapped b (Some h)]> bufs) w1) as
        (ok & bufs' & w' & Hrun & Hok & Hcov' & Hp' & Hlen' & Hheap).
      * apply Forall_insert; [done|]. simpl. by rewrite Ha.
      * by rewrite length_insert.
      * destruct Hcov as [Hl Hmp]. split.
        -- intros x Hx. simpl in Hx.
           destruct (Hl x Hx) as (j & bj & Hj & Hbj).
           destruct (decide (j = i)) as [->|Hne].
           ++ exists i, (set_mapped b (Some h)).
              rewrite list_lookup_insert_eq by done.
              split; [done|]. simpl. congruence.
           ++ exists j, bj. by rewrite list_lookup_insert_ne by done.
        -- intros x Hx. simpl in Hx. apply elem_of_union in Hx as [Hx|Hx].
           ++ apply elem_of_singleton in Hx as ->.
              exists i, (set_mapped b (Some h)).
              rewrite list_lookup_insert_eq by done. done.
           ++ destruct (Hmp x Hx) as (j & bj & Hj & Hmj & Haj).
              destruct (decide (j = i)) as [->|Hne].
              ** exists i, (set_mapped b (Some h)).
                 rewrite list_lookup_insert_eq by done.
                 split; [done|]. simpl. split; [done|congruence].
              ** exists j, bj. by rewrite list_lookup_insert_ne by done.
      * apply Forall_insert; [done|].
        by apply (proj1 (Forall_lookup _ _) Hp i b).
      * exists ok, bufs', w'. rewrite Hrun. split_and!; try done.
        by rewrite Hlen', length_insert.
Qed.

Lemma release_buffers_spec clear : ∀ m k bufs w,
  (k + m)%nat = length bufs →
  (∀ j b, bufs !! j = Some b → (j < k)%nat → unset b) →
  covered bufs w → Forall paired bufs →
  ∃ bufs' w',
    release_buffers clear (seq k m) bufs w = (bufs', w') ∧
    covered bufs' w' ∧ Forall unset bufs' ∧ heap w' = heap w.
Proof.
  induction m as [|m IH]; intros k bufs w Hlen Hdone Hcov Hp.
  - exists bufs, w. split_and!; try done.
    apply Forall_lookup. intros j b Hj.
    apply (Hdone j b Hj). apply lookup_lt_Some in Hj. lia.
  - destruct (lookup_lt_is_Some_2 bufs k) as [b Hb]; [lia|].
    pose proof (proj1 (Forall_lookup _ _) Hp k b Hb) as Hpb.
    unfold paired in Hpb.
    cbn [seq release_buffers]. rewrite Hb.
    set (b1 := match mapped b with
               | Some _ => if clear then set_mapped b None else b
               | None => b
               end).
    set (w1 := match mapped b with
               | Some _ => vmaUnmapMemory (allocation b) w
               | None => w
               end).
    assert (Hb1 : buffer b1 = buffer b ∧ allocation b1 = allocation b)
      by (subst b1; destruct (mapped b), clear; done).
    destruct Hb1 as [Hb1 Ha1].
    assert (Hstep :
      (match mapped b with
       | Some _ =>
           (if clear then set_mapped b None else b,
            vmaUnmapMemory (allocation b) w)
       | None => (b, w)
       end) = (b1, w1)) by (subst b1 w1; by destruct (mapped b)).
    rewrite Hstep.
    assert (Hrel : ∃ b2 w2, destroy_buffer b1 w1 = (b2, w2) ∧ unset b2 ∧
                            heap w2 = heap w ∧ covered (<[k := b2]> bufs) w2).
    { unfold destroy_buffer. rewrite Hb1, Ha1, <- Hpb.
      destruct Hcov as [Hl Hmp].
      assert (Hw1l : live_buffers w1 = live_buffers w)
        by (subst w1; destruct (mapped b), (allocation b); done).
      assert (Hw1h : heap w1 = heap w)
        by (subst w1; destruct (mapped b), (allocation b); done).
      assert (Hw1m : ∀ x, x ∈ mapped_allocations w1 →
                x ∈ mapped_allocations w ∧
                (mapped b ≠ None → allocation b ≠ Some x)).
      { subst w1. intros x Hx. destruct (mapped b) as [p|]; [|done].
        destruct (allocation b) as [h|]; simpl in Hx; [|done].
        apply elem_of_difference in Hx as [Hx Hne].
        split; [done|]. intros _ [= ->]. apply Hne. by apply elem_of_singleton. }
      destruct (buffer b) as [h|] eqn:Hbuf.
      - eexists _, _. split; [done|]. split; [done|]. split; [done|]. split.
        + intros x Hx. simpl in Hx. rewrite Hw1l in Hx.
          apply elem_of_difference in Hx as [Hx Hne].
          destruct (Hl x Hx) as (j & bj & Hj & Hbj). exists j, bj.
          split; [|done]. rewrite list_lookup_insert_ne; [done|].
          intros ->. apply Hne. apply elem_of_singleton. congruence.
        + intros x Hx. simpl in Hx. destruct (Hw1m x Hx) as [Hx' Hne].
          destruct (Hmp x Hx') as (j & bj & Hj & Hmj & Haj). exists j, bj.
          split; [|done]. rewrite list_lookup_insert_ne; [done|].
          intros ->. assert (bj = b) as -> by congruence. by apply Hne.
      - exists b1, w1. split; [done|].
        split; [split; congruence|]. split; [done|]. split.
        + intros x Hx. rewrite Hw1l in Hx.
          destruct (Hl x Hx) as (j & bj & Hj & Hbj). exists j, bj.
          split; [|done]. rewrite list_lookup_insert_ne; [done|].
          intros ->. congruence.
        + intros x Hx. destruct (Hw1m x Hx) as [Hx' Hne].
          destruct (Hmp x Hx') as (j & bj & Hj & Hmj & Haj). exists j, bj.
          split; [|done]. rewrite list_lookup_insert_ne; [done|].
          intros ->. assert (bj = b) as -> by congruence. by apply Hne. }
    destruct Hrel as (b2 & w2 & Hd & Hun2 & Hheap2 & Hcov2). rewrite Hd.
    destruct (IH (S k) (<[k := b2]> bufs) w2) as (bufs' & w' & Hrun & Hcov' & Hun' & Hheap').
    + rewrite length_insert. lia.
    + intros j bj Hj Hlt. destruct (decide (j = k)) as [->|Hne].
      * rewrite list_lookup_insert_eq in Hj by lia. congruence.
      * rewrite list_lookup_insert_ne in Hj by done. apply (Hdone j bj Hj). lia.
    + done.
    + apply Forall_insert; [done|]. destruct Hun2 as [? ?]. unfold paired. congruence.
    + exists bufs', w'. rewrite Hrun. split_and!; try done. congruence.
Qed.

Lemma forallb_negb_existsb {A} (p : A → bool) (l : list A) :
  forallb (λ x, negb (p x)) l = negb (existsb p l).
Proof. induction l as [|x l IH]; simpl; [done|]. rewrite IH. by destruct (p x). Qed.

Lemma heap_freed (h : nat) (bits : list bool) (g : list bool → list bool) :
  delete h (alter g h (<[h := bits]> (∅ : gmap nat (list bool)))) = ∅.
Proof.
  apply map_empty. intros i. destruct (decide (i = h)) as [->|Hne].
  - apply lookup_delete_eq.
  - by rewrite lookup_delete_ne, lookup_alter_ne, lookup_insert_ne by done.
Qed.

(** The [fail:] path gives everything back. *)
Lemma fail_path_clean bufs w h bits g :
  length bufs = BUFFER_COUNT → covered bufs w → Forall paired bufs →
  heap w = alter g h (<[h := bits]> ∅) →
  ∃ bufs' w',
    release_buffers true (seq 0 BUFFER_COUNT) bufs w = (bufs', w') ∧
    world_clean (g_free (Some h) w').
Proof.
  intros Hlen Hcov Hp Hheap.
  destruct (release_buffers_spec true BUFFER_COUNT 0 bufs w)
    as (bufs' & w' & Hrun & Hcov' & Hun & Hheap'); [done|intros; lia|done..|].
  exists bufs', w'. split; [done|].
  destruct (covered_clean bufs' w' Hcov' Hun) as [Hl Hm].
  split; [done|]. split; [done|].
  simpl. rewrite Hheap', Hheap. apply heap_freed.
Qed.

(** *** The bump allocator *)

Lemma wrap64_small x : 0 ≤ x < 2 ^ 64 → wrap64 x = x.
Proof. intros H. unfold wrap64. by apply Z.mod_small. Qed.

Lemma total_size_nonneg data : 0 ≤ total_size data.
Proof. induction data as [|d data IH]; simpl; lia. Qed.

Lemma total_size_foldl data : ∀ acc,
  0 ≤ acc → acc + total_size data < 2 ^ 64 →
  foldl (λ total d, wrap64 (total + Z.of_nat (length d))) acc data
  = acc + total_size data.
Proof.
  induction data as [|d data IH]; intros acc Hacc Hlt; simpl in *; [lia|].
  pose proof (total_size_nonneg data).
  rewrite wrap64_small by lia. rewrite IH by lia. lia.
Qed.

Lemma ROUND_UP_range o a :
  0 < a → 0 ≤ o → o + a ≤ 2 ^ 64 →
  o ≤ ROUND_UP o a < o + a ∧ ROUND_UP o a mod a = 0.
Proof.
  intros Ha Ho Hlt. unfold ROUND_UP.
  pose proof (Z.mul_div_le (o + a - 1) a Ha).
  pose proof (Z.mul_succ_div_gt (o + a - 1) a Ha).
  rewrite wrap64_small by lia.
  split; [lia|]. apply Z_mod_mult.
Qed.

Lemma ROUND_UP_aligned o a :
  0 < a → 0 ≤ o < 2 ^ 64 → o mod a = 0 → ROUND_UP o a = o.
Proof.
  intros Ha Ho Hmod. unfold ROUND_UP.
  apply Z.mod_divide in Hmod as [q ->]; [|lia].
  replace (q * a + a - 1) with ((a - 1) + q * a) by lia.
  rewrite Z.div_add, Z.div_small by lia.
  rewrite wrap64_small; lia.
Qed.

Lemma set_offset_id b : set_offset b (buffer_offset b) = b.
Proof. by destruct b. Qed.

Lemma memcpy_app o d1 d2 :
  memcpy o (d1 ++ d2) = memcpy o d1 ++ memcpy (o + Z.of_nat (length d1)) d2.
Proof.
  unfold memcpy. rewrite imap_app. f_equal.
  apply imap_ext. intros k x _. simpl. f_equal. lia.
Qed.

Lemma append_chunks_stored a data : ∀ b stored,
  append_chunks b stored data a =
  ((append_chunks b [] data a).1, stored ++ (append_chunks b [] data a).2).
Proof.
  induction data as [|d data IH]; intros b stored; simpl.
  - by rewrite app_nil_r.
  - rewrite IH. rewrite (IH _ (memcpy _ _)). simpl. by rewrite app_assoc.
Qed.

(** The bump offset after the copy loop: aligned before each chunk,
    advanced by the size of each chunk. *)
Lemma append_chunks_offset a data : ∀ b stored,
  buffer_offset (append_chunks b stored data a).1 =
  foldl (λ o d, wrap64 (ROUND_UP o a + Z.of_nat (length d)))
    (buffer_offset b) data.
Proof.
  induction data as [|d data IH]; intros b stored; simpl; [done|].
  by rewrite IH.
Qed.

(** From an aligned offset, chunks whose sizes are multiples of the
    alignment follow one another without padding. *)
Lemma append_chunks_aligned a data : ∀ b stored,
  0 < a → 0 ≤ buffer_offset b → buffer_offset b mod a = 0 →
  buffer_offset b + total_size data < 2 ^ 64 →
  inner_sizes_aligned data a →
  append_chunks b stored data a =
  (set_offset b (buffer_offset b + total_size data),
   stored ++ memcpy (buffer_offset b) (concat data)).
Proof.
  induction data as [|d data IH]; intros b stored Ha Ho Hmod Hlt Hal.
  - simpl. by rewrite Z.add_0_r, set_offset_id, app_nil_r.
  - simpl in Hlt. pose proof (total_size_nonneg data).
    cbn [append_chunks]. cbn [set_offset buffer_offset].
    rewrite ROUND_UP_aligned by (done || lia).
    rewrite wrap64_small by lia.
    destruct data as [|d' data].
    + simpl. rewrite app_nil_r. do 2 f_equal. lia.
    + unfold inner_sizes_aligned in Hal. cbn [removelast] in Hal.
      apply Forall_cons in Hal as [Hd Hal].
      rewrite IH; cbn [set_offset buffer_offset]; try done; try lia.
      * f_equal; [f_equal; simpl; lia|].
        cbn [concat]. rewrite (memcpy_app _ d), app_assoc. done.
      * rewrite Z.add_mod, Hmod, Hd by lia. done.
Qed.

Lemma length_concat_total data :
  Z.of_nat (length (concat data)) = total_size data.
Proof.
  induction data as [|d data IH]; simpl; [done|].
  rewrite length_app. lia.
Qed.

(** Chunks that need no padding stay inside the buffer. *)
Lemma append_chunks_in_bounds b data a :
  0 < a → 0 ≤ buffer_offset b →
  buffer_offset b + a + total_size data ≤ 2 ^ 64 →
  buffer_has_space_for b (total_size data) a = true →
  data ≠ [] → inner_sizes_aligned data a →
  ∀ off x, (off, x) ∈ (append_chunks b [] data a).2 →
           0 ≤ off < buffer_size b.
Proof.
  intros Ha Ho Hlt Hsp Hne Hal off x Hin.
  pose proof (total_size_nonneg data) as Hts.
  destruct (ROUND_UP_range (buffer_offset b) a Ha Ho) as [Hr Hrm]; [lia|].
  unfold buffer_has_space_for in Hsp. rewrite wrap64_small in Hsp by lia.
  apply Z.leb_le in Hsp.
  destruct data as [|d data]; [done|].
  cbn [append_chunks] in Hin. cbn [set_offset buffer_offset app] in Hin.
  simpl in Hlt, Hts, Hsp. pose proof (total_size_nonneg data).
  rewrite wrap64_small in Hin by lia.
  assert (Hst : (append_chunks
                   (set_offset (set_offset b (ROUND_UP (buffer_offset b) a))
                      (ROUND_UP (buffer_offset b) a + Z.of_nat (length d)))
                   (memcpy (ROUND_UP (buffer_offset b) a) d) data a).2
                = memcpy (ROUND_UP (buffer_offset b) a) (concat (d :: data))).
  { destruct data as [|d' data]; [simpl; by rewrite app_nil_r|].
    unfold inner_sizes_aligned in Hal. cbn [removelast] in Hal.
    apply Forall_cons in Hal as [Hd Hal].
    rewrite append_chunks_aligned; cbn [set_offset buffer_offset fst snd];
      try done; try lia.
    - cbn [concat]. by rewrite (memcpy_app _ d).
    - rewrite Z.add_mod, Hrm, Hd by lia. done. }
  rewrite Hst in Hin. unfold memcpy in Hin.
  apply list_elem_of_lookup in Hin as [k Hk].
  rewrite list_lookup_imap in Hk.
  destruct (concat (d :: data) !! k) as [y|] eqn:Hy; [|done].
  apply lookup_lt_Some in Hy. simpl in Hk. injection Hk as <- <-.
  pose proof (length_concat_total (d :: data)) as Hlen.
  change (total_size (d :: data))
    with (Z.of_nat (length d) + total_size data) in Hlen.
  lia.
Qed.

Lemma append_to_buffer_layout (b : StorageBuffer) (data : list (list byte)) (a : Z) :
  let start := ROUND_UP (buffer_offset b) a in
  mapped b ≠ None → 0 < a → 0 ≤ buffer_offset b →
  buffer_offset b + a + total_size data ≤ 2 ^ 64 →
  buffer_has_space_for b (total_size data) a = true →
  ∃ b' stored,
    append_to_buffer b data a = Some (start, b', stored) ∧
    buffer_offset b' =
      foldl (λ o d, wrap64 (ROUND_UP o a + Z.of_nat (length d)))
        (buffer_offset b) data ∧
    (∀ d rest, data = d :: rest → ∃ tail, stored = memcpy start d ++ tail) ∧
    (data ≠ [] → inner_sizes_aligned data a →
     buffer_offset b' = start + total_size data ∧
     stored = memcpy start (concat data)) ∧
    (data = [] → b' = b ∧ stored = []).
Proof.
  intros start Hm Ha Ho Hlt Hsp.
  pose proof (total_size_nonneg data) as Hts.
  destruct (ROUND_UP_range (buffer_offset b) a Ha Ho) as [Hr Hrm]; [lia|].
  fold start in Hr, Hrm.
  exists (append_chunks b [] data a).1, (append_chunks b [] data a).2.
  split; [|split; [apply append_chunks_offset|split; [|split]]].
  - unfold append_to_buffer.
    rewrite (total_size_foldl data 0) by lia. rewrite Z.add_0_l, Hsp.
    cbn [negb]. destruct (mapped b); [|done].
    by destruct (append_chunks b [] data a).
  - intros d rest ->. cbn [append_chunks].
    rewrite append_chunks_stored. cbn [snd set_offset buffer_offset].
    eexists. reflexivity.
  - intros Hne Hal. destruct data as [|d data]; [done|].
    cbn [append_chunks]. cbn [set_offset buffer_offset app]. fold start.
    simpl in Hlt, Hts. pose proof (total_size_nonneg data).
    rewrite wrap64_small by lia.
    destruct data as [|d' data].
    + simpl. split; [lia|]. by rewrite app_nil_r.
    + unfold inner_sizes_aligned in Hal. cbn [removelast] in Hal.
      apply Forall_cons in Hal as [Hd Hal].
      rewrite append_chunks_aligned; cbn [set_offset buffer_offset fst snd];
        try done; try lia.
      * split; [simpl; lia|]. cbn [concat]. by rewrite (memcpy_app _ d).
      * rewrite Z.add_mod, Hrm, Hd by lia. done.
  - by intros ->.
Qed.

End buffer_lemmas.

(** * The claims about the buffer set *)

Section buffer_claims.

(** C9: creation fails exactly when one of its steps is set to fail, the
    allocation of the bitmap, the creation of one of the buffers or the
    mapping of one of the four mapped buffers; and when it has failed,
    no buffer is left allocated, no allocation is left mapped, and the
    bitmap is freed and its pointer reset. *)
Theorem init_buffers_all_or_nothing (cfg : Config) (f : Faults) (vram : Z)
    (r : PGRAPHVkState) (w : World) :
  length (storage_buffers r) = BUFFER_COUNT → world_clean w →
  ∃ ok r' w',
    pgraph_vk_init_buffers cfg f vram r w = (ok, r', w') ∧
    ok = negb (creation_fails f) ∧
    (ok = false → world_clean w' ∧ uploaded_bitmap r' = None).
Proof.
  intros Hlen (Hl & Hm & Hh).
  unfold pgraph_vk_init_buffers, creation_fails.
  destruct (storage_buffers r)
    as [|b0 [|b1 [|b2 [|b3 [|b4 [|b5 [|b6 [|b7 [|b8 [|b9 [|b10 [|]]]]]]]]]]]];
    try discriminate. clear Hlen.
  unfold bitmap_new. destruct (fail_bitmap f) eqn:Hfb.
  - eexists _, _, _. split; [reflexivity|]. split; [done|]. done.
  - cbn [orb]. cbv zeta. unfold bitmap_clear.
    match goal with
    | |- context [create_buffers f ?ixs ?L ?W] =>
        set (bufs := L); set (w1 := W)
    end.
    assert (Hnew : Forall (λ b, unset b ∧ mapped b = None) bufs)
      by (subst bufs; repeat constructor).
    assert (Hlen : length bufs = 11%nat) by (subst bufs; reflexivity).
    assert (Hcov : covered bufs w1).
    { split; intros h Hh'; simpl in Hh'; [rewrite Hl in Hh'|rewrite Hm in Hh'];
        by apply elem_of_empty in Hh'. }
    assert (Hheap : heap w1 =
              alter (λ bits,
                       take (Z.to_nat 0) bits
                       ++ replicate (Z.to_nat (vram / 4096)) false
                       ++ drop (Z.to_nat (0 + vram / 4096)) bits)
                (next_handle w)
                (<[next_handle w := replicate (Z.to_nat (vram / 4096)) false]> ∅))
      by (subst w1; simpl; by rewrite Hh).
    clearbody bufs w1.
    destruct (create_buffers_spec f 11 0 bufs w1) as
      (ok & bufs1 & w2 & Hrun & Hok & Hcov1 & Hp1 & Hlen1 & Hheap1 & _ & Hall).
    { by rewrite Hlen. }
    { intros j b Hj _. by destruct (proj1 (Forall_lookup _ _) Hnew j b Hj). }
    { intros j b Hj Hlt. lia. }
    { eapply Forall_impl; [exact Hnew|]. by intros b [_ ?]. }
    { done. }
    { eapply Forall_impl; [exact Hnew|]. intros b [[? ?] _].
      unfold paired. congruence. }
    change (seq 0 BUFFER_COUNT) with (seq 0 11). rewrite Hrun.
    rewrite forallb_negb_existsb in Hok.
    destruct ok.
    + destruct (map_buffers_spec f buffers_to_map bufs1 w2) as
        (ok2 & bufs2 & w3 & Hrun2 & Hok2 & Hcov2 & Hp2 & Hlen2 & Hheap2);
        [by apply Hall| |done..|].
      { rewrite Hlen1, Hlen. unfold buffers_to_map.
        repeat constructor; compute; lia. }
      rewrite Hrun2. rewrite forallb_negb_existsb in Hok2.
      destruct ok2.
      * eexists _, _, _. split; [reflexivity|]. split; [|done].
        apply (f_equal negb) in Hok, Hok2. rewrite negb_involutive in Hok, Hok2.
        by rewrite <- Hok, <- Hok2.
      * edestruct (fail_path_clean bufs2 w3 (next_handle w))
          as (bufs' & w' & Hrel & Hclean);
          [unfold BUFFER_COUNT; congruence|done|done|rewrite Hheap2, Hheap1; exact Hheap|].
        change (seq 0 11) with (seq 0 BUFFER_COUNT). rewrite Hrel.
        eexists _, _, _. split; [reflexivity|]. split; [|done].
        apply (f_equal negb) in Hok2. rewrite negb_involutive in Hok2.
        rewrite <- Hok2. by rewrite orb_true_r.
    + edestruct (fail_path_clean bufs1 w2 (next_handle w))
        as (bufs' & w' & Hrel & Hclean);
        [unfold BUFFER_COUNT; congruence|done|done|rewrite Hheap1; exact Hheap|].
      change (seq 0 11) with (seq 0 BUFFER_COUNT). rewrite Hrel.
      eexists _, _, _. split; [reflexivity|]. split; [|done].
      apply (f_equal negb) in Hok. rewrite negb_involutive in Hok.
      change (seq 0 11) with (seq 0 BUFFER_COUNT) in Hok.
      by rewrite <- Hok.
Qed.

Lemma init_buffers_all_or_nothing_witness :
  length (storage_buffers blank_state) = BUFFER_COUNT ∧
  world_clean empty_world ∧
  ∃ ok r' w',
    pgraph_vk_init_buffers
      {| android := true; sizeof_inline_elements := 524284;
         NV2A_VERTEXSHADER_ATTRIBUTES := 16; NV2A_MAX_BATCH_LENGTH := 131071 |}
      {| fail_create := λ _, false;
         fail_map := λ i, bool_decide (i = BUFFER_VERTEX_INLINE_STAGING);
         fail_bitmap := false |}
      (64 * 1024 * 1024) blank_state empty_world = (ok, r', w') ∧
    ok = negb (creation_fails
                 {| fail_create := λ _, false;
                    fail_map := λ i, bool_decide (i = BUFFER_VERTEX_INLINE_STAGING);
                    fail_bitmap := false |}) ∧
    (ok = false → world_clean w' ∧ uploaded_bitmap r' = None).
Proof.
  assert (H1 : length (storage_buffers blank_state) = BUFFER_COUNT)
    by reflexivity.
  assert (H2 : world_clean empty_world) by (repeat split; reflexivity).
  split; [exact H1|]. split; [exact H2|].
  exact (init_buffers_all_or_nothing _ _ _ blank_state empty_world H1 H2).
Defined.

(** C2, at a failing input: the uniform staging buffer of 8 MiB with 256
    bytes left, an alignment of 256 and two chunks of 129 and 127 bytes.
    The capacity check passes for their 256 bytes, the second chunk is
    aligned again and stored from offset 8388608 on, the size of the
    buffer, and the bump offset ends past it. *)
Lemma append_stores_past_the_end :
  let b := mapped_buffer 8388608 (8388608 - 256) in
  let r := with_buffer blank_state BUFFER_UNIFORM_STAGING b in
  let data := [replicate 129 "000"%byte; replicate 127 "001"%byte] in
  pgraph_vk_buffer_has_space_for r BUFFER_UNIFORM_STAGING 256 256 = Some true ∧
  ∃ r' b' stored,
    pgraph_vk_append_to_buffer r BUFFER_UNIFORM_STAGING data 256
    = Some (8388352, r', stored) ∧
    storage_buffers r' !! BUFFER_UNIFORM_STAGING = Some b' ∧
    stored !! 129%nat = Some (buffer_size b, "001"%byte) ∧
    buffer_size b' = buffer_size b ∧
    buffer_size b' < buffer_offset b'.
Proof.
  split; [reflexivity|]. eexists _, _, _.
  split; [vm_compute; reflexivity|]. repeat split; reflexivity.
Qed.

(** C3, at a failing input: two chunks of one byte and an alignment of
    4, in a mapped buffer of 64 bytes with its bump offset at 0.  The
    capacity check and the assertion count one alignment and the two
    bytes; the copy loop aligns the bump offset again before the second
    chunk: the chunks are stored at offsets 0 and 4, with three bytes of
    padding between them, and the bump offset ends at 5, not at
    [roundUp(0, 4) + 2]. *)
Lemma append_pads_between_chunks :
  let r := with_buffer blank_state BUFFER_INDEX_STAGING (mapped_buffer 64 0) in
  pgraph_vk_buffer_has_space_for r BUFFER_INDEX_STAGING 2 4 = Some true ∧
  ∃ r' b' stored,
    pgraph_vk_append_to_buffer r BUFFER_INDEX_STAGING
      [["001"%byte]; ["002"%byte]] 4 = Some (0, r', stored) ∧
    storage_buffers r' !! BUFFER_INDEX_STAGING = Some b' ∧
    stored = [(0, "001"%byte); (4, "002"%byte)] ∧
    buffer_offset b' = 5 ∧
    buffer_offset b' ≠ ROUND_UP 0 4 + 2.
Proof.
  split; [vm_compute; reflexivity|].
  eexists _, _, _. split; [vm_compute; reflexivity|].
  split; [reflexivity|]. split; [reflexivity|].
  split; [vm_compute; reflexivity|]. vm_compute. discriminate.
Qed.

(** X18: [append] returns [roundUp(old, alignment)], the aligned offset
    at which the first chunk is stored, whatever the chunks.  When there
    is a chunk and every chunk but the last has a size that is a
    multiple of the alignment, as for a single chunk, the chunks are
    stored one after the other without padding and the bump offset ends
    at [roundUp(old, alignment)] plus the sum of the sizes. *)
Theorem append_layout (r : PGRAPHVkState) (index : nat) (b : StorageBuffer)
    (data : list (list byte)) (a : Z) :
  let start := ROUND_UP (buffer_offset b) a in
  storage_buffers r !! index = Some b →
  mapped b ≠ None → 0 < a → 0 ≤ buffer_offset b →
  buffer_offset b + a + total_size data ≤ 2 ^ 64 →
  pgraph_vk_buffer_has_space_for r index (total_size data) a = Some true →
  ∃ r' b' stored,
    pgraph_vk_append_to_buffer r index data a = Some (start, r', stored) ∧
    storage_buffers r' = <[index := b']> (storage_buffers r) ∧
    (∀ d rest, data = d :: rest → ∃ tail, stored = memcpy start d ++ tail) ∧
    (data ≠ [] → inner_sizes_aligned data a →
     buffer_offset b' = start + total_size data ∧
     stored = memcpy start (concat data)).
Proof.
  intros start Hb Hm Ha Ho Hlt Hsp.
  unfold pgraph_vk_buffer_has_space_for in Hsp. rewrite Hb in Hsp.
  injection Hsp as Hsp.
  destruct (append_to_buffer_layout b data a Hm Ha Ho Hlt Hsp)
    as (b' & stored & Hrun & _ & Hfirst & Haligned & _).
  exists (with_buffer r index b'), b', stored.
  split; [|split; [done|split; [exact Hfirst|exact Haligned]]].
  unfold pgraph_vk_append_to_buffer. rewrite Hb. cbn [mbind option_bind].
  by rewrite Hrun.
Qed.

Lemma append_layout_witness :
  let r := with_buffer blank_state BUFFER_INDEX_STAGING (mapped_buffer 64 3) in
  let data := [["001"%byte; "002"%byte; "003"%byte; "004"%byte]; ["005"%byte]] in
  storage_buffers r !! BUFFER_INDEX_STAGING = Some (mapped_buffer 64 3) ∧
  pgraph_vk_buffer_has_space_for r BUFFER_INDEX_STAGING 5 4 = Some true ∧
  ∃ r' b' stored,
    pgraph_vk_append_to_buffer r BUFFER_INDEX_STAGING data 4
    = Some (ROUND_UP 3 4, r', stored) ∧
    storage_buffers r' = <[BUFFER_INDEX_STAGING := b']> (storage_buffers r) ∧
    (∀ d rest, data = d :: rest →
               ∃ tail, stored = memcpy (ROUND_UP 3 4) d ++ tail) ∧
    (data ≠ [] → inner_sizes_aligned data 4 →
     buffer_offset b' = ROUND_UP 3 4 + total_size data ∧
     stored = memcpy (ROUND_UP 3 4) (concat data)).
Proof.
  intros r data.
  split; [reflexivity|]. split; [reflexivity|].
  apply (append_layout r BUFFER_INDEX_STAGING (mapped_buffer 64 3) data 4);
    [reflexivity|discriminate|lia|simpl; lia|simpl; lia|reflexivity].
Defined.

End buffer_claims.

(** * The structure of the rewritten index stream *)

Section output_structure.

Lemma writes_sat_ext c1 c2 k P :
  (∀ r, c1 r = c2 r) → writes_sat c1 k P → writes_sat c2 k P.
Proof.
  intros Heq (E & HE & HP & H). exists E. split_and!; [done..|].
  by eapply writes_ext.
Qed.

Lemma writes_sat_weaken c k k' (P P' : list Z → Prop) :
  k = k' → (∀ E, length E = k → P E → P' E) →
  writes_sat c k P → writes_sat c k' P'.
Proof. intros <- HPP (E & HE & HP & H). exists E. split_and!; auto. Qed.

Lemma ws_ret (P : list Z → Prop) : P [] → writes_sat Some 0 P.
Proof. intros HP. exists []. split_and!; [done..|apply writes_ret]. Qed.

Lemma ws_bind c1 c2 k1 k2 (P1 P2 P : list Z → Prop) :
  writes_sat c1 k1 P1 → writes_sat c2 k2 P2 →
  (∀ E1 E2, length E1 = k1 → length E2 = k2 → P1 E1 → P2 E2 → P (E1 ++ E2)) →
  writes_sat (λ r, r' ← c1 r; c2 r') (k1 + k2) P.
Proof.
  intros (E1 & HE1 & HP1 & H1) (E2 & HE2 & HP2 & H2) HP. exists (E1 ++ E2).
  split_and!; [rewrite length_app; lia|by apply HP|by apply writes_bind].
Qed.

Lemma ws_bind_pair c1 c2 k1 k2 (P1 P2 : list Z → Prop) :
  writes_sat c1 k1 P1 → writes_sat c2 k2 P2 →
  writes_sat (λ r, r' ← c1 r; c2 r') (k1 + k2)
    (λ E, ∃ E1 E2, E = E1 ++ E2 ∧ P1 E1 ∧ P2 E2).
Proof.
  intros H1 H2. eapply ws_bind; [exact H1|exact H2|].
  intros E1 E2 _ _ ? ?. by exists E1, E2.
Qed.

Lemma loop_positions_nil count a s i :
  ¬ i + a < count → loop_positions count a s i = [].
Proof.
  intros H. unfold loop_positions, iters.
  by rewrite (proj2 (Z.ltb_ge _ _)) by lia.
Qed.

Lemma loop_positions_cons count a s i :
  0 < s → i + a < count →
  loop_positions count a s i = i :: loop_positions count a s (i + s).
Proof.
  intros Hs Hi. unfold loop_positions. rewrite iters_step by done.
  pose proof (iters_nonneg count a s (i + s) Hs).
  rewrite Z2Nat.inj_add by lia. change (Z.to_nat 1) with 1%nat.
  cbn [Nat.add seq fmap list_fmap]. f_equal; [lia|].
  rewrite <- fmap_S_seq, <- list_fmap_compose.
  apply list_fmap_ext. intros _ k _. simpl. lia.
Qed.

Lemma lookup_loop_positions count a s (k : nat) j :
  loop_positions count a s 0 !! k = Some j → j = s * Z.of_nat k.
Proof.
  unfold loop_positions. rewrite list_lookup_fmap.
  destruct (seq 0 _ !! k) as [k'|] eqn:Hk; [|done].
  apply lookup_seq in Hk as [-> _]. simpl. intros [= <-]. lia.
Qed.

Lemma length_loop_positions count a s i :
  length (loop_positions count a s i) = Z.to_nat (iters count a s i).
Proof. unfold loop_positions. by rewrite length_fmap, length_seq. Qed.

(** The loop stores one group for each of its iterations. *)
Lemma ws_for_loop (count a s : Z) (k : nat) (P : Z → list Z → Prop) body :
  0 ≤ a → 0 < s → count + a + s ≤ 2 ^ 32 →
  (∀ i, 0 ≤ i → i + a < count → writes_sat (body i) k (P i)) →
  ∀ fuel i, 0 ≤ i < count + s → count - i ≤ Z.of_nat fuel →
    writes_sat (for_loop fuel (λ i, wrap32 (i + a) <? count) s body i)
      (k * Z.to_nat (iters count a s i))
      (grouped k P (loop_positions count a s i)).
Proof.
  intros Ha Hs Hc Hbody fuel.
  induction fuel as [|fuel IH]; intros i Hi Hfuel.
  - assert (Hcond : (wrap32 (i + a) <? count) = false).
    { rewrite wrap32_small by lia. apply Z.ltb_ge. lia. }
    apply (writes_sat_ext Some); [intros r; simpl; by rewrite Hcond|].
    rewrite loop_positions_nil by lia.
    unfold iters. rewrite (proj2 (Z.ltb_ge _ _)) by lia.
    rewrite Nat.mul_0_r. apply ws_ret. exists []. split; [done|constructor].
  - destruct (Z.ltb_spec (i + a) count) as [Hlt|Hge].
    + apply (writes_sat_ext
               (λ r, r' ← body i r;
                     for_loop fuel (λ i, wrap32 (i + a) <? count) s body (i + s) r')).
      { intros r. simpl. rewrite (wrap32_small (i + a)) by lia.
        rewrite (proj2 (Z.ltb_lt _ _) Hlt).
        by rewrite (wrap32_small (i + s)) by lia. }
      rewrite iters_step, loop_positions_cons by lia.
      pose proof (iters_nonneg count a s (i + s) Hs).
      replace (k * Z.to_nat (1 + iters count a s (i + s)))%nat
        with (k + k * Z.to_nat (iters count a s (i + s)))%nat by lia.
      eapply ws_bind; [by apply Hbody; lia|apply IH; lia|].
      intros E1 E2 HE1 _ HP1 (Gs & -> & HGs).
      exists (E1 :: Gs). split; [done|]. by constructor.
    + apply (writes_sat_ext Some).
      { intros r. simpl. rewrite wrap32_small by lia.
        by rewrite (proj2 (Z.ltb_ge _ _) Hge). }
      rewrite loop_positions_nil by lia.
      unfold iters. rewrite (proj2 (Z.ltb_ge _ _) Hge).
      rewrite Nat.mul_0_r. apply ws_ret. exists []. split; [done|constructor].
Qed.

Lemma grouped_Forall k (S : Z → Prop) js E :
  grouped k (λ _, Forall S) js E → Forall S E.
Proof.
  intros (Gs & -> & HGs). apply Forall_concat.
  induction HGs as [|j g js Gs [_ Hg] _ IH]; by constructor.
Qed.

(** What holds of everything a decomposition can store holds of what it
    emits. *)
Lemma emitted_sat mode idx base count (P : list Z → Prop) :
  0 ≤ count < 2 ^ 30 →
  writes_sat (λ r, rewrite_indices r mode idx base count)
    (Z.to_nat (emitted_count (primitive_mode mode) (polygon_mode mode) count)) P →
  P (emitted mode idx base count).
Proof.
  intros Hc (E & HE & HP & HW).
  pose proof (emitted_count_range count Hc (primitive_mode mode) (polygon_mode mode)).
  assert (emitted mode idx base count = E) as ->; [|done].
  unfold emitted. rewrite <- HE.
  pose proof (HW (replicate (length E) 0) 0%nat) as Hrun.
  rewrite length_replicate in Hrun. change (Z.of_nat 0) with 0 in Hrun.
  rewrite Hrun by lia.
  simpl. apply view_splice. by rewrite length_replicate.
Qed.

End output_structure.

(** ** Every index emitted is an input index *)

Section membership.
Context (idx : option (list Z)) (base count : Z).
Hypothesis Hcount : 0 ≤ count < 2 ^ 30.
Hypothesis Hidx : idx_ok idx count.

Local Abbreviation S := (input_value idx base count).

Lemma ws_eq c k k' (P : list Z → Prop) :
  k = k' → writes_sat c k P → writes_sat c k' P.
Proof. by intros ->. Qed.

Lemma ws_in_vertex v : S v → writes_sat (λ r, emit_vertex r v) 1 (Forall S).
Proof.
  intros Hv. exists [v]. split_and!; [done|by constructor|apply writes_emit_vertex].
Qed.

Lemma ws_in_bind c1 c2 k1 k :
  writes_sat c1 k1 (Forall S) → (k1 ≤ k)%nat →
  writes_sat c2 (k - k1) (Forall S) →
  writes_sat (λ r, r' ← c1 r; c2 r') k (Forall S).
Proof.
  intros H1 Hle H2. replace k with (k1 + (k - k1))%nat by lia.
  eapply ws_bind; [done..|]. intros E1 E2 _ _ ? ?. by apply Forall_app.
Qed.

Lemma ws_in_line a b :
  S a → S b → writes_sat (λ r, emit_line r a b) 2 (Forall S).
Proof. intros. apply (ws_in_bind _ _ 1); [|lia|]; by apply ws_in_vertex. Qed.

Lemma ws_in_line_pv a b p :
  S a → S b → writes_sat (λ r, emit_line_pv r a b p) 2 (Forall S).
Proof. intros. unfold emit_line_pv. destruct (p =? a); by apply ws_in_line. Qed.

Lemma ws_in_tri a b c :
  S a → S b → S c → writes_sat (λ r, emit_tri r a b c) 3 (Forall S).
Proof.
  intros. apply (ws_in_bind _ _ 1); [by apply ws_in_vertex|lia|].
  apply (ws_in_bind _ _ 1); [|simpl; lia|]; by apply ws_in_vertex.
Qed.

Lemma ws_in_tri_pv a b c p :
  S a → S b → S c → writes_sat (λ r, emit_tri_pv r a b c p) 3 (Forall S).
Proof.
  intros. unfold emit_tri_pv.
  destruct (p =? a); [|destruct (p =? b)]; by apply ws_in_tri.
Qed.

Lemma ws_in_loop (a s : Z) (k n : nat) body :
  0 ≤ a → 0 < s → count + a + s ≤ 2 ^ 32 →
  (k * Z.to_nat (iters count a s 0))%nat = n →
  (∀ i, 0 ≤ i → i + a < count → writes_sat (body i) k (Forall S)) →
  writes_sat (for_loop (Z.to_nat count) (λ i, wrap32 (i + a) <? count) s body 0)
    n (Forall S).
Proof.
  intros Ha Hs Hc Hn Hbody.
  eapply writes_sat_weaken;
    [exact Hn| |apply (ws_for_loop count a s k (λ _, Forall S)); try done; lia].
  intros E _. apply grouped_Forall.
Qed.

(** Discharges the reads of a loop body and records where each value
    comes from. *)
Ltac reads_in :=
  rewrite ?wrap32_small by lia;
  repeat match goal with
  | Hok : idx_ok ?idx ?count |- context [idx_at ?idx ?j ?base] =>
      let v := fresh "v" in
      let Hv := fresh "Hv" in
      destruct (idx_at_ok idx base count j Hok) as [v Hv]; [lia|];
      rewrite Hv; simpl;
      assert (input_value idx base count v) by (exists j; split; [lia|exact Hv]);
      clear Hv
  end.

Ltac emit_leaf_in :=
  first [ apply ws_in_line_pv | apply ws_in_tri_pv
        | apply ws_in_line | apply ws_in_tri | apply ws_in_vertex ];
  assumption.

Ltac emits_in :=
  first
    [ emit_leaf_in
    | eapply ws_in_bind; [emit_leaf_in | simpl; lia | simpl; emits_in]
    | match goal with
      | |- writes_sat (λ r, if ?b then _ else _) _ _ => destruct b; emits_in
      end ].

Lemma in_rewrite_lines lp :
  writes_sat (λ r, rewrite_lines r idx base count lp)
    (Z.to_nat (emitted_count PRIM_TYPE_LINES POLY_MODE_FILL count)) (Forall S).
Proof.
  unfold rewrite_lines. apply (ws_in_loop 1 2 2); try lia.
  - rewrite iters_div by lia. simpl. lia.
  - intros i Hi Hlt. reads_in. emits_in.
Qed.

Lemma in_rewrite_line_strip lp :
  writes_sat (λ r, rewrite_line_strip r idx base count lp)
    (Z.to_nat (emitted_count PRIM_TYPE_LINE_STRIP POLY_MODE_FILL count))
    (Forall S).
Proof.
  unfold rewrite_line_strip. apply (ws_in_loop 1 1 2); try lia.
  - rewrite iters_unit by lia. simpl. destruct (Z.leb_spec 2 count); lia.
  - intros i Hi Hlt. reads_in. emits_in.
Qed.

Lemma in_rewrite_line_loop lp :
  writes_sat (λ r, rewrite_line_loop r idx base count lp)
    (Z.to_nat (emitted_count PRIM_TYPE_LINE_LOOP POLY_MODE_FILL count))
    (Forall S).
Proof.
  unfold rewrite_line_loop. simpl.
  destruct (Z.ltb_spec count 2) as [Hlt|Hge].
  - rewrite (proj2 (Z.leb_gt _ _)) by lia. by apply ws_ret.
  - rewrite (proj2 (Z.leb_le _ _)) by lia.
    apply (ws_in_bind _ _ (Z.to_nat (2 * (count - 1)))); [|lia|].
    + apply (ws_in_loop 1 1 2); try lia.
      * rewrite iters_unit by lia. lia.
      * intros i Hi Hlt. reads_in. emits_in.
    + apply (ws_eq _ 2); [lia|]. reads_in. emits_in.
Qed.

Lemma in_rewrite_triangles lp :
  writes_sat (λ r, rewrite_triangles r idx base count lp)
    (Z.to_nat (emitted_count PRIM_TYPE_TRIANGLES POLY_MODE_FILL count))
    (Forall S).
Proof.
  unfold rewrite_triangles. apply (ws_in_loop 2 3 3); try lia.
  - rewrite iters_div by lia. simpl. lia.
  - intros i Hi Hlt. reads_in. emits_in.
Qed.

Lemma in_rewrite_triangle_strip lp :
  writes_sat (λ r, rewrite_triangle_strip r idx base count lp)
    (Z.to_nat (emitted_count PRIM_TYPE_TRIANGLE_STRIP POLY_MODE_FILL count))
    (Forall S).
Proof.
  unfold rewrite_triangle_strip. apply (ws_in_loop 2 1 3); try lia.
  - rewrite iters_unit by lia. simpl. destruct (Z.leb_spec 3 count); lia.
  - intros i Hi Hlt. reads_in. emits_in.
Qed.

Lemma in_rewrite_triangle_fan lp :
  writes_sat (λ r, rewrite_triangle_fan r idx base count lp)
    (Z.to_nat (emitted_count PRIM_TYPE_TRIANGLE_FAN POLY_MODE_FILL count))
    (Forall S).
Proof.
  unfold rewrite_triangle_fan. simpl.
  destruct (Z.ltb_spec count 3) as [Hlt|Hge].
  - rewrite (proj2 (Z.leb_gt _ _)) by lia. by apply ws_ret.
  - rewrite (proj2 (Z.leb_le _ _)) by lia. reads_in.
    apply (ws_in_loop 2 1 3); try lia.
    + rewrite iters_unit by lia. lia.
    + intros i Hi Hlt. reads_in. emits_in.
Qed.

Lemma in_rewrite_quads fs :
  writes_sat (λ r, rewrite_quads r idx base count fs)
    (Z.to_nat (emitted_count PRIM_TYPE_QUADS POLY_MODE_FILL count)) (Forall S).
Proof.
  unfold rewrite_quads. apply (ws_in_loop 3 4 6); try lia.
  - rewrite iters_div by lia. simpl. lia.
  - intros i Hi Hlt. reads_in. emits_in.
Qed.

Lemma in_rewrite_quads_line :
  writes_sat (λ r, rewrite_quads_line r idx base count)
    (Z.to_nat (emitted_count PRIM_TYPE_QUADS POLY_MODE_LINE count)) (Forall S).
Proof.
  unfold rewrite_quads_line. apply (ws_in_loop 3 4 8); try lia.
  - rewrite iters_div by lia. simpl. lia.
  - intros i Hi Hlt. reads_in. emits_in.
Qed.

Lemma in_rewrite_quad_strip fs :
  writes_sat (λ r, rewrite_quad_strip r idx base count fs)
    (Z.to_nat (emitted_count PRIM_TYPE_QUAD_STRIP POLY_MODE_FILL count))
    (Forall S).
Proof.
  unfold rewrite_quad_strip. simpl.
  destruct (Z.ltb_spec count 4) as [Hlt|Hge].
  - rewrite (proj2 (Z.leb_gt _ _)) by lia. by apply ws_ret.
  - rewrite (proj2 (Z.leb_le _ _)) by lia.
    apply (ws_in_loop 3 2 6); try lia.
    + rewrite iters_window by lia.
      pose proof (Z.div_pos (count - 2) 2). lia.
    + intros i Hi Hlt. reads_in. emits_in.
Qed.

Lemma in_rewrite_quad_strip_line :
  writes_sat (λ r, rewrite_quad_strip_line r idx base count)
    (Z.to_nat (emitted_count PRIM_TYPE_QUAD_STRIP POLY_MODE_LINE count))
    (Forall S).
Proof.
  unfold rewrite_quad_strip_line. simpl.
  destruct (Z.ltb_spec count 4) as [Hlt|Hge].
  - rewrite (proj2 (Z.leb_gt _ _)) by lia. by apply ws_ret.
  - rewrite (proj2 (Z.leb_le _ _)) by lia.
    apply (ws_in_loop 3 2 8); try lia.
    + rewrite iters_window by lia.
      pose proof (Z.div_pos (count - 2) 2). lia.
    + intros i Hi Hlt. reads_in. emits_in.
Qed.

Lemma in_rewrite_polygon :
  writes_sat (λ r, rewrite_polygon r idx base count)
    (Z.to_nat (emitted_count PRIM_TYPE_POLYGON POLY_MODE_FILL count)) (Forall S).
Proof.
  unfold rewrite_polygon. simpl.
  destruct (Z.ltb_spec count 3) as [Hlt|Hge].
  - rewrite (proj2 (Z.leb_gt _ _)) by lia. by apply ws_ret.
  - rewrite (proj2 (Z.leb_le _ _)) by lia. reads_in.
    apply (ws_in_loop 2 1 3); try lia.
    + rewrite iters_unit by lia. lia.
    + intros i Hi Hlt. reads_in. emits_in.
Qed.

Lemma in_rewrite_polygon_line :
  writes_sat (λ r, rewrite_polygon_line r idx base count)
    (Z.to_nat (emitted_count PRIM_TYPE_POLYGON POLY_MODE_LINE count)) (Forall S).
Proof.
  unfold rewrite_polygon_line. simpl.
  destruct (Z.ltb_spec count 2) as [Hlt|Hge].
  - rewrite (proj2 (Z.leb_gt _ _)) by lia. by apply ws_ret.
  - rewrite (proj2 (Z.leb_le _ _)) by lia.
    apply (ws_in_bind _ _ (Z.to_nat (2 * (count - 1)))); [|lia|].
    + apply (ws_in_loop 1 1 2); try lia.
      * rewrite iters_unit by lia. lia.
      * intros i Hi Hlt. reads_in. emits_in.
    + apply (ws_eq _ 2); [lia|]. reads_in. emits_in.
Qed.

Lemma in_rewrite_indices mode :
  primitive_mode mode ≠ PRIM_TYPE_POINTS →
  writes_sat (λ r, rewrite_indices r mode idx base count)
    (Z.to_nat (emitted_count (primitive_mode mode) (polygon_mode mode) count))
    (Forall S).
Proof.
  intros Hpt. unfold rewrite_indices.
  destruct (primitive_mode mode); try done;
    first [ apply in_rewrite_lines | apply in_rewrite_line_strip
          | apply in_rewrite_line_loop | apply in_rewrite_triangles
          | apply in_rewrite_triangle_strip | apply in_rewrite_triangle_fan
          | idtac ];
    destruct (polygon_mode mode); simpl;
    first [ apply in_rewrite_quads | apply in_rewrite_quads_line
          | apply in_rewrite_quad_strip | apply in_rewrite_quad_strip_line
          | apply in_rewrite_polygon | apply in_rewrite_polygon_line ].
Qed.

Lemma emitted_in mode :
  primitive_mode mode ≠ PRIM_TYPE_POINTS →
  Forall S (emitted mode idx base count).
Proof.
  intros Hpt. apply (emitted_sat mode idx base count (Forall S) Hcount).
  by apply in_rewrite_indices.
Qed.

End membership.

(** ** The segments and the triangles of the output *)

Section primitives.
Context (input : list Z).
Hypothesis Hn : Z.of_nat (length input) < 2 ^ 30.

Local Abbreviation n := (Z.of_nat (length input)).
Local Abbreviation c := (λ j : Z, corner input (Z.to_nat j)).

Lemma idx_at_corner j :
  0 ≤ j < n → idx_at (Some input) j 0 = Some (c j).
Proof.
  intros Hj. unfold idx_at, corner.
  destruct (lookup_lt_is_Some_2 input (Z.to_nat j)) as [v Hv]; [lia|].
  by rewrite Hv.
Qed.

Lemma writes_emit_line a b : writes (λ r, emit_line r a b) [a; b].
Proof. apply (writes_bind _ _ [a] [b]); apply writes_emit_vertex. Qed.

Lemma writes_emit_tri a b d : writes (λ r, emit_tri r a b d) [a; b; d].
Proof.
  apply (writes_bind _ _ [a] [b; d]); [apply writes_emit_vertex|].
  apply (writes_bind _ _ [b] [d]); apply writes_emit_vertex.
Qed.

(** The provoking end point of a segment comes first. *)
Lemma ws_line_pv a b (lp : bool) :
  writes_sat (λ r, emit_line_pv r a b (if lp then b else a)) 2
    (λ g, g = if lp then [b; a] else [a; b]).
Proof.
  unfold emit_line_pv. destruct lp.
  - destruct (Z.eqb_spec b a) as [->|Hne].
    + exists [a; a]. split_and!; [done..|apply writes_emit_line].
    + exists [b; a]. split_and!; [done..|apply writes_emit_line].
  - rewrite Z.eqb_refl. exists [a; b]. split_and!; [done..|apply writes_emit_line].
Qed.

(** A triangle is emitted from its provoking vertex on, in its own
    winding order. *)
Lemma ws_tri_pv a b d p :
  p = a ∨ p = b ∨ p = d →
  writes_sat (λ r, emit_tri_pv r a b d p) 3
    (λ g, rotation_of g (a, b, d) ∧ head g = Some p).
Proof.
  intros Hp. unfold emit_tri_pv, rotation_of.
  destruct (Z.eqb_spec p a) as [->|Ha].
  - exists [a; b; d]. split_and!; [done|by left|done|apply writes_emit_tri].
  - destruct (Z.eqb_spec p b) as [->|Hb].
    + exists [b; d; a].
      split_and!; [done|by right; left|done|apply writes_emit_tri].
    + assert (p = d) as -> by (by destruct Hp as [?|[?|?]]).
      exists [d; a; b].
      split_and!; [done|by right; right|done|apply writes_emit_tri].
Qed.

Lemma grouped_lookup k (P : Z → list Z → Prop) count a s E :
  grouped k P (loop_positions count a s 0) E →
  ∃ Gs, E = concat Gs ∧
        length Gs = Z.to_nat (iters count a s 0) ∧
        ∀ (i : nat) g, Gs !! i = Some g → P (s * Z.of_nat i) g.
Proof.
  intros (Gs & -> & HGs). exists Gs. split; [done|]. split.
  - by rewrite <- (Forall2_length _ _ _ HGs), length_loop_positions.
  - intros i g Hi.
    destruct (Forall2_lookup_r _ _ _ _ _ HGs Hi) as (j & Hj & _ & HP).
    by rewrite <- (lookup_loop_positions _ _ _ _ _ Hj).
Qed.

(** The body shared by the three line decompositions. *)
Lemma ws_segment lp i :
  0 ≤ i → i + 1 < n →
  writes_sat
    (λ r, v0 ← idx_at (Some input) i 0;
          v1 ← idx_at (Some input) (wrap32 (i + 1)) 0;
          let pv := if lp : bool then v1 else v0 in
          emit_line_pv r v0 v1 pv) 2
    (λ g, g = if lp then [c (i + 1); c i] else [c i; c (i + 1)]).
Proof.
  intros Hi Hlt. rewrite wrap32_small by lia.
  rewrite !idx_at_corner by lia. cbn [mbind option_bind].
  apply ws_line_pv.
Qed.

Lemma ws_loop_groups (a s : Z) (k m : nat) (P : Z → list Z → Prop) body :
  0 ≤ a → 0 < s → n + a + s ≤ 2 ^ 32 →
  (k * Z.to_nat (iters n a s 0))%nat = m →
  (∀ i, 0 ≤ i → i + a < n → writes_sat (body i) k (P i)) →
  writes_sat (for_loop (Z.to_nat n) (λ i, wrap32 (i + a) <? n) s body 0) m
    (λ E, ∃ Gs, E = concat Gs ∧ length Gs = Z.to_nat (iters n a s 0) ∧
                ∀ (i : nat) g, Gs !! i = Some g → P (s * Z.of_nat i) g).
Proof.
  intros Ha Hs Hc Hm Hbody.
  eapply writes_sat_weaken;
    [exact Hm| |apply (ws_for_loop n a s k P); try done; lia].
  intros E _. apply grouped_lookup.
Qed.

Lemma segments_emitted t pm lp fs :
  line_topology t = true →
  ∃ segs,
    emitted (state t pm lp fs) (Some input) 0 n = concat segs ∧
    length segs = segment_count t (length input) ∧
    ∀ k g, segs !! k = Some g →
           g = emitted_segment lp (input_segment t input k).
Proof.
  intros Ht.
  apply (emitted_sat (state t pm lp fs) (Some input) 0 n
           (λ E, ∃ segs, E = concat segs ∧
                   length segs = segment_count t (length input) ∧
                   ∀ k g, segs !! k = Some g →
                          g = emitted_segment lp (input_segment t input k)));
    [lia|].
  destruct t; try discriminate; unfold rewrite_indices; cbn [state primitive_mode
    polygon_mode last_provoking flat_shading emitted_count].
  - (* lines *)
    unfold rewrite_lines.
    eapply writes_sat_weaken;
      [reflexivity| |apply (ws_loop_groups 1 2 2); try lia;
                     [|intros i Hi Hlt; by apply ws_segment]].
    + intros E _ (Gs & -> & Hlen & HGs). exists Gs. split; [done|]. split.
      * rewrite Hlen, iters_div by lia. unfold segment_count.
        change 2 with (Z.of_nat 2). by rewrite <- Nat2Z.inj_div, Nat2Z.id.
      * intros k g Hk. rewrite (HGs k g Hk).
        unfold input_segment, emitted_segment. cbn [fst snd].
        replace (Z.to_nat (2 * Z.of_nat k + 1)) with (2 * k + 1)%nat by lia.
        by replace (Z.to_nat (2 * Z.of_nat k)) with (2 * k)%nat by lia.
    + rewrite iters_div by lia. lia.
  - (* line strip *)
    unfold rewrite_line_strip.
    eapply writes_sat_weaken;
      [reflexivity| |apply (ws_loop_groups 1 1 2); try lia;
                     [|intros i Hi Hlt; by apply ws_segment]].
    + intros E _ (Gs & -> & Hlen & HGs). exists Gs. split; [done|]. split.
      * rewrite Hlen, iters_unit by lia. unfold segment_count. lia.
      * intros k g Hk. rewrite (HGs k g Hk).
        unfold input_segment, emitted_segment. cbn [fst snd].
        replace (Z.to_nat (1 * Z.of_nat k + 1)) with (k + 1)%nat by lia.
        by replace (Z.to_nat (1 * Z.of_nat k)) with k by lia.
    + rewrite iters_unit by lia. destruct (Z.leb_spec 2 n); lia.
  - (* line loop *)
    unfold rewrite_line_loop.
    destruct (Z.ltb_spec n 2) as [Hlt|Hge].
    + rewrite (proj2 (Z.leb_gt _ _)) by lia. apply ws_ret.
      exists []. split; [done|]. split; [|done].
      unfold segment_count. case_decide; [lia|done].
    + rewrite (proj2 (Z.leb_le _ _)) by lia.
      rewrite (wrap32_small (n - 1)) by lia.
      rewrite !idx_at_corner by lia. cbn [mbind option_bind].
      eapply writes_sat_weaken;
        [| |eapply ws_bind_pair;
            [apply (ws_loop_groups 1 1 2 (Z.to_nat (2 * (n - 1)))); try lia;
             [|intros i Hi Hlt; by apply ws_segment]
            |apply (ws_line_pv (c (n - 1)) (c 0) lp)]].
      * lia.
      * intros E _ (E1 & E2 & -> & (Gs & -> & Hlen & HGs) & ->).
        rewrite iters_unit in Hlen by lia.
        exists (Gs ++ [if lp then [c 0; c (n - 1)] else [c (n - 1); c 0]]).
        split; [by rewrite concat_app; simpl; rewrite app_nil_r|]. split.
        -- rewrite length_app. simpl. unfold segment_count.
           case_decide; lia.
        -- intros k g Hk. unfold input_segment, emitted_segment. cbn [fst snd].
           destruct (decide (k < length Gs)%nat) as [Hin|Hout].
           ++ rewrite lookup_app_l in Hk by done. rewrite (HGs k g Hk).
              rewrite Nat.mod_small by lia.
              replace (Z.to_nat (1 * Z.of_nat k + 1)) with (k + 1)%nat by lia.
              by replace (Z.to_nat (1 * Z.of_nat k)) with k by lia.
           ++ rewrite lookup_app_r in Hk by lia.
              destruct (k - length Gs)%nat as [|?] eqn:Hd; [|done].
              injection Hk as <-.
              assert (k = length input - 1)%nat as -> by lia.
              replace (length input - 1 + 1)%nat with (length input) by lia.
              rewrite Nat.Div0.mod_same.
              replace (Z.to_nat (n - 1)) with (length input - 1)%nat by lia.
              done.
      * rewrite iters_unit by lia. lia.
Qed.

(** The bodies of the three triangle decompositions. *)
Lemma ws_triangle lp i :
  0 ≤ i → i + 2 < n →
  writes_sat
    (λ r, v0 ← idx_at (Some input) i 0;
          v1 ← idx_at (Some input) (wrap32 (i + 1)) 0;
          v2 ← idx_at (Some input) (wrap32 (i + 2)) 0;
          let pv := if lp : bool then v2 else v0 in
          emit_tri_pv r v0 v1 v2 pv) 3
    (λ g, rotation_of g (c i, c (i + 1), c (i + 2)) ∧
          head g = Some (if lp then c (i + 2) else c i)).
Proof.
  intros Hi Hlt. rewrite !wrap32_small by lia.
  rewrite !idx_at_corner by lia. cbn [mbind option_bind].
  apply ws_tri_pv. destruct lp; auto.
Qed.

Lemma ws_strip_triangle lp i :
  0 ≤ i → i + 2 < n →
  writes_sat
    (λ r, v0 ← idx_at (Some input) i 0;
          v1 ← idx_at (Some input) (wrap32 (i + 1)) 0;
          v2 ← idx_at (Some input) (wrap32 (i + 2)) 0;
          let pv := if lp : bool then v2 else v0 in
          if negb (Z.land i 1 =? 0) then emit_tri_pv r v1 v0 v2 pv
          else emit_tri_pv r v0 v1 v2 pv) 3
    (λ g, rotation_of g (if Z.land i 1 =? 0 then (c i, c (i + 1), c (i + 2))
                         else (c (i + 1), c i, c (i + 2))) ∧
          head g = Some (if lp then c (i + 2) else c i)).
Proof.
  intros Hi Hlt. rewrite !wrap32_small by lia.
  rewrite !idx_at_corner by lia. cbn [mbind option_bind].
  destruct (Z.land i 1 =? 0); cbn [negb]; apply ws_tri_pv; destruct lp; auto.
Qed.

Lemma ws_fan_triangle lp i :
  0 ≤ i → i + 2 < n →
  writes_sat
    (λ r, v1 ← idx_at (Some input) (wrap32 (i + 1)) 0;
          v2 ← idx_at (Some input) (wrap32 (i + 2)) 0;
          let pv := if lp : bool then v2 else v1 in
          emit_tri_pv r (c 0) v1 v2 pv) 3
    (λ g, rotation_of g (c 0, c (i + 1), c (i + 2)) ∧
          head g = Some (if lp then c (i + 2) else c (i + 1))).
Proof.
  intros Hi Hlt. rewrite !wrap32_small by lia.
  rewrite !idx_at_corner by lia. cbn [mbind option_bind].
  apply ws_tri_pv. destruct lp; auto.
Qed.

Lemma land_1_even (k : nat) : (Z.land (Z.of_nat k) 1 =? 0) = Nat.even k.
Proof.
  change 1 with (Z.ones 1). rewrite Z.land_ones by lia.
  change (2 ^ 1) with (Z.of_nat 2). rewrite <- Nat2Z.inj_mod.
  destruct (Nat.even k) eqn:He.
  - apply Nat.even_spec in He as [m ->].
    rewrite Nat.mul_comm, Nat.Div0.mod_mul. done.
  - rewrite <- Nat.negb_odd in He. apply negb_false_iff, Nat.odd_spec in He.
    destruct He as [m ->].
    rewrite Nat.add_comm, Nat.mul_comm, Nat.Div0.mod_add. done.
Qed.

Lemma triangles_emitted t pm lp fs :
  triangle_topology t = true →
  ∃ tris,
    emitted (state t pm lp fs) (Some input) 0 n = concat tris ∧
    length tris = triangle_count t (length input) ∧
    ∀ k g, tris !! k = Some g →
           rotation_of g (input_triangle t input k) ∧
           head g = Some (provoking_vertex t lp input k).
Proof.
  intros Ht.
  apply (emitted_sat (state t pm lp fs) (Some input) 0 n
           (λ E, ∃ tris, E = concat tris ∧
                   length tris = triangle_count t (length input) ∧
                   ∀ k g, tris !! k = Some g →
                          rotation_of g (input_triangle t input k) ∧
                          head g = Some (provoking_vertex t lp input k)));
    [lia|].
  destruct t; try discriminate; unfold rewrite_indices; cbn [state primitive_mode
    polygon_mode last_provoking flat_shading emitted_count].
  - (* triangles *)
    unfold rewrite_triangles.
    eapply writes_sat_weaken;
      [reflexivity| |apply (ws_loop_groups 2 3 3); try lia;
                     [|intros i Hi Hlt; by apply ws_triangle]].
    + intros E _ (Gs & -> & Hlen & HGs). exists Gs. split; [done|]. split.
      * rewrite Hlen, iters_div by lia. unfold triangle_count.
        change 3 with (Z.of_nat 3). by rewrite <- Nat2Z.inj_div, Nat2Z.id.
      * intros k g Hk. destruct (HGs k g Hk) as [Hrot Hhead].
        unfold input_triangle, provoking_vertex.
        replace (Z.to_nat (3 * Z.of_nat k + 2)) with (3 * k + 2)%nat in * by lia.
        replace (Z.to_nat (3 * Z.of_nat k + 1)) with (3 * k + 1)%nat in * by lia.
        replace (Z.to_nat (3 * Z.of_nat k)) with (3 * k)%nat in * by lia.
        split; [done|]. by destruct lp.
    + rewrite iters_div by lia. lia.
  - (* triangle strip *)
    unfold rewrite_triangle_strip.
    eapply writes_sat_weaken;
      [reflexivity| |apply (ws_loop_groups 2 1 3); try lia;
                     [|intros i Hi Hlt; by apply ws_strip_triangle]].
    + intros E _ (Gs & -> & Hlen & HGs). exists Gs. split; [done|]. split.
      * rewrite Hlen, iters_unit by lia. unfold triangle_count. lia.
      * intros k g Hk. destruct (HGs k g Hk) as [Hrot Hhead].
        unfold input_triangle, provoking_vertex.
        rewrite Z.mul_1_l, land_1_even in Hrot. rewrite Z.mul_1_l in Hhead.
        replace (Z.to_nat (Z.of_nat k + 2)) with (k + 2)%nat in * by lia.
        replace (Z.to_nat (Z.of_nat k + 1)) with (k + 1)%nat in * by lia.
        rewrite Nat2Z.id in *.
        split; [done|]. by destruct lp.
    + rewrite iters_unit by lia. destruct (Z.leb_spec 3 n); lia.
  - (* triangle fan *)
    unfold rewrite_triangle_fan.
    destruct (Z.ltb_spec n 3) as [Hlt|Hge].
    + rewrite (proj2 (Z.leb_gt _ _)) by lia. apply ws_ret.
      exists []. split; [done|]. split; [|done].
      unfold triangle_count. simpl. lia.
    + rewrite (proj2 (Z.leb_le _ _)) by lia.
      rewrite (idx_at_corner 0) by lia. cbn [mbind option_bind].
      eapply writes_sat_weaken;
        [reflexivity| |apply (ws_loop_groups 2 1 3); try lia;
                       [|intros i Hi Hlt; by apply ws_fan_triangle]].
      * intros E _ (Gs & -> & Hlen & HGs). exists Gs. split; [done|]. split.
        -- rewrite Hlen, iters_unit by lia. unfold triangle_count. lia.
        -- intros k g Hk. destruct (HGs k g Hk) as [Hrot Hhead].
           unfold input_triangle, provoking_vertex.
           rewrite Z.mul_1_l in Hrot, Hhead.
           replace (Z.to_nat (Z.of_nat k + 2)) with (k + 2)%nat in * by lia.
           replace (Z.to_nat (Z.of_nat k + 1)) with (k + 1)%nat in * by lia.
           split; [done|]. by destruct lp.
      * rewrite iters_unit by lia. lia.
Qed.

Lemma writes_two_tris a1 b1 d1 a2 b2 d2 :
  writes (λ r, r' ← emit_tri r a1 b1 d1; emit_tri r' a2 b2 d2)
         [a1; b1; d1; a2; b2; d2].
Proof. apply (writes_bind _ _ [a1; b1; d1] [a2; b2; d2]); apply writes_emit_tri. Qed.

Lemma writes_four_lines a1 b1 a2 b2 a3 b3 a4 b4 :
  writes (λ r, r ← emit_line r a1 b1; r ← emit_line r a2 b2;
               r ← emit_line r a3 b3; emit_line r a4 b4)
         [a1; b1; a2; b2; a3; b3; a4; b4].
Proof.
  apply (writes_bind _ _ [a1; b1] [a2; b2; a3; b3; a4; b4]);
    [apply writes_emit_line|].
  apply (writes_bind _ _ [a2; b2] [a3; b3; a4; b4]); [apply writes_emit_line|].
  apply (writes_bind _ _ [a3; b3] [a4; b4]); apply writes_emit_line.
Qed.

Lemma quad_corners_at t (k : nat) (s : Z) :
  s = match t with PRIM_TYPE_QUADS => 4 | _ => 2 end →
  quad_corners t input k
  = (c (s * Z.of_nat k), c (s * Z.of_nat k + 1), c (s * Z.of_nat k + 2),
     c (s * Z.of_nat k + 3)).
Proof.
  intros ->. unfold quad_corners.
  destruct t;
    repeat match goal with
    | |- context [Z.to_nat ?x] =>
        match x with
        | context [Z.of_nat k] =>
            let m := fresh "m" in
            let Hm := fresh "Hm" in
            remember (Z.to_nat x) as m eqn:Hm;
            first [ assert (m = (4 * k)%nat) as -> by lia
                  | assert (m = (4 * k + 1)%nat) as -> by lia
                  | assert (m = (4 * k + 2)%nat) as -> by lia
                  | assert (m = (4 * k + 3)%nat) as -> by lia
                  | assert (m = (2 * k)%nat) as -> by lia
                  | assert (m = (2 * k + 1)%nat) as -> by lia
                  | assert (m = (2 * k + 2)%nat) as -> by lia
                  | assert (m = (2 * k + 3)%nat) as -> by lia ];
            clear Hm
        end
    end; reflexivity.
Qed.

Lemma quads_emitted t pm lp fs :
  quad_topology t = true →
  ∃ quads,
    emitted (state t pm lp fs) (Some input) 0 n = concat quads ∧
    length quads = quad_count t (length input) ∧
    ∀ k g, quads !! k = Some g →
           g = if decide (pm = POLY_MODE_LINE)
               then quad_outline t (quad_corners t input k)
               else quad_triangles t fs (quad_corners t input k).
Proof.
  intros Ht.
  apply (emitted_sat (state t pm lp fs) (Some input) 0 n
           (λ E, ∃ quads, E = concat quads ∧
                   length quads = quad_count t (length input) ∧
                   ∀ k g, quads !! k = Some g →
                     g = if decide (pm = POLY_MODE_LINE)
                         then quad_outline t (quad_corners t input k)
                         else quad_triangles t fs (quad_corners t input k)));
    [lia|].
  assert (Hdiv4 : Z.to_nat (n / 4) = (length input / 4)%nat)
    by (change 4 with (Z.of_nat 4); by rewrite <- Nat2Z.inj_div, Nat2Z.id).
  assert (Hdiv2 : 4 ≤ n → Z.to_nat ((n - 2) / 2) = ((length input - 2) / 2)%nat).
  { intros. replace (n - 2) with (Z.of_nat (length input - 2)) by lia.
    change 2 with (Z.of_nat 2) at 1. by rewrite <- Nat2Z.inj_div, Nat2Z.id. }
  destruct t; try discriminate; unfold rewrite_indices; cbn [state primitive_mode
    polygon_mode last_provoking flat_shading emitted_count];
    destruct (decide (pm = POLY_MODE_LINE)) as [Hpm|Hpm].
  - (* the outline of quads *)
    unfold rewrite_quads_line.
    eapply writes_sat_weaken;
      [reflexivity|
      |apply (ws_loop_groups 3 4 8 _
                (λ i g, g = [c i; c (i + 1); c (i + 1); c (i + 2);
                             c (i + 2); c (i + 3); c (i + 3); c i]));
       try lia].
    + intros E _ (Gs & -> & Hlen & HGs). exists Gs. split; [done|]. split.
      * rewrite Hlen, iters_div by lia. exact Hdiv4.
      * intros k g Hk. rewrite (HGs k g Hk).
        by rewrite (quad_corners_at PRIM_TYPE_QUADS k 4).
    + rewrite iters_div by lia. lia.
    + intros i Hi Hlt. rewrite !wrap32_small by lia.
      rewrite !idx_at_corner by lia. cbn [mbind option_bind].
      eexists. split_and!; [|reflexivity|apply writes_four_lines]. done.
  - (* the triangles of quads *)
    unfold rewrite_quads.
    eapply writes_sat_weaken;
      [reflexivity|
      |apply (ws_loop_groups 3 4 6 _
                (λ i g, g = if fs
                            then [c (i + 3); c i; c (i + 1);
                                  c (i + 3); c (i + 1); c (i + 2)]
                            else [c i; c (i + 1); c (i + 2);
                                  c i; c (i + 2); c (i + 3)]));
       try lia].
    + intros E _ (Gs & -> & Hlen & HGs). exists Gs. split; [done|]. split.
      * rewrite Hlen, iters_div by lia. exact Hdiv4.
      * intros k g Hk. rewrite (HGs k g Hk).
        rewrite (quad_corners_at PRIM_TYPE_QUADS k 4) by done.
        by destruct fs.
    + rewrite iters_div by lia. lia.
    + intros i Hi Hlt. rewrite !wrap32_small by lia.
      rewrite !idx_at_corner by lia. cbn [mbind option_bind].
      destruct fs; (eexists; split_and!;
                    [|reflexivity|apply writes_two_tris]; done).
  - (* the outline of a quad strip *)
    unfold rewrite_quad_strip_line.
    destruct (Z.ltb_spec n 4) as [Hlt|Hge].
    + rewrite (proj2 (Z.leb_gt _ _)) by lia. apply ws_ret.
      exists []. split; [done|]. split; [|done].
      unfold quad_count. cbn [length].
      symmetry. apply Nat.div_small. lia.
    + rewrite (proj2 (Z.leb_le _ _)) by lia.
      eapply writes_sat_weaken;
        [reflexivity|
        |apply (ws_loop_groups 3 2 8 _
                  (λ i g, g = [c i; c (i + 1); c (i + 1); c (i + 3);
                               c (i + 3); c (i + 2); c (i + 2); c i]));
         try lia].
      * intros E _ (Gs & -> & Hlen & HGs). exists Gs. split; [done|]. split.
        -- rewrite Hlen, iters_window by lia. by apply Hdiv2.
        -- intros k g Hk. rewrite (HGs k g Hk).
           by rewrite (quad_corners_at PRIM_TYPE_QUAD_STRIP k 2).
      * rewrite iters_window by lia.
        pose proof (Z.div_pos (n - 2) 2). lia.
      * intros i Hi Hlt. rewrite !wrap32_small by lia.
        rewrite !idx_at_corner by lia. cbn [mbind option_bind].
        eexists. split_and!; [|reflexivity|apply writes_four_lines]. done.
  - (* the triangles of a quad strip *)
    unfold rewrite_quad_strip.
    destruct (Z.ltb_spec n 4) as [Hlt|Hge].
    + rewrite (proj2 (Z.leb_gt _ _)) by lia. apply ws_ret.
      exists []. split; [done|]. split; [|done].
      unfold quad_count. cbn [length].
      symmetry. apply Nat.div_small. lia.
    + rewrite (proj2 (Z.leb_le _ _)) by lia.
      eapply writes_sat_weaken;
        [reflexivity|
        |apply (ws_loop_groups 3 2 6 _
                  (λ i g, g = if fs
                              then [c (i + 3); c (i + 2); c i;
                                    c (i + 3); c i; c (i + 1)]
                              else [c i; c (i + 1); c (i + 2);
                                    c (i + 2); c (i + 1); c (i + 3)]));
         try lia].
      * intros E _ (Gs & -> & Hlen & HGs). exists Gs. split; [done|]. split.
        -- rewrite Hlen, iters_window by lia. by apply Hdiv2.
        -- intros k g Hk. rewrite (HGs k g Hk).
           rewrite (quad_corners_at PRIM_TYPE_QUAD_STRIP k 2) by done.
           by destruct fs.
      * rewrite iters_window by lia.
        pose proof (Z.div_pos (n - 2) 2). lia.
      * intros i Hi Hlt. rewrite !wrap32_small by lia.
        rewrite !idx_at_corner by lia. cbn [mbind option_bind].
        destruct fs; (eexists; split_and!;
                      [|reflexivity|apply writes_two_tris]; done).
Qed.

(** A polygon is filled by the fan of its first index, and outlined by
    the loop through its indices. *)
Lemma polygon_emitted pm lp fs :
  pm ≠ POLY_MODE_LINE →
  ∃ tris,
    emitted (state PRIM_TYPE_POLYGON pm lp fs) (Some input) 0 n = concat tris ∧
    length tris = triangle_count PRIM_TYPE_TRIANGLE_FAN (length input) ∧
    ∀ k g, tris !! k = Some g →
           g = [corner input 0; corner input (k + 1); corner input (k + 2)].
Proof.
  intros Hpm.
  apply (emitted_sat (state PRIM_TYPE_POLYGON pm lp fs) (Some input) 0 n
           (λ E, ∃ tris, E = concat tris ∧
                   length tris = triangle_count PRIM_TYPE_TRIANGLE_FAN
                                   (length input) ∧
                   ∀ k g, tris !! k = Some g →
                     g = [corner input 0; corner input (k + 1);
                          corner input (k + 2)])); [lia|].
  unfold rewrite_indices. cbn [state primitive_mode polygon_mode last_provoking
    flat_shading emitted_count].
  destruct (decide (pm = POLY_MODE_LINE)) as [?|_]; [done|].
  unfold rewrite_polygon.
  destruct (Z.ltb_spec n 3) as [Hlt|Hge].
  - rewrite (proj2 (Z.leb_gt _ _)) by lia. apply ws_ret.
    exists []. split; [done|]. split; [|done].
    unfold triangle_count. simpl. lia.
  - rewrite (proj2 (Z.leb_le _ _)) by lia.
    rewrite (idx_at_corner 0) by lia. cbn [mbind option_bind].
    eapply writes_sat_weaken;
      [reflexivity|
      |apply (ws_loop_groups 2 1 3 _
                (λ i g, g = [c 0; c (i + 1); c (i + 2)])); try lia].
    + intros E _ (Gs & -> & Hlen & HGs). exists Gs. split; [done|]. split.
      * rewrite Hlen, iters_unit by lia. unfold triangle_count. lia.
      * intros k g Hk. rewrite (HGs k g Hk). rewrite Z.mul_1_l.
        replace (Z.to_nat (Z.of_nat k + 2)) with (k + 2)%nat by lia.
        by replace (Z.to_nat (Z.of_nat k + 1)) with (k + 1)%nat by lia.
    + rewrite iters_unit by lia. lia.
    + intros i Hi Hlt. rewrite !wrap32_small by lia.
      rewrite !idx_at_corner by lia. cbn [mbind option_bind].
      eexists. split_and!; [|reflexivity|apply writes_emit_tri]. done.
Qed.

End primitives.

(** * Further properties of the primitive rewrite *)

Section prim_properties.

Lemma ranges_ok_each ranges :
  ranges_ok ranges → Forall (λ rg, 0 ≤ rg.2 < 2 ^ 30) ranges.
Proof.
  intros (Hnn & Ht & _). induction Hnn as [|rg rest Hrg Hrest IH]; [done|].
  simpl in Ht. pose proof (total_count_nonneg rest Hrest).
  constructor; [lia|]. apply IH. lia.
Qed.

Lemma mode_assertion_not_polygon t pm lp fs :
  t ≠ PRIM_TYPE_POLYGON → mode_assertion (state t pm lp fs) = true.
Proof.
  intros Ht. unfold mode_assertion. simpl.
  rewrite (bool_decide_eq_true_2 (t ≠ PRIM_TYPE_POLYGON)) by done.
  apply orb_true_r.
Qed.

(** A single range gives the output of its explicit indices. *)
Lemma sequential_output buf mode start count :
  buf_wf buf → mode_assertion mode = true → 0 ≤ count < 2 ^ 30 →
  output (pgraph_prim_rewrite_sequential buf mode start count) =
  output (pgraph_prim_rewrite_indexed buf mode (Some (expand start count)) count).
Proof.
  intros Hwf Hassert Hc.
  assert (Hok : ranges_ok [(start, count)]).
  { split; [repeat constructor; simpl; lia|]. split; simpl; lia. }
  etrans; [exact (ranges_output buf mode [(start, count)] Hwf Hassert Hok)|].
  rewrite indexed_output; [|done..|].
  - f_equal. destruct (needs_rewrite mode); [|done].
    unfold ranges_emitted, range_emitted, emitted. simpl.
    rewrite app_nil_r, (wrap32_small count) by lia.
    by rewrite rewrite_indices_expand by lia.
  - simpl. unfold expand. rewrite length_fmap, length_seq. lia.
Qed.

Lemma emitted_count_whole t pm count :
  (vertices_per_primitive (pgraph_prim_rewrite_get_output_mode t pm)
   | emitted_count t pm count).
Proof.
  unfold emitted_count, pgraph_prim_rewrite_get_output_mode.
  destruct t; simpl; repeat case_decide; simpl; repeat case_match;
    first [ apply Z.divide_0_r | apply Z.divide_factor_l
          | apply Z.divide_mul_l; first [by exists 2 | by exists 4] ].
Qed.

Lemma emitted_whole mode idx base count :
  primitive_mode mode ≠ PRIM_TYPE_POINTS → 0 ≤ count < 2 ^ 30 →
  idx_ok idx count →
  (vertices_per_primitive
     (pgraph_prim_rewrite_get_output_mode (primitive_mode mode) (polygon_mode mode))
   | Z.of_nat (length (emitted mode idx base count))).
Proof.
  intros Hpt Hc Hok.
  destruct (emitted_writes mode idx base count Hpt Hc Hok) as [_ ->].
  pose proof (emitted_count_range count Hc (primitive_mode mode) (polygon_mode mode)).
  rewrite Z2Nat.id by lia. apply emitted_count_whole.
Qed.

Lemma input_value_elem_of input n v :
  input_value (Some input) 0 n v → v ∈ input.
Proof. intros (j & _ & Hj). by eapply list_elem_of_lookup_2. Qed.

Lemma input_value_expand start count v :
  0 ≤ count < 2 ^ 30 →
  input_value None (wrap32 start) count v → v ∈ expand start count.
Proof.
  intros Hc (j & Hj & Hv). simpl in Hv. injection Hv as <-.
  apply (list_elem_of_lookup_2 _ (Z.to_nat j)).
  rewrite lookup_expand by done. f_equal.
  unfold wrap32. by rewrite Zplus_mod_idemp_l.
Qed.

Lemma ensure_capacity_monotone buf needed :
  buf_wf buf → 0 ≤ needed < 2 ^ 32 →
  buf_wf (ensure_capacity buf needed) ∧
  needed ≤ capacity (ensure_capacity buf needed) ∧
  capacity buf ≤ capacity (ensure_capacity buf needed).
Proof.
  intros [Hcap Hdata] Hn. unfold ensure_capacity.
  destruct (Z.leb_spec needed (capacity buf)) as [Hle|Hgt].
  - split_and!; [done|lia|lia].
  - assert (0 ≤ wrap32 (capacity buf * 2) < 2 ^ 32)
      by (unfold wrap32; apply Z.mod_pos_bound; lia).
    split_and!; simpl; [|lia|lia].
    split; simpl; [lia|]. rewrite length_resize. lia.
Qed.

(** X1: [ensure_capacity] never shrinks the scratch array: the capacity
    it leaves is at least the capacity asked for and at least the old
    one, also where doubling wraps around; the array is left alone when
    it is large enough, and its old contents are kept when it grows. *)
Theorem ensure_capacity_grows (buf : PrimRewriteBuf) (needed : Z) :
  buf_wf buf → 0 ≤ needed < 2 ^ 32 →
  let buf' := ensure_capacity buf needed in
  buf_wf buf' ∧ needed ≤ capacity buf' ∧ capacity buf ≤ capacity buf' ∧
  (needed ≤ capacity buf → buf' = buf) ∧
  ∀ a, data buf = Some a →
       ∃ a', data buf' = Some a' ∧ take (length a) a' = a.
Proof.
  intros Hwf Hn buf'. subst buf'.
  destruct (ensure_capacity_monotone buf needed Hwf Hn) as (Hwf' & Hle & Hmono).
  split_and!; [done..| |].
  - intros Hfits. unfold ensure_capacity.
    by rewrite (proj2 (Z.leb_le _ _) Hfits).
  - destruct Hwf as [Hcap Hdata]. intros a Ha. rewrite Ha in Hdata.
    unfold ensure_capacity.
    destruct (Z.leb_spec needed (capacity buf)) as [Hfits|Hgrow].
    + exists a. split; [done|]. by rewrite firstn_all.
    + rewrite Ha. simpl. eexists. split; [done|].
      rewrite resize_ge by lia. by rewrite take_app_length.
Qed.

Lemma ensure_capacity_grows_witness :
  buf_wf {| data := Some [7; 8; 9]; capacity := 3 |} ∧ 0 ≤ 4 < 2 ^ 32 ∧
  let buf' := ensure_capacity {| data := Some [7; 8; 9]; capacity := 3 |} 4 in
  buf_wf buf' ∧ 4 ≤ capacity buf' ∧ 3 ≤ capacity buf' ∧
  (4 ≤ 3 → buf' = {| data := Some [7; 8; 9]; capacity := 3 |}) ∧
  ∀ a, Some [7; 8; 9] = Some a →
       ∃ a', data buf' = Some a' ∧ take (length a) a' = a.
Proof.
  assert (H1 : buf_wf {| data := Some [7; 8; 9]; capacity := 3 |})
    by (split; simpl; lia).
  assert (H2 : 0 ≤ 4 < 2 ^ 32) by lia.
  split; [exact H1|]. split; [exact H2|].
  exact (ensure_capacity_grows {| data := Some [7; 8; 9]; capacity := 3 |} 4 H1 H2).
Defined.

(** X2: [pgraph_prim_rewrite_init] leaves a well-formed scratch buffer,
    and a well-formed scratch buffer stays well formed through both
    entry points, with a capacity that never decreases: the buffer a
    call returns can be passed to the next call.  The array of a result
    that is not empty is the array of the buffer returned with it. *)
Theorem scratch_buffer_stays_well_formed (buf : PrimRewriteBuf)
    (mode : PrimAssemblyState) (input : list Z) (ranges : list (Z * Z)) :
  let n := Z.of_nat (length input) in
  buf_wf buf → mode_assertion mode = true → n < 2 ^ 30 → ranges_ok ranges →
  buf_wf (pgraph_prim_rewrite_init buf) ∧
  (∃ buf' res,
     pgraph_prim_rewrite_indexed buf mode (Some input) n = Some (buf', res) ∧
     buf_wf buf' ∧ capacity buf ≤ capacity buf' ∧
     0 ≤ num_indices res ≤ capacity buf' ∧
     (indices res = None ∨ indices res = data buf')) ∧
  (∃ buf' res,
     pgraph_prim_rewrite_ranges buf mode ranges.*1 ranges.*2
       (Z.of_nat (length ranges)) = Some (buf', res) ∧
     buf_wf buf' ∧ capacity buf ≤ capacity buf' ∧
     0 ≤ num_indices res ≤ capacity buf' ∧
     (indices res = None ∨ indices res = data buf')).
Proof.
  intros n Hwf Hassert Hn Hok.
  assert (Hrange : 0 ≤ n < 2 ^ 30) by lia.
  pose proof Hwf as [Hcap _].
  pose proof (max_output_indices_range (primitive_mode mode)
                (polygon_mode mode) n Hrange) as Hb.
  pose proof Hok as (Hnn & Ht & Hlen).
  pose proof (total_max_range mode ranges Hnn Ht) as Htot.
  split; [split; simpl; lia|]. split.
  - destruct (needs_rewrite mode) eqn:Hneeds;
      [destruct (decide (max_output_indices (primitive_mode mode)
                           (polygon_mode mode) n = 0)) as [Hz|Hnz]|].
    + exists buf, empty_result. split_and!; try done; [|simpl; lia|by left].
      unfold pgraph_prim_rewrite_indexed. fold n. by rewrite Hassert, Hneeds, Hz.
    + destruct (indexed_run buf mode (Some input) n)
        as (a & Ha & Hla & Hle & Hrun); [done..|simpl; lia|done|].
      destruct (ensure_capacity_monotone buf
                  (max_output_indices (primitive_mode mode) (polygon_mode mode) n)
                  Hwf ltac:(lia)) as ([Hcap' _] & _ & Hmono).
      eexists _, _. split; [exact Hrun|]. simpl.
      split_and!;
        [split; simpl; [lia|rewrite splice_length by (simpl; lia); lia]
        |lia|lia|lia|by right].
    + exists buf, empty_result. split_and!; try done; [|simpl; lia|by left].
      unfold pgraph_prim_rewrite_indexed. by rewrite Hassert, Hneeds.
  - destruct (needs_rewrite mode) eqn:Hneeds;
      [destruct (decide (total_max mode ranges = 0)) as [Hz|Hnz]|].
    + exists buf, empty_result. split_and!; try done; [|simpl; lia|by left].
      rewrite ranges_total by done. by rewrite Hz.
    + destruct (ranges_run buf mode ranges)
        as (a & Ha & Hla & Hle & Hrun); [done..|].
      destruct (ensure_capacity_monotone buf (total_max mode ranges)
                  Hwf ltac:(lia)) as ([Hcap' _] & _ & Hmono).
      eexists _, _. split; [exact Hrun|]. simpl.
      split_and!;
        [split; simpl; [lia|rewrite splice_length by (simpl; lia); lia]
        |lia|lia|lia|by right].
    + exists buf, empty_result. split_and!; try done; [|simpl; lia|by left].
      unfold pgraph_prim_rewrite_ranges. by rewrite Hassert, Hneeds.
Qed.

Lemma scratch_buffer_stays_well_formed_witness :
  buf_wf fresh_buf ∧ ranges_ok [(0, 4); (8, 3)] ∧
  buf_wf (pgraph_prim_rewrite_init fresh_buf) ∧
  (∃ buf' res,
     pgraph_prim_rewrite_indexed fresh_buf
       (state PRIM_TYPE_QUAD_STRIP POLY_MODE_LINE false false)
       (Some [0; 1; 2; 3; 4; 5]) 6 = Some (buf', res) ∧
     buf_wf buf' ∧ capacity fresh_buf ≤ capacity buf' ∧
     0 ≤ num_indices res ≤ capacity buf' ∧
     (indices res = None ∨ indices res = data buf')) ∧
  (∃ buf' res,
     pgraph_prim_rewrite_ranges fresh_buf
       (state PRIM_TYPE_QUAD_STRIP POLY_MODE_LINE false false)
       [0; 8] [4; 3] 2 = Some (buf', res) ∧
     buf_wf buf' ∧ capacity fresh_buf ≤ capacity buf' ∧
     0 ≤ num_indices res ≤ capacity buf' ∧
     (indices res = None ∨ indices res = data buf')).
Proof.
  assert (Hwf : buf_wf fresh_buf) by (split; simpl; lia).
  assert (Hok : ranges_ok [(0, 4); (8, 3)]).
  { split; [repeat constructor; simpl; lia|]. split; simpl; lia. }
  split; [exact Hwf|]. split; [exact Hok|].
  exact (scratch_buffer_stays_well_formed fresh_buf
           (state PRIM_TYPE_QUAD_STRIP POLY_MODE_LINE false false)
           [0; 1; 2; 3; 4; 5] [(0, 4); (8, 3)] Hwf eq_refl
           ltac:(simpl; lia) Hok).
Defined.

(** X3: the output topology is a point, line or triangle list, it is a
    fixed point of [pgraph_prim_rewrite_get_output_mode], and it is the
    input topology itself whenever [needs_rewrite] is false, in which
    case the draw uses the indices it was given. *)
Theorem output_mode_consistent (t : ShaderPrimitiveMode)
    (pm pm' : ShaderPolygonMode) (lp fs : bool) :
  let out := pgraph_prim_rewrite_get_output_mode t pm in
  (out = PRIM_TYPE_POINTS ∨ out = PRIM_TYPE_LINES ∨ out = PRIM_TYPE_TRIANGLES) ∧
  pgraph_prim_rewrite_get_output_mode out pm' = out ∧
  (out = PRIM_TYPE_POINTS ↔ t = PRIM_TYPE_POINTS) ∧
  (needs_rewrite (state t pm lp fs) = false → out = t).
Proof.
  destruct t, pm; simpl; split_and!; try (intros; discriminate); auto;
    split; intros; try discriminate; done.
Qed.

(** X4: a rewrite emits whole primitives of its output topology: the
    number of indices either entry point returns is a multiple of 2 when
    [pgraph_prim_rewrite_get_output_mode] announces lines and of 3 when
    it announces triangles, whatever the number of input indices. *)
Theorem output_whole_primitives (buf : PrimRewriteBuf)
    (mode : PrimAssemblyState) (input : list Z) (ranges : list (Z * Z)) :
  let n := Z.of_nat (length input) in
  let per_primitive :=
    vertices_per_primitive
      (pgraph_prim_rewrite_get_output_mode (primitive_mode mode)
         (polygon_mode mode)) in
  buf_wf buf → mode_assertion mode = true → n < 2 ^ 30 → ranges_ok ranges →
  (∃ out,
     output (pgraph_prim_rewrite_indexed buf mode (Some input) n) = Some out ∧
     (per_primitive | Z.of_nat (length out))) ∧
  (∃ out,
     output (pgraph_prim_rewrite_ranges buf mode ranges.*1 ranges.*2
               (Z.of_nat (length ranges))) = Some out ∧
     (per_primitive | Z.of_nat (length out))).
Proof.
  intros n per_primitive Hwf Hassert Hn Hok. split.
  - eexists. split; [apply indexed_output; [done..|lia|simpl; lia]|].
    destruct (needs_rewrite mode) eqn:Hneeds; [|apply Z.divide_0_r].
    apply emitted_whole; [by apply needs_rewrite_not_points|lia|simpl; lia].
  - eexists. split; [by apply ranges_output|].
    destruct (needs_rewrite mode) eqn:Hneeds; [|apply Z.divide_0_r].
    pose proof (needs_rewrite_not_points mode Hneeds) as Hpt.
    pose proof (ranges_ok_each ranges Hok) as Heach.
    unfold ranges_emitted. clear Hok.
    induction Heach as [|rg rest Hrg _ IH]; simpl; [apply Z.divide_0_r|].
    rewrite length_app, Nat2Z.inj_add. apply Z.divide_add_r; [|exact IH].
    unfold range_emitted. rewrite (wrap32_small rg.2) by lia.
    by apply emitted_whole.
Qed.

Lemma output_whole_primitives_witness :
  buf_wf fresh_buf ∧ ranges_ok [(0, 5); (9, 4)] ∧
  (∃ out,
     output (pgraph_prim_rewrite_indexed fresh_buf
               (state PRIM_TYPE_QUADS POLY_MODE_POINT false true)
               (Some [0; 1; 2; 3; 4; 5; 6]) 7) = Some out ∧
     (3 | Z.of_nat (length out))) ∧
  (∃ out,
     output (pgraph_prim_rewrite_ranges fresh_buf
               (state PRIM_TYPE_QUADS POLY_MODE_POINT false true)
               [0; 9] [5; 4] 2) = Some out ∧
     (3 | Z.of_nat (length out))).
Proof.
  assert (Hwf : buf_wf fresh_buf) by (split; simpl; lia).
  assert (Hok : ranges_ok [(0, 5); (9, 4)]).
  { split; [repeat constructor; simpl; lia|]. split; simpl; lia. }
  split; [exact Hwf|]. split; [exact Hok|].
  exact (output_whole_primitives fresh_buf
           (state PRIM_TYPE_QUADS POLY_MODE_POINT false true)
           [0; 1; 2; 3; 4; 5; 6] [(0, 5); (9, 4)] Hwf eq_refl
           ltac:(simpl; lia) Hok).
Defined.

(** X5: a rewrite of fewer than [2^30] input indices invents no index:
    every index the explicit-index entry point returns is one of the
    input indices, and every index the ranges entry point returns
    belongs to one of the ranges. *)
Theorem output_indices_from_input (buf : PrimRewriteBuf)
    (mode : PrimAssemblyState) (input : list Z) (ranges : list (Z * Z)) :
  let n := Z.of_nat (length input) in
  buf_wf buf → mode_assertion mode = true → n < 2 ^ 30 → ranges_ok ranges →
  (∃ out,
     output (pgraph_prim_rewrite_indexed buf mode (Some input) n) = Some out ∧
     Forall (λ v, v ∈ input) out) ∧
  (∃ out,
     output (pgraph_prim_rewrite_ranges buf mode ranges.*1 ranges.*2
               (Z.of_nat (length ranges))) = Some out ∧
     Forall (λ v, ∃ rg, rg ∈ ranges ∧ v ∈ expand rg.1 rg.2) out).
Proof.
  intros n Hwf Hassert Hn Hok. split.
  - eexists. split; [apply indexed_output; [done..|lia|simpl; lia]|].
    destruct (needs_rewrite mode) eqn:Hneeds; [|done].
    eapply Forall_impl;
      [apply (emitted_in (Some input) 0 n); [lia|simpl; lia|]|].
    + by apply needs_rewrite_not_points.
    + intros v. apply input_value_elem_of.
  - eexists. split; [by apply ranges_output|].
    destruct (needs_rewrite mode) eqn:Hneeds; [|done].
    pose proof (needs_rewrite_not_points mode Hneeds) as Hpt.
    pose proof (ranges_ok_each ranges Hok) as Heach.
    unfold ranges_emitted. apply Forall_concat, Forall_fmap.
    rewrite Forall_forall in Heach. apply Forall_forall. intros rg Hrg.
    specialize (Heach rg Hrg). simpl.
    unfold range_emitted. rewrite (wrap32_small rg.2) by lia.
    eapply Forall_impl; [by apply (emitted_in None (wrap32 rg.1) rg.2)|].
    intros v Hv. exists rg. split; [done|]. by apply input_value_expand.
Qed.

Lemma output_indices_from_input_witness :
  buf_wf fresh_buf ∧ ranges_ok [(3, 4); (100, 5)] ∧
  (∃ out,
     output (pgraph_prim_rewrite_indexed fresh_buf
               (state PRIM_TYPE_TRIANGLE_STRIP POLY_MODE_FILL true false)
               (Some [5; 9; 2; 7; 5]) 5) = Some out ∧
     Forall (λ v, v ∈ [5; 9; 2; 7; 5]) out) ∧
  (∃ out,
     output (pgraph_prim_rewrite_ranges fresh_buf
               (state PRIM_TYPE_TRIANGLE_STRIP POLY_MODE_FILL true false)
               [3; 100] [4; 5] 2) = Some out ∧
     Forall (λ v, ∃ rg, rg ∈ [(3, 4); (100, 5)] ∧ v ∈ expand rg.1 rg.2) out).
Proof.
  assert (Hwf : buf_wf fresh_buf) by (split; simpl; lia).
  assert (Hok : ranges_ok [(3, 4); (100, 5)]).
  { split; [repeat constructor; simpl; lia|]. split; simpl; lia. }
  split; [exact Hwf|]. split; [exact Hok|].
  exact (output_indices_from_input fresh_buf
           (state PRIM_TYPE_TRIANGLE_STRIP POLY_MODE_FILL true false)
           [5; 9; 2; 7; 5] [(3, 4); (100, 5)] Hwf eq_refl
           ltac:(simpl; lia) Hok).
Defined.

(** X6: the rewrite of a line topology, for fewer than [2^30] input
    indices, emits one segment for each segment of the input, in order:
    segment [k] of a line list joins the indices [2k] and [2k+1], segment [k] of a strip the indices [k] and
    [k+1], and a loop has the segments of the strip and one more from
    its last index back to its first.  Each segment is emitted with its
    provoking end point first: its second end point with
    [last_provoking], its first one otherwise.  The same holds for the
    sequential entry point on the indices of its range. *)
Theorem line_segments_provoking_first (buf : PrimRewriteBuf)
    (t : ShaderPrimitiveMode) (pm : ShaderPolygonMode) (lp fs : bool)
    (input : list Z) :
  let n := Z.of_nat (length input) in
  let mode := state t pm lp fs in
  buf_wf buf → line_topology t = true → needs_rewrite mode = true →
  n < 2 ^ 30 →
  ∃ segs,
    output (pgraph_prim_rewrite_indexed buf mode (Some input) n)
    = Some (concat segs) ∧
    (∀ start, input = expand start n →
       output (pgraph_prim_rewrite_sequential buf mode start n)
       = Some (concat segs)) ∧
    length segs = segment_count t (length input) ∧
    ∀ k g, segs !! k = Some g →
           g = emitted_segment lp (input_segment t input k).
Proof.
  intros n mode Hwf Ht Hneeds Hn.
  assert (Hassert : mode_assertion mode = true)
    by (apply mode_assertion_not_polygon; by destruct t).
  destruct (segments_emitted input Hn t pm lp fs Ht) as (segs & HE & Hlen & Hsegs).
  assert (Hout : output (pgraph_prim_rewrite_indexed buf mode (Some input) n)
                 = Some (concat segs)).
  { rewrite indexed_output; [|done..|lia|simpl; lia].
    rewrite Hneeds. f_equal. exact HE. }
  exists segs. split_and!; [done| |done|done].
  intros start Hin. rewrite sequential_output by (done || lia).
  by rewrite <- Hin.
Qed.

Lemma line_segments_provoking_first_witness :
  buf_wf fresh_buf ∧
  ∃ segs,
    output (pgraph_prim_rewrite_indexed fresh_buf
              (state PRIM_TYPE_LINE_LOOP POLY_MODE_FILL true false)
              (Some [4; 5; 6]) 3) = Some (concat segs) ∧
    (∀ start, [4; 5; 6] = expand start 3 →
       output (pgraph_prim_rewrite_sequential fresh_buf
                 (state PRIM_TYPE_LINE_LOOP POLY_MODE_FILL true false) start 3)
       = Some (concat segs)) ∧
    length segs = segment_count PRIM_TYPE_LINE_LOOP 3 ∧
    ∀ k g, segs !! k = Some g →
           g = emitted_segment true
                 (input_segment PRIM_TYPE_LINE_LOOP [4; 5; 6] k).
Proof.
  assert (Hwf : buf_wf fresh_buf) by (split; simpl; lia).
  split; [exact Hwf|].
  exact (line_segments_provoking_first fresh_buf PRIM_TYPE_LINE_LOOP
           POLY_MODE_FILL true false [4; 5; 6] Hwf eq_refl eq_refl
           ltac:(simpl; lia)).
Defined.

(** X7: the rewrite of a triangle topology, for fewer than [2^30]
    input indices, emits one triangle for each triangle of the input, in
    order: triangle [k] of a list has the indices [3k, 3k+1, 3k+2], triangle [k] of a strip the indices
    [k, k+1, k+2] with the first two exchanged when [k] is odd, and
    triangle [k] of a fan the hub and the indices [k+1, k+2].  Each
    triangle is emitted from its provoking vertex on and keeps its
    winding order: the three indices emitted are a rotation of the
    triangle that starts with its last index with [last_provoking] and
    with its first one otherwise (for a fan, the index after the hub).
    The same holds for the sequential entry point on the indices of its
    range. *)
Theorem triangles_provoking_first (buf : PrimRewriteBuf)
    (t : ShaderPrimitiveMode) (pm : ShaderPolygonMode) (lp fs : bool)
    (input : list Z) :
  let n := Z.of_nat (length input) in
  let mode := state t pm lp fs in
  buf_wf buf → triangle_topology t = true → needs_rewrite mode = true →
  n < 2 ^ 30 →
  ∃ tris,
    output (pgraph_prim_rewrite_indexed buf mode (Some input) n)
    = Some (concat tris) ∧
    (∀ start, input = expand start n →
       output (pgraph_prim_rewrite_sequential buf mode start n)
       = Some (concat tris)) ∧
    length tris = triangle_count t (length input) ∧
    ∀ k g, tris !! k = Some g →
           rotation_of g (input_triangle t input k) ∧
           head g = Some (provoking_vertex t lp input k).
Proof.
  intros n mode Hwf Ht Hneeds Hn.
  assert (Hassert : mode_assertion mode = true)
    by (apply mode_assertion_not_polygon; by destruct t).
  destruct (triangles_emitted input Hn t pm lp fs Ht) as (tris & HE & Hlen & Htris).
  assert (Hout : output (pgraph_prim_rewrite_indexed buf mode (Some input) n)
                 = Some (concat tris)).
  { rewrite indexed_output; [|done..|lia|simpl; lia].
    rewrite Hneeds. f_equal. exact HE. }
  exists tris. split_and!; [done| |done|done].
  intros start Hin. rewrite sequential_output by (done || lia).
  by rewrite <- Hin.
Qed.

Lemma triangles_provoking_first_witness :
  buf_wf fresh_buf ∧
  ∃ tris,
    output (pgraph_prim_rewrite_indexed fresh_buf
              (state PRIM_TYPE_TRIANGLE_STRIP POLY_MODE_FILL false true)
              (Some [4; 5; 6; 7]) 4) = Some (concat tris) ∧
    (∀ start, [4; 5; 6; 7] = expand start 4 →
       output (pgraph_prim_rewrite_sequential fresh_buf
                 (state PRIM_TYPE_TRIANGLE_STRIP POLY_MODE_FILL false true)
                 start 4)
       = Some (concat tris)) ∧
    length tris = triangle_count PRIM_TYPE_TRIANGLE_STRIP 4 ∧
    ∀ k g, tris !! k = Some g →
           rotation_of g (input_triangle PRIM_TYPE_TRIANGLE_STRIP [4; 5; 6; 7] k) ∧
           head g = Some (provoking_vertex PRIM_TYPE_TRIANGLE_STRIP false
                            [4; 5; 6; 7] k).
Proof.
  assert (Hwf : buf_wf fresh_buf) by (split; simpl; lia).
  split; [exact Hwf|].
  exact (triangles_provoking_first fresh_buf PRIM_TYPE_TRIANGLE_STRIP
           POLY_MODE_FILL false true [4; 5; 6; 7] Hwf eq_refl eq_refl
           ltac:(simpl; lia)).
Defined.


Lemma for_loop_ext_all {St} fuel cond step (body1 body2 : Z → St → option St) :
  (∀ i x, body1 i x = body2 i x) →
  ∀ i x, for_loop fuel cond step body1 i x = for_loop fuel cond step body2 i x.
Proof.
  intros Hbody. induction fuel as [|fuel IH]; intros i x; simpl; [done|].
  destruct (cond i); [|done]. rewrite Hbody.
  destruct (body2 i x); simpl; [apply IH|done].
Qed.

Lemma rewrite_polygon_line_loop r idx base count :
  rewrite_polygon_line r idx base count = rewrite_line_loop r idx base count false.
Proof.
  unfold rewrite_polygon_line, rewrite_line_loop.
  destruct (count <? 2); [done|].
  rewrite (for_loop_ext_all _ _ _ _
             (λ i r, v0 ← idx_at idx i base;
                     v1 ← idx_at idx (wrap32 (i + 1)) base;
                     emit_line_pv r v0 v1 v0)).
  - destruct (for_loop _ _ _ _ _ _) as [r'|]; [|done]. cbn [mbind option_bind].
    destruct (idx_at idx (wrap32 (count - 1)) base) as [a|]; [|done].
    destruct (idx_at idx 0 base) as [b|]; [|done]. cbn [mbind option_bind].
    unfold emit_line_pv. by rewrite Z.eqb_refl.
  - intros i x. destruct (idx_at idx i base) as [a|]; [|done].
    destruct (idx_at idx (wrap32 (i + 1)) base) as [b|]; [|done].
    cbn [mbind option_bind]. unfold emit_line_pv. by rewrite Z.eqb_refl.
Qed.

(** X8: the outline of a polygon is a line loop: in line fill mode,
    either entry point returns for a polygon exactly what it returns for
    a line loop without [last_provoking], whatever the two flags of the
    polygon state and the fill mode and the flat-shading flag of the
    loop state. *)
Theorem polygon_outline_is_line_loop (buf : PrimRewriteBuf)
    (pm : ShaderPolygonMode) (lp fs fs' : bool) (input : option (list Z))
    (n : Z) (starts counts : list Z) (num_ranges : Z) :
  pgraph_prim_rewrite_indexed buf
    (state PRIM_TYPE_POLYGON POLY_MODE_LINE lp fs) input n
  = pgraph_prim_rewrite_indexed buf
      (state PRIM_TYPE_LINE_LOOP pm false fs') input n ∧
  pgraph_prim_rewrite_ranges buf
    (state PRIM_TYPE_POLYGON POLY_MODE_LINE lp fs) starts counts num_ranges
  = pgraph_prim_rewrite_ranges buf
      (state PRIM_TYPE_LINE_LOOP pm false fs') starts counts num_ranges.
Proof.
  assert (Hassert : mode_assertion (state PRIM_TYPE_LINE_LOOP pm false fs') = true)
    by (by destruct pm).
  assert (Hri : ∀ r idx base count,
            rewrite_indices r (state PRIM_TYPE_POLYGON POLY_MODE_LINE lp fs)
              idx base count
            = rewrite_indices r (state PRIM_TYPE_LINE_LOOP pm false fs')
                idx base count).
  { intros. unfold rewrite_indices. simpl. apply rewrite_polygon_line_loop. }
  split.
  - unfold pgraph_prim_rewrite_indexed. rewrite Hassert. simpl.
    destruct (_ =? 0); [done|]. by rewrite Hri.
  - unfold pgraph_prim_rewrite_ranges. rewrite Hassert.
    cbn [mode_assertion needs_rewrite state primitive_mode polygon_mode
         last_provoking flat_shading negb orb bool_decide decide_rel].
    change (mode_assertion (state PRIM_TYPE_POLYGON POLY_MODE_LINE lp fs))
      with true. cbn [negb].
    change (max_output_indices PRIM_TYPE_POLYGON POLY_MODE_LINE)
      with (max_output_indices PRIM_TYPE_LINE_LOOP pm).
    destruct (for_loop _ _ _ _ 0 0) as [total|]; [|done].
    cbn [mbind option_bind]. destruct (total =? 0); [done|].
    rewrite (for_loop_ext_all _ _ _ _
               (λ r result,
                  c ← counts !! Z.to_nat r;
                  if c =? 0 then Some result
                  else
                    s ← starts !! Z.to_nat r;
                    rewrite_indices result
                      (state PRIM_TYPE_LINE_LOOP pm false fs') None
                      (wrap32 s) (wrap32 c))); [done|].
    intros i x. destruct (counts !! Z.to_nat i) as [c|]; [|done].
    cbn [mbind option_bind]. destruct (c =? 0); [done|].
    destruct (starts !! Z.to_nat i) as [s|]; [|done].
    cbn [mbind option_bind]. apply Hri.
Qed.

(** X9: the rewrite of quads and of a quad strip, for fewer than [2^30]
    input indices, emits one group of indices for each quad of the
    input, in order: quad [k] of a quad list has the indices
    [4k .. 4k+3], quad [k] of a strip the indices [2k .. 2k+3].  In line fill mode the group is the closed outline of
    the quad, four segments; otherwise it is two triangles, which with
    flat shading both start with the last index of the quad.  The same
    holds for the sequential entry point on the indices of its range. *)
Theorem quads_decomposed (buf : PrimRewriteBuf)
    (t : ShaderPrimitiveMode) (pm : ShaderPolygonMode) (lp fs : bool)
    (input : list Z) :
  let n := Z.of_nat (length input) in
  let mode := state t pm lp fs in
  buf_wf buf → quad_topology t = true → n < 2 ^ 30 →
  ∃ quads,
    output (pgraph_prim_rewrite_indexed buf mode (Some input) n)
    = Some (concat quads) ∧
    (∀ start, input = expand start n →
       output (pgraph_prim_rewrite_sequential buf mode start n)
       = Some (concat quads)) ∧
    length quads = quad_count t (length input) ∧
    ∀ k g, quads !! k = Some g →
           g = if decide (pm = POLY_MODE_LINE)
               then quad_outline t (quad_corners t input k)
               else quad_triangles t fs (quad_corners t input k).
Proof.
  intros n mode Hwf Ht Hn.
  assert (Hassert : mode_assertion mode = true)
    by (apply mode_assertion_not_polygon; by destruct t).
  assert (Hneeds : needs_rewrite mode = true) by (by destruct t).
  destruct (quads_emitted input Hn t pm lp fs Ht) as (quads & HE & Hlen & Hquads).
  assert (Hout : output (pgraph_prim_rewrite_indexed buf mode (Some input) n)
                 = Some (concat quads)).
  { rewrite indexed_output; [|done..|lia|simpl; lia].
    rewrite Hneeds. f_equal. exact HE. }
  exists quads. split_and!; [done| |done|done].
  intros start Hin. rewrite sequential_output by (done || lia).
  by rewrite <- Hin.
Qed.

Lemma quads_decomposed_witness :
  buf_wf fresh_buf ∧
  ∃ quads,
    output (pgraph_prim_rewrite_indexed fresh_buf
              (state PRIM_TYPE_QUAD_STRIP POLY_MODE_FILL false true)
              (Some [4; 5; 6; 7; 8; 9]) 6) = Some (concat quads) ∧
    (∀ start, [4; 5; 6; 7; 8; 9] = expand start 6 →
       output (pgraph_prim_rewrite_sequential fresh_buf
                 (state PRIM_TYPE_QUAD_STRIP POLY_MODE_FILL false true) start 6)
       = Some (concat quads)) ∧
    length quads = quad_count PRIM_TYPE_QUAD_STRIP 6 ∧
    ∀ k g, quads !! k = Some g →
           g = quad_triangles PRIM_TYPE_QUAD_STRIP true
                 (quad_corners PRIM_TYPE_QUAD_STRIP [4; 5; 6; 7; 8; 9] k).
Proof.
  assert (Hwf : buf_wf fresh_buf) by (split; simpl; lia).
  split; [exact Hwf|].
  exact (quads_decomposed fresh_buf PRIM_TYPE_QUAD_STRIP POLY_MODE_FILL
           false true [4; 5; 6; 7; 8; 9] Hwf eq_refl ltac:(simpl; lia)).
Defined.

(** X10: a filled polygon of fewer than [2^30] input indices is the fan
    of its first index: triangle [k] of the output is the first index
    followed by the indices [k+1] and [k+2], in this order whatever the two flags, so that a polygon,
    unlike a triangle fan, is never rotated to its provoking vertex.
    The same holds for the sequential entry point on the indices of its
    range. *)
Theorem polygon_fill_is_unrotated_fan (buf : PrimRewriteBuf) (lp fs : bool)
    (input : list Z) :
  let n := Z.of_nat (length input) in
  let mode := state PRIM_TYPE_POLYGON POLY_MODE_FILL lp fs in
  buf_wf buf → n < 2 ^ 30 →
  ∃ tris,
    output (pgraph_prim_rewrite_indexed buf mode (Some input) n)
    = Some (concat tris) ∧
    (∀ start, input = expand start n →
       output (pgraph_prim_rewrite_sequential buf mode start n)
       = Some (concat tris)) ∧
    length tris = triangle_count PRIM_TYPE_TRIANGLE_FAN (length input) ∧
    ∀ k g, tris !! k = Some g →
           g = [corner input 0; corner input (k + 1); corner input (k + 2)].
Proof.
  intros n mode Hwf Hn.
  assert (Hassert : mode_assertion mode = true) by done.
  destruct (polygon_emitted input Hn POLY_MODE_FILL lp fs ltac:(done))
    as (tris & HE & Hlen & Htris).
  assert (Hout : output (pgraph_prim_rewrite_indexed buf mode (Some input) n)
                 = Some (concat tris)).
  { rewrite indexed_output; [|done..|lia|simpl; lia].
    change (needs_rewrite mode) with true. cbv iota. f_equal. exact HE. }
  exists tris. split_and!; [done| |done|done].
  intros start Hin. rewrite sequential_output by (done || lia).
  by rewrite <- Hin.
Qed.

Lemma polygon_fill_is_unrotated_fan_witness :
  buf_wf fresh_buf ∧
  ∃ tris,
    output (pgraph_prim_rewrite_indexed fresh_buf
              (state PRIM_TYPE_POLYGON POLY_MODE_FILL true true)
              (Some [10; 20; 30; 40]) 4) = Some (concat tris) ∧
    (∀ start, [10; 20; 30; 40] = expand start 4 →
       output (pgraph_prim_rewrite_sequential fresh_buf
                 (state PRIM_TYPE_POLYGON POLY_MODE_FILL true true) start 4)
       = Some (concat tris)) ∧
    length tris = triangle_count PRIM_TYPE_TRIANGLE_FAN 4 ∧
    ∀ k g, tris !! k = Some g →
           g = [corner [10; 20; 30; 40] 0; corner [10; 20; 30; 40] (k + 1);
                corner [10; 20; 30; 40] (k + 2)].
Proof.
  assert (Hwf : buf_wf fresh_buf) by (split; simpl; lia).
  split; [exact Hwf|].
  exact (polygon_fill_is_unrotated_fan fresh_buf true true [10; 20; 30; 40]
           Hwf ltac:(simpl; lia)).
Defined.

End prim_properties.

(** * Further properties of the buffer set *)

Section buffer_properties.

Lemma creation_succeeds f :
  creation_fails f = false →
  fail_bitmap f = false ∧
  forallb (λ i, negb (fail_create f i)) (seq 0 BUFFER_COUNT) = true ∧
  forallb (λ i, negb (fail_map f i)) buffers_to_map = true.
Proof.
  unfold creation_fails. intros H.
  apply orb_false_elim in H as [H Hm]. apply orb_false_elim in H as [Hb Hc].
  rewrite !forallb_negb_existsb, Hc, Hm. done.
Qed.

Lemma same_layout_refl b : same_layout b b.
Proof. by repeat split. Qed.

Lemma same_layout_trans b1 b2 b3 :
  same_layout b1 b2 → same_layout b2 b3 → same_layout b1 b3.
Proof. unfold same_layout. intros (?&?&?&?) (?&?&?&?). split_and!; congruence. Qed.

Lemma Forall2_diag {A} (R : A → A → Prop) (l : list A) :
  (∀ z, R z z) → Forall2 R l l.
Proof. intros Hrefl. induction l; constructor; auto. Qed.

Lemma Forall2_insert_r_lookup {A} (R : A → A → Prop) (l : list A) i x y :
  (∀ z, R z z) → l !! i = Some x → R x y → Forall2 R l (<[i := y]> l).
Proof.
  intros Hrefl. revert i. induction l as [|z l IH]; intros [|i] Hi Hxy;
    simplify_eq/=; constructor; auto using Forall2_diag.
Qed.

Lemma Forall2_compose {A} (R : A → A → Prop) (l1 l2 l3 : list A) :
  (∀ x y z, R x y → R y z → R x z) →
  Forall2 R l1 l2 → Forall2 R l2 l3 → Forall2 R l1 l3.
Proof.
  intros HR H12. revert l3.
  induction H12; intros l3 H23; inversion H23; subst; constructor; eauto.
Qed.

(** What a creation loop that runs to its end has done. *)
Lemma create_buffers_ok f : ∀ ixs bufs w bufs' w',
  create_buffers f ixs bufs w = (true, bufs', w') →
  Forall2 (λ b b', same_layout b b' ∧ mapped b' = mapped b) bufs bufs' ∧
  live_buffers w ⊆ live_buffers w' ∧
  mapped_allocations w' = mapped_allocations w ∧
  (∀ i b', i ∈ ixs → bufs' !! i = Some b' →
     ∃ h, buffer b' = Some h ∧ allocation b' = Some h ∧ h ∈ live_buffers w') ∧
  (∀ i b', i ∉ ixs → bufs' !! i = Some b' → bufs !! i = Some b').
Proof.
  induction ixs as [|i ixs IH]; intros bufs w bufs' w' Hrun.
  - injection Hrun as <- <-. split_and!; [|done|done| |done].
    + apply Forall2_diag. intros b.
      split; [apply same_layout_refl|done].
    + intros i b' Hi. by apply elem_of_nil in Hi.
  - cbn [create_buffers] in Hrun.
    destruct (bufs !! i) as [b|] eqn:Hb; [|done].
    unfold create_buffer, vmaCreateBuffer in Hrun.
    destruct (fail_create f i); [done|].
    match type of Hrun with
    | create_buffers _ _ (<[_ := ?x]> _) _ = _ => set (b1 := x) in Hrun
    end.
    apply IH in Hrun as (Hlay & Hlive & Hmap & Hin & Hout). clear IH.
    simpl in Hlive, Hmap. split_and!.
    + refine (Forall2_compose _ _ _ _ _
                (Forall2_insert_r_lookup _ bufs i b b1 _ Hb _) Hlay).
      * intros x y z [? ?] [? ?].
        split; [by eapply same_layout_trans|congruence].
      * intros z. split; [apply same_layout_refl|done].
      * split; [by repeat split|done].
    + intros x Hx. by apply Hlive, elem_of_union_r.
    + done.
    + intros j b' Hj Hb'. destruct (decide (j ∈ ixs)) as [Hjin|Hjout].
      * by apply (Hin j).
      * apply elem_of_cons in Hj as [->|?]; [|done].
        apply Hout in Hb'; [|done].
        rewrite list_lookup_insert_eq in Hb' by (by eapply lookup_lt_Some).
        injection Hb' as <-. exists (next_handle w). simpl.
        split_and!; [done..|]. by apply Hlive, elem_of_union_l, elem_of_singleton.
    + intros j b' Hj Hb'. apply not_elem_of_cons in Hj as [Hne Hj].
      apply (Hout j b' Hj) in Hb'.
      by rewrite list_lookup_insert_ne in Hb' by done.
Qed.

(** What a mapping loop that runs to its end has done. *)
Lemma map_buffers_ok f : ∀ ixs bufs w bufs' w',
  map_buffers f ixs bufs w = (true, bufs', w') →
  Forall2 (λ b b', same_layout b b' ∧ buffer b' = buffer b ∧
                   allocation b' = allocation b) bufs bufs' ∧
  live_buffers w' = live_buffers w ∧
  mapped_allocations w ⊆ mapped_allocations w' ∧
  (∀ i b', i ∈ ixs → bufs' !! i = Some b' →
     mapped b' ≠ None ∧
     ∃ h, allocation b' = Some h ∧ h ∈ mapped_allocations w') ∧
  (∀ i b', i ∉ ixs → bufs' !! i = Some b' → bufs !! i = Some b').
Proof.
  induction ixs as [|i ixs IH]; intros bufs w bufs' w' Hrun.
  - injection Hrun as <- <-. split_and!; [|done|done| |done].
    + apply Forall2_diag. intros b.
      split; [apply same_layout_refl|done].
    + intros i b' Hi. by apply elem_of_nil in Hi.
  - cbn [map_buffers] in Hrun.
    destruct (bufs !! i) as [b|] eqn:Hb; [|done].
    unfold vmaMapMemory in Hrun.
    destruct (allocation b) as [h|] eqn:Hal; [|done].
    destruct (fail_map f i); [done|].
    apply IH in Hrun as (Hlay & Hlive & Hmap & Hin & Hout). clear IH.
    simpl in Hlive, Hmap. split_and!.
    + refine (Forall2_compose _ _ _ _ _
                (Forall2_insert_r_lookup _ bufs i b (set_mapped b (Some h)) _ Hb _)
                Hlay).
      * intros x y z (? & ? & ?) (? & ? & ?).
        split; [by eapply same_layout_trans|]. split; congruence.
      * intros z. split; [apply same_layout_refl|done].
      * split; [by repeat split|done].
    + done.
    + intros x Hx. by apply Hmap, elem_of_union_r.
    + intros j b' Hj Hb'. destruct (decide (j ∈ ixs)) as [Hjin|Hjout].
      * by apply (Hin j).
      * apply elem_of_cons in Hj as [->|?]; [|done].
        apply Hout in Hb'; [|done].
        rewrite list_lookup_insert_eq in Hb' by (by eapply lookup_lt_Some).
        injection Hb' as <-. simpl. split; [done|].
        exists h. split; [done|].
        by apply Hmap, elem_of_union_l, elem_of_singleton.
    + intros j b' Hj Hb'. apply not_elem_of_cons in Hj as [Hne Hj].
      apply (Hout j b' Hj) in Hb'.
      by rewrite list_lookup_insert_ne in Hb' by done.
Qed.

(** Teardown leaves the [mapped] pointers and the sizes as they are. *)
Lemma release_buffers_keeps : ∀ ixs bufs w,
  Forall2 (λ b b', same_layout b b' ∧ mapped b' = mapped b)
    bufs (release_buffers false ixs bufs w).1.
Proof.
  induction ixs as [|i ixs IH]; intros bufs w; cbn [release_buffers].
  - apply Forall2_diag. intros b.
    split; [apply same_layout_refl|done].
  - destruct (bufs !! i) as [b|] eqn:Hb.
    + set (step := match mapped b with
                   | Some _ => (b, vmaUnmapMemory (allocation b) w)
                   | None => (b, w)
                   end).
      assert (Hstep : step.1 = b) by (subst step; by destruct (mapped b)).
      destruct step as [b1 w1]. simpl in Hstep. subst b1.
      destruct (destroy_buffer b w1) as [b2 w2] eqn:Hd.
      refine (Forall2_compose _ _ _ _ _
                (Forall2_insert_r_lookup _ bufs i b b2 _ Hb _) (IH _ _)).
      * intros x y z [? ?] [? ?].
        split; [by eapply same_layout_trans|congruence].
      * intros z. split; [apply same_layout_refl|done].
      * unfold destroy_buffer in Hd.
        destruct (buffer b), (allocation b); injection Hd as <- _;
          (split; [by repeat split|done]).
    + apply Forall2_diag. intros b.
      split; [apply same_layout_refl|done].
Qed.


Lemma size_at_layout (R : StorageBuffer → StorageBuffer → Prop) bufs bufs' i :
  (∀ b b', R b b' → same_layout b b') → Forall2 R bufs bufs' →
  size_at bufs' i = size_at bufs i.
Proof.
  intros HR H. unfold size_at.
  destruct (bufs' !! i) as [b'|] eqn:Hb'.
  - destruct (Forall2_lookup_r _ _ _ _ _ H Hb') as (b & -> & Hbb).
    simpl. by destruct (HR _ _ Hbb) as (_ & _ & _ & ->).
  - apply lookup_ge_None in Hb'. rewrite <- (Forall2_length _ _ _ H) in Hb'.
    apply lookup_ge_None in Hb'. by rewrite Hb'.
Qed.

Lemma size_policy_layout (R : StorageBuffer → StorageBuffer → Prop)
    cfg vram bufs bufs' :
  (∀ b b', R b b' → same_layout b b') → Forall2 R bufs bufs' →
  size_policy cfg vram bufs → size_policy cfg vram bufs'.
Proof.
  intros HR H. unfold size_policy.
  by rewrite !(size_at_layout R bufs bufs' _ HR H).
Qed.

(** Creation without a failing call, step by step. *)
Lemma init_buffers_run (cfg : Config) (f : Faults) (vram : Z)
    (r : PGRAPHVkState) (w : World) :
  length (storage_buffers r) = BUFFER_COUNT → world_clean w →
  creation_fails f = false →
  ∃ bufs' w' g,
    pgraph_vk_init_buffers cfg f vram r w =
    (true,
     {| storage_buffers := bufs'; uploaded_bitmap := Some (next_handle w);
        bitmap_size := vram / 4096; prim_rewrite_buf := fresh_buf |}, w') ∧
    length bufs' = BUFFER_COUNT ∧ covered bufs' w' ∧ Forall paired bufs' ∧
    heap w' =
      alter g (next_handle w)
        (<[next_handle w := replicate (Z.to_nat (vram / 4096)) false]> ∅) ∧
    heap w' !! next_handle w = Some (replicate (Z.to_nat (vram / 4096)) false) ∧
    size_policy cfg vram bufs' ∧
    ∀ i b, bufs' !! i = Some b →
      buffer_offset b = 0 ∧
      (∃ h, buffer b = Some h ∧ allocation b = Some h ∧ h ∈ live_buffers w') ∧
      (i ∈ buffers_to_map →
       mapped b ≠ None ∧
       ∃ h, allocation b = Some h ∧ h ∈ mapped_allocations w') ∧
      (i ∉ buffers_to_map → mapped b = None).
Proof.
  intros Hlen (Hl & Hm & Hh) Hf.
  destruct (creation_succeeds f Hf) as (Hfb & Hfc & Hfm).
  unfold pgraph_vk_init_buffers.
  destruct (storage_buffers r)
    as [|b0 [|b1 [|b2 [|b3 [|b4 [|b5 [|b6 [|b7 [|b8 [|b9 [|b10 [|]]]]]]]]]]]];
    try discriminate. clear Hlen.
  unfold bitmap_new. rewrite Hfb. cbv zeta. unfold bitmap_clear.
  match goal with
  | |- context [create_buffers f ?ixs ?L ?W] =>
      set (bufs := L); set (w1 := W)
  end.
  assert (Hsize : size_policy cfg vram bufs).
  { subst bufs. clear. unfold size_policy, size_at. cbn [lookup list_lookup
      BUFFER_STAGING_DST BUFFER_STAGING_SRC BUFFER_COMPUTE_DST BUFFER_COMPUTE_SRC
      BUFFER_INDEX BUFFER_INDEX_STAGING BUFFER_VERTEX_RAM BUFFER_VERTEX_INLINE
      BUFFER_VERTEX_INLINE_STAGING BUFFER_UNIFORM BUFFER_UNIFORM_STAGING
      insert list_insert fmap option_fmap option_map default new_buffer
      buffer_size].
    unfold id.
    assert (Hc2 : 0 ≤ vram < 2 ^ 63 → wrap64 (vram * 2) = 2 * vram)
      by (intros; unfold wrap64; rewrite Z.mod_small; lia).
    generalize dependent (wrap64 (vram * 2)). intros c2 Hc2.
    split_and!; try done; try (intros Hv; rewrite (Hc2 Hv); clear Hc2);
      destruct (android cfg); repeat case_match;
      repeat match goal with
      | H : (_ <? _) = true |- _ => apply Z.ltb_lt in H
      | H : (_ <? _) = false |- _ => apply Z.ltb_ge in H
      end; lia. }
  assert (Hnew : Forall (λ b, unset b ∧ mapped b = None ∧ buffer_offset b = 0) bufs)
    by (subst bufs; repeat constructor).
  assert (Hlen : length bufs = 11%nat) by (subst bufs; reflexivity).
  assert (Hcov : covered bufs w1).
  { split; intros h Hh'; simpl in Hh'; [rewrite Hl in Hh'|rewrite Hm in Hh'];
      by apply elem_of_empty in Hh'. }
  assert (Hheap : heap w1 =
            alter (λ bits,
                     take (Z.to_nat 0) bits
                     ++ replicate (Z.to_nat (vram / 4096)) false
                     ++ drop (Z.to_nat (0 + vram / 4096)) bits)
              (next_handle w)
              (<[next_handle w := replicate (Z.to_nat (vram / 4096)) false]> ∅))
    by (subst w1; simpl; by rewrite Hh).
  assert (Hbits : heap w1 !! next_handle w
                  = Some (replicate (Z.to_nat (vram / 4096)) false)).
  { rewrite Hheap, lookup_alter_eq, lookup_insert_eq. simpl. f_equal.
    rewrite drop_ge by (rewrite length_replicate; lia).
    by rewrite app_nil_r. }
  clearbody bufs w1.
  destruct (create_buffers_spec f 11 0 bufs w1) as
    (ok & bufs1 & w2 & Hrun & Hok & Hcov1 & Hp1 & Hlen1 & Hheap1 & Hmap1 & Hall).
  { by rewrite Hlen. }
  { intros j b Hj _. by destruct (proj1 (Forall_lookup _ _) Hnew j b Hj). }
  { intros j b Hj Hlt. lia. }
  { eapply Forall_impl; [exact Hnew|]. by intros b (_ & ? & _). }
  { done. }
  { eapply Forall_impl; [exact Hnew|]. intros b ([? ?] & _).
    unfold paired. congruence. }
  change (seq 0 11) with (seq 0 BUFFER_COUNT) in Hok. rewrite Hfc in Hok.
  subst ok. change (seq 0 BUFFER_COUNT) with (seq 0 11). rewrite Hrun.
  destruct (map_buffers_spec f buffers_to_map bufs1 w2) as
    (ok2 & bufs2 & w3 & Hrun2 & Hok2 & Hcov2 & Hp2 & Hlen2 & Hheap2);
    [by apply Hall| |done..|].
  { rewrite Hlen1, Hlen. unfold buffers_to_map.
    repeat constructor; compute; lia. }
  rewrite Hfm in Hok2. subst ok2. rewrite Hrun2.
  destruct (create_buffers_ok f _ _ _ _ _ Hrun)
    as (Hlay1 & Hlive1 & Hmapped1 & Hin1 & _).
  destruct (map_buffers_ok f _ _ _ _ _ Hrun2)
    as (Hlay2 & Hlive2 & Hmapped2 & Hin2 & Hout2).
  eexists bufs2, w3, _. split; [reflexivity|].
  split_and!.
  - unfold BUFFER_COUNT. congruence.
  - done.
  - done.
  - rewrite Hheap2, Hheap1. exact Hheap.
  - by rewrite Hheap2, Hheap1.
  - eapply size_policy_layout; [|exact Hlay2|]; [by intros ? ? [? _]|].
    eapply size_policy_layout; [|exact Hlay1|]; [by intros ? ? [? _]|done].
  - intros i b2' Hb2.
    destruct (Forall2_lookup_r _ _ _ _ _ Hlay2 Hb2) as (b1' & Hb1 & Hl2 & Hbuf2 & Hal2).
    destruct (Forall2_lookup_r _ _ _ _ _ Hlay1 Hb1) as (b0' & Hb0 & Hl1 & Hmp1).
    destruct (proj1 (Forall_lookup _ _) Hnew i b0' Hb0) as (_ & Hm0 & Ho0).
    split_and!.
    + destruct Hl1 as (_ & _ & Ho1 & _), Hl2 as (_ & _ & Ho2 & _). congruence.
    + destruct (Hin1 i b1') as (h & Hbh & Hah & Hlh); [|done|].
      { apply elem_of_seq. apply lookup_lt_Some in Hb1. lia. }
      exists h. rewrite Hbuf2, Hal2, Hlive2. done.
    + intros Hi. by apply (Hin2 i).
    + intros Hi. apply (Hout2 i b2' Hi) in Hb2.
      assert (b2' = b1') as -> by congruence. congruence.
Qed.

(** X11: when no call fails, creation returns true and leaves the set
    complete: each of the eleven buffers is created, with its two
    handles set and its bump offset at zero; the four buffers of
    [buffers_to_map], and no other, are mapped; the bitmap of uploaded
    pages has one bit for each 4096 bytes of video memory, all clear;
    and the scratch buffer of the primitive rewrite is initialised. *)
Theorem init_buffers_success (cfg : Config) (f : Faults) (vram : Z)
    (r : PGRAPHVkState) (w : World) :
  length (storage_buffers r) = BUFFER_COUNT → world_clean w →
  creation_fails f = false →
  ∃ r' w' bitmap,
    pgraph_vk_init_buffers cfg f vram r w = (true, r', w') ∧
    length (storage_buffers r') = BUFFER_COUNT ∧
    (∀ i b, storage_buffers r' !! i = Some b →
       buffer_offset b = 0 ∧
       (∃ h, buffer b = Some h ∧ allocation b = Some h ∧ h ∈ live_buffers w') ∧
       (i ∈ buffers_to_map →
        mapped b ≠ None ∧
        ∃ h, allocation b = Some h ∧ h ∈ mapped_allocations w') ∧
       (i ∉ buffers_to_map → mapped b = None)) ∧
    uploaded_bitmap r' = Some bitmap ∧ bitmap_size r' = vram / 4096 ∧
    heap w' !! bitmap = Some (replicate (Z.to_nat (vram / 4096)) false) ∧
    prim_rewrite_buf r' = fresh_buf.
Proof.
  intros Hlen Hw Hf.
  destruct (init_buffers_run cfg f vram r w Hlen Hw Hf)
    as (bufs' & w' & g & Hrun & Hlen' & _ & _ & _ & Hbits & _ & Hall).
  eexists _, w', (next_handle w). split; [exact Hrun|]. simpl.
  split_and!; done.
Qed.

Lemma init_buffers_success_witness :
  length (storage_buffers blank_state) = BUFFER_COUNT ∧
  world_clean empty_world ∧ creation_fails no_faults = false ∧
  ∃ r' w' bitmap,
    pgraph_vk_init_buffers
      {| android := false; sizeof_inline_elements := 524284;
         NV2A_VERTEXSHADER_ATTRIBUTES := 16; NV2A_MAX_BATCH_LENGTH := 131071 |}
      no_faults (64 * 1024 * 1024) blank_state empty_world = (true, r', w') ∧
    length (storage_buffers r') = BUFFER_COUNT ∧
    (∀ i b, storage_buffers r' !! i = Some b →
       buffer_offset b = 0 ∧
       (∃ h, buffer b = Some h ∧ allocation b = Some h ∧ h ∈ live_buffers w') ∧
       (i ∈ buffers_to_map →
        mapped b ≠ None ∧
        ∃ h, allocation b = Some h ∧ h ∈ mapped_allocations w') ∧
       (i ∉ buffers_to_map → mapped b = None)) ∧
    uploaded_bitmap r' = Some bitmap ∧
    bitmap_size r' = 64 * 1024 * 1024 / 4096 ∧
    heap w' !! bitmap
    = Some (replicate (Z.to_nat (64 * 1024 * 1024 / 4096)) false) ∧
    prim_rewrite_buf r' = fresh_buf.
Proof.
  assert (H1 : length (storage_buffers blank_state) = BUFFER_COUNT)
    by reflexivity.
  assert (H2 : world_clean empty_world) by (repeat split; reflexivity).
  assert (H3 : creation_fails no_faults = false) by reflexivity.
  split; [exact H1|]. split; [exact H2|]. split; [exact H3|].
  exact (init_buffers_success _ no_faults (64 * 1024 * 1024) blank_state
           empty_world H1 H2 H3).
Defined.

(** X12: the sizes of the buffers after a successful creation: the two
    staging buffers have the size of the video memory and at least
    16 MiB; the two compute buffers have twice that size, at least
    64 MiB and at most 256 MiB, and exactly 64 MiB on Android, also when
    doubling overflows; the vertex buffer has the size of the video
    memory, the uniform buffers 8 MiB, and every source or staging
    buffer the size of the buffer it is paired with. *)
Theorem init_buffers_sizes (cfg : Config) (f : Faults) (vram : Z)
    (r : PGRAPHVkState) (w : World) :
  length (storage_buffers r) = BUFFER_COUNT → world_clean w →
  creation_fails f = false →
  ∃ r' w',
    pgraph_vk_init_buffers cfg f vram r w = (true, r', w') ∧
    size_policy cfg vram (storage_buffers r') ∧
    (android cfg = true →
     size_at (storage_buffers r') BUFFER_COMPUTE_DST = 64 * 1024 * 1024).
Proof.
  intros Hlen Hw Hf.
  destruct (init_buffers_run cfg f vram r w Hlen Hw Hf)
    as (bufs' & w' & g & Hrun & _ & _ & _ & _ & _ & Hsize & _).
  eexists _, w'. split; [exact Hrun|]. simpl. split; [done|].
  intros Ha. destruct Hsize as (_ & _ & Hc & _). rewrite Ha in Hc. lia.
Qed.

Lemma init_buffers_sizes_witness :
  length (storage_buffers blank_state) = BUFFER_COUNT ∧
  world_clean empty_world ∧ creation_fails no_faults = false ∧
  ∃ r' w',
    pgraph_vk_init_buffers
      {| android := true; sizeof_inline_elements := 524284;
         NV2A_VERTEXSHADER_ATTRIBUTES := 16; NV2A_MAX_BATCH_LENGTH := 131071 |}
      no_faults (128 * 1024 * 1024) blank_state empty_world = (true, r', w') ∧
    size_policy
      {| android := true; sizeof_inline_elements := 524284;
         NV2A_VERTEXSHADER_ATTRIBUTES := 16; NV2A_MAX_BATCH_LENGTH := 131071 |}
      (128 * 1024 * 1024) (storage_buffers r') ∧
    (true = true →
     size_at (storage_buffers r') BUFFER_COMPUTE_DST = 64 * 1024 * 1024).
Proof.
  assert (H1 : length (storage_buffers blank_state) = BUFFER_COUNT)
    by reflexivity.
  assert (H2 : world_clean empty_world) by (repeat split; reflexivity).
  assert (H3 : creation_fails no_faults = false) by reflexivity.
  split; [exact H1|]. split; [exact H2|]. split; [exact H3|].
  exact (init_buffers_sizes
           {| android := true; sizeof_inline_elements := 524284;
              NV2A_VERTEXSHADER_ATTRIBUTES := 16;
              NV2A_MAX_BATCH_LENGTH := 131071 |}
           no_faults (128 * 1024 * 1024) blank_state empty_world H1 H2 H3).
Defined.

(** X13: teardown after a successful creation gives everything back: no
    buffer is left allocated, no allocation mapped, and the bitmap is
    freed and its pointer reset, so that the set can be created again.
    The sizes, the bump offsets and the [mapped] pointers of the roster
    are left as they were: unlike the failure path of creation,
    [pgraph_vk_finalize_buffers] does not reset [mapped]. *)
Theorem init_then_finalize (cfg : Config) (f : Faults) (vram : Z)
    (r : PGRAPHVkState) (w : World) :
  length (storage_buffers r) = BUFFER_COUNT → world_clean w →
  creation_fails f = false →
  ∃ r1 w1 r2 w2,
    pgraph_vk_init_buffers cfg f vram r w = (true, r1, w1) ∧
    pgraph_vk_finalize_buffers r1 w1 = (r2, w2) ∧
    world_clean w2 ∧ Forall unset (storage_buffers r2) ∧
    uploaded_bitmap r2 = None ∧ prim_rewrite_buf r2 = fresh_buf ∧
    length (storage_buffers r2) = BUFFER_COUNT ∧
    Forall2 (λ b b', same_layout b b' ∧ mapped b' = mapped b)
      (storage_buffers r1) (storage_buffers r2).
Proof.
  intros Hlen Hw Hf.
  destruct (init_buffers_run cfg f vram r w Hlen Hw Hf)
    as (bufs' & w' & g & Hrun & Hlen' & Hcov & Hp & Hheap & _ & _ & _).
  destruct (release_buffers_spec false BUFFER_COUNT 0 bufs' w')
    as (bufs2 & w2 & Hrel & Hcov2 & Hun & Hheap2); [done|intros; lia|done..|].
  pose proof (release_buffers_keeps (seq 0 BUFFER_COUNT) bufs' w') as Hkeep.
  rewrite Hrel in Hkeep. simpl in Hkeep.
  destruct (covered_clean bufs2 w2 Hcov2 Hun) as [Hl Hm].
  eexists _, w', _, _. split; [exact Hrun|].
  unfold pgraph_vk_finalize_buffers. cbn [storage_buffers uploaded_bitmap].
  rewrite Hrel. split; [reflexivity|]. cbn [storage_buffers uploaded_bitmap
    prim_rewrite_buf].
  split_and!; try done.
  - split; [done|]. split; [done|].
    simpl. rewrite Hheap2, Hheap. apply heap_freed.
  - by rewrite <- (Forall2_length _ _ _ Hkeep).
Qed.

Lemma init_then_finalize_witness :
  length (storage_buffers blank_state) = BUFFER_COUNT ∧
  world_clean empty_world ∧ creation_fails no_faults = false ∧
  ∃ r1 w1 r2 w2,
    pgraph_vk_init_buffers
      {| android := false; sizeof_inline_elements := 524284;
         NV2A_VERTEXSHADER_ATTRIBUTES := 16; NV2A_MAX_BATCH_LENGTH := 131071 |}
      no_faults (64 * 1024 * 1024) blank_state empty_world = (true, r1, w1) ∧
    pgraph_vk_finalize_buffers r1 w1 = (r2, w2) ∧
    world_clean w2 ∧ Forall unset (storage_buffers r2) ∧
    uploaded_bitmap r2 = None ∧ prim_rewrite_buf r2 = fresh_buf ∧
    length (storage_buffers r2) = BUFFER_COUNT ∧
    Forall2 (λ b b', same_layout b b' ∧ mapped b' = mapped b)
      (storage_buffers r1) (storage_buffers r2).
Proof.
  assert (H1 : length (storage_buffers blank_state) = BUFFER_COUNT)
    by reflexivity.
  assert (H2 : world_clean empty_world) by (repeat split; reflexivity).
  assert (H3 : creation_fails no_faults = false) by reflexivity.
  split; [exact H1|]. split; [exact H2|]. split; [exact H3|].
  exact (init_then_finalize _ no_faults (64 * 1024 * 1024) blank_state
           empty_world H1 H2 H3).
Defined.

(** *** The bump allocator, for any chunks *)








End buffer_properties.

(** *** Creation that fails *)

Section failed_creation.

(** The [fail:] path resets every [mapped] pointer. *)
Lemma release_buffers_clears : ∀ m k bufs w,
  (k + m)%nat = length bufs →
  (∀ j b, bufs !! j = Some b → (j < k)%nat → mapped b = None) →
  Forall (λ b, mapped b = None) (release_buffers true (seq k m) bufs w).1.
Proof.
  induction m as [|m IH]; intros k bufs w Hlen Hdone.
  - simpl. apply Forall_lookup. intros j b Hj.
    apply (Hdone j b Hj). apply lookup_lt_Some in Hj. lia.
  - destruct (lookup_lt_is_Some_2 bufs k) as [b Hb]; [lia|].
    cbn [seq release_buffers]. rewrite Hb.
    set (step := match mapped b with
                 | Some _ => (set_mapped b None, vmaUnmapMemory (allocation b) w)
                 | None => (b, w)
                 end).
    assert (Hstep : mapped step.1 = None)
      by (subst step; by destruct (mapped b) eqn:Hm).
    destruct step as [b1 w1]. simpl in Hstep.
    destruct (destroy_buffer b1 w1) as [b2 w2] eqn:Hd.
    assert (Hb2 : mapped b2 = None).
    { unfold destroy_buffer in Hd.
      destruct (buffer b1), (allocation b1); by injection Hd as <- _. }
    apply IH; [rewrite length_insert; lia|].
    intros j bj Hj Hlt. destruct (decide (j = k)) as [->|Hne].
    + rewrite list_lookup_insert_eq in Hj by lia. congruence.
    + rewrite list_lookup_insert_ne in Hj by done. apply (Hdone j bj Hj). lia.
Qed.

(** Teardown finds nothing to do in a roster without handles and
    without mapped pointers. *)
Lemma release_buffers_noop bufs :
  Forall (λ b, unset b ∧ mapped b = None) bufs →
  ∀ ixs w, release_buffers false ixs bufs w = (bufs, w).
Proof.
  intros Hall. induction ixs as [|i ixs IH]; intros w; [done|].
  cbn [release_buffers]. destruct (bufs !! i) as [b|] eqn:Hb; [|done].
  destruct (proj1 (Forall_lookup _ _) Hall i b Hb) as [[Hbuf Hal] Hm].
  rewrite Hm. unfold destroy_buffer. rewrite Hbuf, Hal.
  rewrite list_insert_id by done. apply IH.
Qed.

Lemma failed_path_reset bufs w h bits g :
  length bufs = BUFFER_COUNT → covered bufs w → Forall paired bufs →
  heap w = alter g h (<[h := bits]> ∅) →
  ∃ bufs' w',
    release_buffers true (seq 0 BUFFER_COUNT) bufs w = (bufs', w') ∧
    world_clean (g_free (Some h) w') ∧
    Forall (λ b, unset b ∧ mapped b = None) bufs'.
Proof.
  intros Hlen Hcov Hp Hheap.
  destruct (release_buffers_spec true BUFFER_COUNT 0 bufs w)
    as (bufs' & w' & Hrun & Hcov' & Hun & Hheap'); [done|intros; lia|done..|].
  pose proof (release_buffers_clears BUFFER_COUNT 0 bufs w (eq_sym Hlen)
                ltac:(intros; lia)) as Hclear.
  rewrite Hrun in Hclear. simpl in Hclear.
  exists bufs', w'. split; [done|].
  destruct (covered_clean bufs' w' Hcov' Hun) as [Hl Hm].
  split.
  - split; [done|]. split; [done|].
    simpl. rewrite Hheap', Hheap. apply heap_freed.
  - apply Forall_lookup. intros j b Hj. split.
    + by apply (proj1 (Forall_lookup _ _) Hun j b).
    + by apply (proj1 (Forall_lookup _ _) Hclear j b).
Qed.

Lemma finalize_noop r w :
  Forall (λ b, unset b ∧ mapped b = None) (storage_buffers r) →
  uploaded_bitmap r = None →
  pgraph_vk_finalize_buffers r w =
  ({| storage_buffers := storage_buffers r; uploaded_bitmap := None;
      bitmap_size := bitmap_size r;
      prim_rewrite_buf := pgraph_prim_rewrite_finalize (prim_rewrite_buf r) |},
   w).
Proof.
  intros Hall Hbm. unfold pgraph_vk_finalize_buffers.
  rewrite (release_buffers_noop _ Hall), Hbm. done.
Qed.

(** X16: when a call that creation makes fails, creation returns false
    with a roster that is reset: from a roster without handles and
    without mapped pointers, every entry is again without handles and
    with a null [mapped] pointer, and the bitmap pointer is null.  A
    teardown after the failure therefore finds nothing to release:
    [pgraph_vk_finalize_buffers] leaves the allocator, the heap and the
    roster as they are. *)
Theorem failed_init_then_finalize (cfg : Config) (f : Faults) (vram : Z)
    (r : PGRAPHVkState) (w : World) :
  length (storage_buffers r) = BUFFER_COUNT → world_clean w →
  Forall (λ b, unset b ∧ mapped b = None) (storage_buffers r) →
  creation_fails f = true →
  ∃ r1 w1 r2,
    pgraph_vk_init_buffers cfg f vram r w = (false, r1, w1) ∧
    world_clean w1 ∧ uploaded_bitmap r1 = None ∧
    Forall (λ b, unset b ∧ mapped b = None) (storage_buffers r1) ∧
    pgraph_vk_finalize_buffers r1 w1 = (r2, w1) ∧
    storage_buffers r2 = storage_buffers r1 ∧ uploaded_bitmap r2 = None.
Proof.
  intros Hlen (Hl & Hm & Hh) Hstart Hf.
  assert (Hdone : ∀ r1 w1,
            pgraph_vk_init_buffers cfg f vram r w = (false, r1, w1) →
            world_clean w1 → uploaded_bitmap r1 = None →
            Forall (λ b, unset b ∧ mapped b = None) (storage_buffers r1) →
            ∃ r1 w1 r2,
              pgraph_vk_init_buffers cfg f vram r w = (false, r1, w1) ∧
              world_clean w1 ∧ uploaded_bitmap r1 = None ∧
              Forall (λ b, unset b ∧ mapped b = None) (storage_buffers r1) ∧
              pgraph_vk_finalize_buffers r1 w1 = (r2, w1) ∧
              storage_buffers r2 = storage_buffers r1 ∧
              uploaded_bitmap r2 = None).
  { intros r1 w1 Hrun Hclean Hbm Hall. eexists r1, w1, _.
    split; [exact Hrun|]. split; [done|]. split; [done|]. split; [done|].
    rewrite (finalize_noop r1 w1 Hall Hbm). done. }
  unfold pgraph_vk_init_buffers in *. unfold creation_fails in Hf.
  destruct (storage_buffers r)
    as [|b0 [|b1 [|b2 [|b3 [|b4 [|b5 [|b6 [|b7 [|b8 [|b9 [|b10 [|]]]]]]]]]]]];
    try discriminate. clear Hlen.
  unfold bitmap_new in *. destruct (fail_bitmap f) eqn:Hfb.
  - eapply Hdone; [reflexivity|done|done|].
    cbn [storage_buffers].
    repeat match goal with
    | H : Forall _ (_ :: _) |- _ => apply Forall_cons in H as [? H]
    end.
    cbn [insert list_insert BUFFER_STAGING_DST BUFFER_STAGING_SRC
         BUFFER_COMPUTE_DST BUFFER_COMPUTE_SRC BUFFER_INDEX BUFFER_INDEX_STAGING
         BUFFER_VERTEX_RAM].
    repeat match goal with
    | H : unset _ ∧ _ |- _ => destruct H as [[? ?] ?]
    end.
    repeat constructor; done.
  - cbn [orb] in Hf. cbv zeta in *. unfold bitmap_clear in *.
    match goal with
    | |- context [create_buffers f ?ixs ?L ?W] =>
        set (bufs := L) in *; set (w1 := W) in *
    end.
    assert (Hnew : Forall (λ b, unset b ∧ mapped b = None) bufs)
      by (subst bufs; repeat constructor).
    assert (Hlen : length bufs = 11%nat) by (subst bufs; reflexivity).
    assert (Hcov : covered bufs w1).
    { split; intros h Hh'; simpl in Hh'; [rewrite Hl in Hh'|rewrite Hm in Hh'];
        by apply elem_of_empty in Hh'. }
    assert (Hheap : heap w1 =
              alter (λ bits,
                       take (Z.to_nat 0) bits
                       ++ replicate (Z.to_nat (vram / 4096)) false
                       ++ drop (Z.to_nat (0 + vram / 4096)) bits)
                (next_handle w)
                (<[next_handle w := replicate (Z.to_nat (vram / 4096)) false]> ∅))
      by (subst w1; simpl; by rewrite Hh).
    clearbody bufs w1. clear Hstart.
    destruct (create_buffers_spec f 11 0 bufs w1) as
      (ok & bufs1 & w2 & Hrun & Hok & Hcov1 & Hp1 & Hlen1 & Hheap1 & _ & Hall).
    { by rewrite Hlen. }
    { intros j b Hj _. by destruct (proj1 (Forall_lookup _ _) Hnew j b Hj). }
    { intros j b Hj Hlt. lia. }
    { eapply Forall_impl; [exact Hnew|]. by intros b [_ ?]. }
    { done. }
    { eapply Forall_impl; [exact Hnew|]. intros b [[? ?] _].
      unfold paired. congruence. }
    change (seq 0 BUFFER_COUNT) with (seq 0 11) in *.
    rewrite forallb_negb_existsb in Hok.
    destruct ok.
    + destruct (map_buffers_spec f buffers_to_map bufs1 w2) as
        (ok2 & bufs2 & w3 & Hrun2 & Hok2 & Hcov2 & Hp2 & Hlen2 & Hheap2);
        [by apply Hall| |done..|].
      { rewrite Hlen1, Hlen. unfold buffers_to_map.
        repeat constructor; compute; lia. }
      rewrite forallb_negb_existsb in Hok2.
      destruct ok2.
      { apply (f_equal negb) in Hok, Hok2.
        rewrite negb_involutive in Hok, Hok2. cbn [negb] in Hok, Hok2.
        rewrite <- Hok, <- Hok2 in Hf. done. }
      edestruct (failed_path_reset bufs2 w3 (next_handle w))
        as (bufs' & w' & Hrel & Hclean & Hreset);
        [unfold BUFFER_COUNT; congruence|done|done
        |rewrite Hheap2, Hheap1; exact Hheap|].
      change (seq 0 BUFFER_COUNT) with (seq 0 11) in Hrel.
      eapply Hdone; [by rewrite Hrun, Hrun2, Hrel|done..].
    + edestruct (failed_path_reset bufs1 w2 (next_handle w))
        as (bufs' & w' & Hrel & Hclean & Hreset);
        [unfold BUFFER_COUNT; congruence|done|done|rewrite Hheap1; exact Hheap|].
      change (seq 0 BUFFER_COUNT) with (seq 0 11) in Hrel.
      eapply Hdone; [by rewrite Hrun, Hrel|done..].
Qed.

Lemma failed_init_then_finalize_witness :
  length (storage_buffers blank_state) = BUFFER_COUNT ∧
  world_clean empty_world ∧
  Forall (λ b, unset b ∧ mapped b = None) (storage_buffers blank_state) ∧
  creation_fails
    {| fail_create := λ i, bool_decide (i = BUFFER_UNIFORM);
       fail_map := λ _, false; fail_bitmap := false |} = true ∧
  ∃ r1 w1 r2,
    pgraph_vk_init_buffers
      {| android := true; sizeof_inline_elements := 524284;
         NV2A_VERTEXSHADER_ATTRIBUTES := 16; NV2A_MAX_BATCH_LENGTH := 131071 |}
      {| fail_create := λ i, bool_decide (i = BUFFER_UNIFORM);
         fail_map := λ _, false; fail_bitmap := false |}
      (64 * 1024 * 1024) blank_state empty_world = (false, r1, w1) ∧
    world_clean w1 ∧ uploaded_bitmap r1 = None ∧
    Forall (λ b, unset b ∧ mapped b = None) (storage_buffers r1) ∧
    pgraph_vk_finalize_buffers r1 w1 = (r2, w1) ∧
    storage_buffers r2 = storage_buffers r1 ∧ uploaded_bitmap r2 = None.
Proof.
  assert (H1 : length (storage_buffers blank_state) = BUFFER_COUNT)
    by reflexivity.
  assert (H2 : world_clean empty_world) by (repeat split; reflexivity).
  assert (H3 : Forall (λ b, unset b ∧ mapped b = None)
                 (storage_buffers blank_state))
    by (repeat constructor).
  assert (H4 : creation_fails
                 {| fail_create := λ i, bool_decide (i = BUFFER_UNIFORM);
                    fail_map := λ _, false; fail_bitmap := false |} = true)
    by reflexivity.
  split; [exact H1|]. split; [exact H2|]. split; [exact H3|]. split; [exact H4|].
  exact (failed_init_then_finalize _ _ (64 * 1024 * 1024) blank_state
           empty_world H1 H2 H3 H4).
Defined.

End failed_creation.

(** * The bound beyond [2^30] input indices *)

Section bound_overflow.

Lemma emit_line_full r x y (a : list Z) :
  indices r = Some a → num_indices r = Z.of_nat (length a) →
  emit_line r x y = None.
Proof.
  intros Hi Hn. unfold emit_line, emit_vertex. rewrite Hi. simpl.
  by rewrite bool_decide_eq_false_2 by lia.
Qed.

(** In an array of eight elements the first window of a quad strip in
    line mode fills the array, and the first store of the second window
    falls behind its end. *)
Lemma quad_strip_line_overruns (a : list Z) (base count : Z) :
  length a = 8%nat → 6 ≤ count < 2 ^ 32 - 8 →
  rewrite_quad_strip_line {| indices := Some a; num_indices := 0 |}
    None base count = None.
Proof.
  intros Ha Hc. unfold rewrite_quad_strip_line.
  rewrite (proj2 (Z.ltb_ge count 4)) by lia.
  destruct (Z.to_nat count) as [|[|fuel]] eqn:Hfuel; [lia|lia|].
  rewrite for_loop_step
    by (change (wrap32 (0 + 3)) with 3; apply Z.ltb_lt; lia).
  cbn [idx_at mbind option_bind].
  pose proof (writes_four_lines
                (wrap32 (base + 0)) (wrap32 (base + wrap32 (0 + 1)))
                (wrap32 (base + wrap32 (0 + 1))) (wrap32 (base + wrap32 (0 + 3)))
                (wrap32 (base + wrap32 (0 + 3))) (wrap32 (base + wrap32 (0 + 2)))
                (wrap32 (base + wrap32 (0 + 2))) (wrap32 (base + 0))
                a 0%nat) as Hfirst.
  change (Z.of_nat 0) with 0 in Hfirst.
  rewrite Hfirst by (rewrite Ha; simpl; lia). clear Hfirst.
  cbn [mbind option_bind].
  rewrite for_loop_step
    by (change (wrap32 (wrap32 (0 + 2) + 3)) with 5; apply Z.ltb_lt; lia).
  cbn [idx_at mbind option_bind].
  erewrite emit_line_full; [done|reflexivity|].
  cbn [num_indices]. rewrite splice_length by (rewrite Ha; simpl; lia).
  by rewrite Ha.
Qed.

Lemma sequential_overruns (start count : Z) :
  6 ≤ count < 2 ^ 31 →
  max_output_indices PRIM_TYPE_QUAD_STRIP POLY_MODE_LINE count = 8 →
  pgraph_prim_rewrite_sequential fresh_buf
    (state PRIM_TYPE_QUAD_STRIP POLY_MODE_LINE false false) start count = None ∧
  pgraph_prim_rewrite_indexed fresh_buf
    (state PRIM_TYPE_QUAD_STRIP POLY_MODE_LINE false false) None count = None.
Proof.
  intros Hc Hmax. split.
  - unfold pgraph_prim_rewrite_sequential, pgraph_prim_rewrite_ranges.
    change (mode_assertion _) with true. change (needs_rewrite _) with true.
    cbn [negb state primitive_mode polygon_mode].
    change (Z.to_nat 1) with 1%nat. cbn [for_loop].
    change (0 <? 1) with true. change (Z.to_nat 0) with 0%nat.
    change ([count] !! 0%nat) with (Some count).
    change ([start] !! 0%nat) with (Some start).
    change (wrap32 (0 + 1) <? 1) with false.
    cbn [mbind option_bind].
    rewrite (wrap32_small count) by lia. rewrite Hmax.
    change (wrap32 (0 + 8)) with 8. change (8 =? 0) with false. cbv iota.
    rewrite (proj2 (Z.eqb_neq count 0)) by lia.
    unfold rewrite_indices.
    cbn [state primitive_mode polygon_mode decide decide_rel].
    change (ensure_capacity fresh_buf 8)
      with {| data := Some (replicate 8 0); capacity := 8 |}.
    cbn [data].
    destruct (decide (POLY_MODE_LINE = POLY_MODE_LINE)) as [_|?]; [|done].
    by rewrite quad_strip_line_overruns by (done || lia).
  - unfold pgraph_prim_rewrite_indexed.
    change (mode_assertion _) with true. change (needs_rewrite _) with true.
    cbn [negb state primitive_mode polygon_mode]. rewrite Hmax.
    change (8 =? 0) with false. cbv iota. cbv zeta.
    change (ensure_capacity fresh_buf 8)
      with {| data := Some (replicate 8 0); capacity := 8 |}.
    cbn [data]. unfold rewrite_indices.
    cbn [state primitive_mode polygon_mode].
    destruct (decide (POLY_MODE_LINE = POLY_MODE_LINE)) as [_|?]; [|done].
    by rewrite quad_strip_line_overruns by (done || lia).
Qed.

(** C8, at a failing input: a quad strip of [2^30 + 4] indices in line
    fill mode.  A rewrite is needed and would emit eight indices for
    each of the [2^29 + 1] quads; the bound, computed in 32 bits, wraps
    around to 8, the scratch array is grown to eight elements, and the
    first quad fills it: the stores of the second quad fall behind the
    end of the array, for both entry points.  What is returned does not
    cover the indices written. *)
Lemma bound_wraps_past_scratch_array :
  let mode := state PRIM_TYPE_QUAD_STRIP POLY_MODE_LINE false false in
  let count := 1073741828 in
  count = 2 ^ 30 + 4 ∧ mode_assertion mode = true ∧
  needs_rewrite mode = true ∧
  emitted_count PRIM_TYPE_QUAD_STRIP POLY_MODE_LINE count = 8 * (2 ^ 29 + 1) ∧
  max_output_indices PRIM_TYPE_QUAD_STRIP POLY_MODE_LINE count = 8 ∧
  ensure_capacity fresh_buf 8 = {| data := Some (replicate 8 0); capacity := 8 |} ∧
  pgraph_prim_rewrite_sequential fresh_buf mode 0 count = None ∧
  pgraph_prim_rewrite_indexed fresh_buf mode None count = None.
Proof.
  intros mode count.
  assert (Hmax : max_output_indices PRIM_TYPE_QUAD_STRIP POLY_MODE_LINE count = 8)
    by (vm_compute; reflexivity).
  destruct (sequential_overruns 0 count) as [Hseq Hidx];
    [subst count; lia|exact Hmax|].
  split; [reflexivity|]. split; [reflexivity|]. split; [reflexivity|].
  split; [vm_compute; reflexivity|]. split; [exact Hmax|].
  split; [reflexivity|]. split; [exact Hseq|exact Hidx].
Qed.

End bound_overflow.
